(** * Formik: validation orchestration and path-addressed state

    A shallow embedding of the form-state controller of [src/src/Formik.tsx]
    (class [Formik], [resetFormState], [yupToFormErrors],
    [validateYupSchema]) together with the helpers it imports.

    - JavaScript values are the inductive [value]; objects are
      insertion-ordered association lists, arrays are lists.
    - A promise is represented by what it settles to ([settled]); the
      continuations attached with [.then] are queued in the controller as
      [Task]s and run by [settle], so that other events (unmounting, further
      input) can happen between a call and its settlement.
    - Calls into user callbacks and the console are recorded in a trace.
    - [./utils] ([getIn], [setIn], [setNestedObjectValues]) and the packages
      [deepmerge] and [react-fast-compare] are not part of the sources at
      hand; their definitions below follow the written specification and say
      so. *)

From Stdlib Require Import Floats Ascii String.
From stdpp Require Import base option list strings pretty.

Local Open Scope string_scope.
Local Open Scope list_scope.

(** ** JavaScript values *)

#[local] Set Warnings "-register-all".

(** Numbers are IEEE 754 doubles.  [VHost] stands for an object whose
    content is never looked at, such as an instance of [Error]. *)
Inductive value : Type :=
| VUndefined
| VNull
| VBool (b : bool)
| VNumber (n : float)
| VString (s : string)
| VObject (props : list (string * value))
| VArray (elems : list value)
| VHost (tag : string).

(** Induction principle that also covers the values stored inside objects
    and arrays. *)
Section value_induction.
Variable P : value → Prop.
Hypothesis Hundef : P VUndefined.
Hypothesis Hnull : P VNull.
Hypothesis Hbool : ∀ b, P (VBool b).
Hypothesis Hnum : ∀ n, P (VNumber n).
Hypothesis Hstr : ∀ s, P (VString s).
Hypothesis Hobj : ∀ props, Forall (λ kv, P kv.2) props → P (VObject props).
Hypothesis Harr : ∀ elems, Forall P elems → P (VArray elems).
Hypothesis Hhost : ∀ tag, P (VHost tag).

Fixpoint value_nested_ind (v : value) : P v :=
  match v with
  | VUndefined => Hundef
  | VNull => Hnull
  | VBool b => Hbool b
  | VNumber n => Hnum n
  | VString s => Hstr s
  | VObject props =>
      Hobj props
        ((fix go (l : list (string * value)) : Forall (λ kv, P kv.2) l :=
            match l with
            | [] => List.Forall_nil _
            | kv :: l' => List.Forall_cons _ kv l' (value_nested_ind kv.2) (go l')
            end) props)
  | VArray elems =>
      Harr elems
        ((fix go (l : list value) : Forall P l :=
            match l with
            | [] => List.Forall_nil _
            | x :: l' => List.Forall_cons _ x l' (value_nested_ind x) (go l')
            end) elems)
  | VHost tag => Hhost tag
  end.
End value_induction.

(** [!!x]: the falsy values are [undefined], [null], [false], [0], [-0],
    [NaN] and the empty string. *)
Definition truthy (v : value) : bool :=
  match v with
  | VUndefined | VNull => false
  | VBool b => b
  | VNumber n => negb (PrimFloat.eqb n 0%float) && negb (PrimFloat.is_nan n)
  | VString s => negb (String.eqb s "")
  | VObject _ | VArray _ | VHost _ => true
  end.

(** [isNaN = obj => obj !== obj], at a number. *)
Definition isNaN (n : float) : bool := negb (PrimFloat.eqb n n).

(** [v === s] for a string literal [s]. *)
Definition is_string (s : string) (v : value) : bool :=
  match v with
  | VString s' => String.eqb s' s
  | _ => false
  end.

(** ** Objects as insertion-ordered association lists *)

Section assoc.
Context {A : Type}.

(** [o[k]] *)
Fixpoint obj_get (k : string) (o : list (string * A)) : option A :=
  match o with
  | [] => None
  | (k', v) :: o' => if String.eqb k k' then Some v else obj_get k o'
  end.

(** [o[k] = v]: an existing key keeps its position, a new key goes last. *)
Fixpoint obj_set (k : string) (v : A) (o : list (string * A)) : list (string * A) :=
  match o with
  | [] => [(k, v)]
  | (k', v') :: o' =>
      if String.eqb k k' then (k, v) :: o' else (k', v') :: obj_set k v o'
  end.

(** [delete o[k]] *)
Fixpoint obj_delete (k : string) (o : list (string * A)) : list (string * A) :=
  match o with
  | [] => []
  | (k', v') :: o' =>
      if String.eqb k k' then obj_delete k o' else (k', v') :: obj_delete k o'
  end.
End assoc.

(** [Object.keys(o)] of an object literal. *)
Definition keys {A} (o : list (string * A)) : list string := o.*1.

(** ** Path Accessor ([./utils]: [getIn], [setIn]) *)

(** Modelled from the spec: [arr_set] is the sequence half of the path
    accessor's write ([./utils] is not among the sources).  "Numeric array
    index segments create/extend ordered sequences": writing past the end
    extends the sequence, the skipped slots are absent values. *)
Fixpoint arr_set (i : nat) (v : value) (es : list value) : list value :=
  match i, es with
  | O, [] => [v]
  | O, _ :: es' => v :: es'
  | S i', [] => VUndefined :: arr_set i' v []
  | S i', e :: es' => e :: arr_set i' v es'
  end.

(** Modelled from the spec: a token of the path grammar of [./utils], a
    mapping key or a sequence index. *)
Inductive seg : Type :=
| Key (k : string)
| Idx (i : nat).

(** Modelled from the spec: the separators of the path grammar of
    [./utils]. *)
Definition is_separator (c : ascii) : bool :=
  Ascii.eqb c "." || Ascii.eqb c "[" || Ascii.eqb c "]".

Definition is_digit (c : ascii) : bool :=
  Nat.leb 48 (nat_of_ascii c) && Nat.leb (nat_of_ascii c) 57.

Definition digits_value (cs : list ascii) : nat :=
  fold_left (λ acc c, 10 * acc + (nat_of_ascii c - 48)) cs 0.

(** Modelled from the spec: the path grammar of [./utils]; a token made of
    decimal digits only is a sequence index, any other token is a mapping
    key. *)
Definition classify (tok : list ascii) : seg :=
  if forallb is_digit tok then Idx (digits_value tok)
  else Key (string_of_list_ascii tok).

(** Modelled from the spec: the path grammar of [./utils]; [flush cur rest]
    closes the token read so far ([cur], most recent character first), if
    there is one. *)
Definition flush (cur : list ascii) (rest : list seg) : list seg :=
  match cur with
  | [] => rest
  | _ => classify (rev cur) :: rest
  end.

(** Modelled from the spec: the path grammar of [./utils]; tokens are
    separated by dots and brackets. *)
Fixpoint tokenize (cs cur : list ascii) : list seg :=
  match cs with
  | [] => flush cur []
  | c :: cs' =>
      if is_separator c then flush cur (tokenize cs' [])
      else tokenize cs' (c :: cur)
  end.

(** Modelled from the spec: [toPath] is the path grammar of the path
    accessor ([./utils] is not among the sources): "a sequence of tokens,
    each either a bare identifier (mapping key) or a bracketed/dotted
    non-negative integer (sequence index)"; [a.b[0].c] and [a[b][0].c] are
    the same path. *)
Definition toPath (path : string) : list seg :=
  tokenize (list_ascii_of_string path) [].

(** Modelled from the spec: one step of the read of the path accessor of
    [./utils]: the node below [t] along one token, [None] when there is
    none. *)
Definition child (t : value) (s : seg) : option value :=
  match s, t with
  | Key k, VObject ps => obj_get k ps
  | Idx i, VArray es => es !! i
  | _, _ => None
  end.

(** Modelled from the spec: [get_path] is the read of the path accessor
    ([./utils] is not among the sources), on a tokenised path.  "Getting
    through a non-existent path returns an absent-value marker (not an
    error)". *)
Fixpoint get_path (t : value) (p : list seg) : value :=
  match p with
  | [] => t
  | s :: p' =>
      match child t s with
      | Some c => get_path c p'
      | None => VUndefined
      end
  end.

(** Modelled from the spec: one step of the write of the path accessor of
    [./utils].  An absent node becomes the minimal container the token asks
    for; a node of another kind is the conflict that the specification
    leaves undefined, for which there is no result. *)
Definition put_child (t : value) (s : seg) (c : value) : option value :=
  match s, t with
  | Key k, VObject ps => Some (VObject (obj_set k c ps))
  | Idx i, VArray es => Some (VArray (arr_set i c es))
  | Key k, VUndefined => Some (VObject [(k, c)])
  | Idx i, VUndefined => Some (VArray (arr_set i c []))
  | _, _ => None
  end.

(** Modelled from the spec: [set_path] is the write of the path accessor
    ([./utils] is not among the sources), on a tokenised path.  It returns a
    new tree and leaves its input alone; "setting through a path that does
    not yet exist creates the minimal intermediate containers"; where "an
    intermediate node already exists but its concrete type conflicts with
    what the next path segment requires ... behavior is undefined", and the
    result is [None].  The empty token sequence addresses no node: it has
    no result here and is left to [setIn]. *)
Fixpoint set_path (t : value) (p : list seg) (v : value) : option value :=
  match p with
  | [] => None
  | s :: p' =>
      match p' with
      | [] => put_child t s v
      | _ :: _ =>
          c' ← set_path (default VUndefined (child t s)) p' v;
          put_child t s c'
      end
  end.

(** Modelled from the spec: [getIn(tree, path)] of [./utils]. *)
Definition getIn (t : value) (path : string) : value :=
  get_path t (toPath path).

(** Modelled from the spec: [setIn(tree, path, value)] of [./utils].  A
    path without a token is the empty path of a handler invoked on an element
    that lacks a name and an id: "field update proceeds with an empty path,
    which callers must treat as a no-op-equivalent state", so that the tree
    is returned as it is. *)
Definition setIn (t : value) (path : string) (v : value) : option value :=
  match toPath path with
  | [] => Some t
  | p => set_path t p v
  end.

(** Tokens that can start a common subtree only if they are equal. *)
Definition seg_eqb (s s' : seg) : bool :=
  match s, s' with
  | Key a, Key b => String.eqb a b
  | Idx i, Idx j => Nat.eqb i j
  | _, _ => false
  end.

Definition same_kind (s s' : seg) : bool :=
  match s, s' with
  | Key _, Key _ | Idx _, Idx _ => true
  | _, _ => false
  end.

(** [independent p q]: the two paths leave a common prefix through two
    different tokens of the same kind, so that neither is an ancestor of the
    other and both fit in one tree. *)
Fixpoint independent (p q : list seg) : bool :=
  match p, q with
  | s :: p', s' :: q' =>
      if seg_eqb s s' then independent p' q' else same_kind s s'
  | _, _ => false
  end.

(** [valid_path t p]: [p] has a token, and every node of [t] that [p]
    passes through is absent or a container of the kind the token asks
    for.  These are the paths at which the specification defines the
    write. *)
Fixpoint valid_path (t : value) (p : list seg) : bool :=
  match p with
  | [] => false
  | s :: p' =>
      match s, t with
      | Key _, VObject _ | Idx _, VArray _ | _, VUndefined =>
          match p' with
          | [] => true
          | _ :: _ => valid_path (default VUndefined (child t s)) p'
          end
      | _, _ => false
      end
  end.

(** The array index that a property key denotes: a decimal numeral without
    a leading zero. *)
Definition array_index (k : string) : option nat :=
  let cs := list_ascii_of_string k in
  match cs with
  | [] => None
  | c :: cs' =>
      if forallb is_digit cs
         && (Nat.eqb (length cs') 0 || negb (Ascii.eqb c "0"))
      then Some (digits_value cs) else None
  end.

(** The names that every object inherits from [Object.prototype]. *)
Definition Object_prototype : list string :=
  ["constructor"; "hasOwnProperty"; "isPrototypeOf"; "propertyIsEnumerable";
   "toLocaleString"; "toString"; "valueOf"; "__defineGetter__";
   "__defineSetter__"; "__lookupGetter__"; "__lookupSetter__"; "__proto__"].

(** The names that every array inherits from [Array.prototype] besides. *)
Definition Array_prototype : list string :=
  ["concat"; "copyWithin"; "entries"; "every"; "fill"; "filter"; "find";
   "findIndex"; "forEach"; "includes"; "indexOf"; "join"; "keys";
   "lastIndexOf"; "map"; "pop"; "push"; "reduce"; "reduceRight"; "reverse";
   "shift"; "slice"; "some"; "sort"; "splice"; "unshift"; "values"].

Definition inherited (names : list string) (k : string) : bool :=
  existsb (String.eqb k) names.

(** What a property found on a prototype holds: a function, or the
    prototype itself, in both cases an object of the host. *)
Definition inheritedValue : value := VHost "inherited".

(** [o[k]] on an object or an array: own properties first (the elements and
    the [length] of an array), then the properties inherited from the
    prototype chain. *)
Definition prop (o : value) (k : string) : value :=
  match o with
  | VObject ps =>
      match obj_get k ps with
      | Some v => v
      | None => if inherited Object_prototype k then inheritedValue
                else VUndefined
      end
  | VArray es =>
      match array_index k with
      | Some i => default VUndefined (es !! i)
      | None =>
          if String.eqb k "length"
          then VNumber (PrimFloat.of_uint63 (Uint63.of_Z (Z.of_nat (length es))))
          else if inherited (Array_prototype ++ Object_prototype) k
               then inheritedValue
               else VUndefined
      end
  | _ => VUndefined
  end.

Definition has_key {A} (k : string) (o : list (string * A)) : bool :=
  match obj_get k o with Some _ => true | None => false end.

(** [Object.keys(v)]; it throws a [TypeError] on [undefined] and [null],
    which is the [None] here. *)
Definition Object_keys (v : value) : option (list string) :=
  match v with
  | VUndefined | VNull => None
  | VObject ps => Some (keys ps)
  | VArray es => Some (imap (λ i _, pretty i) es)
  | VString s => Some (imap (λ i _, pretty i) (list_ascii_of_string s))
  | VBool _ | VNumber _ | VHost _ => Some []
  end.

(** ** Third-party helpers *)

(** Modelled from the spec: [deepmerge] is the package of that name, which
    is not among the sources.  "Object-wise union, recursing into common
    nested keys, later sources' leaf values win for a given path"; sequences
    are merged position by position ("same-shape structural merge").  The
    keys of the target come first, then the keys only the source has. *)
Fixpoint deepmerge (target source : value) : value :=
  match target, source with
  | VObject pt, VObject ps =>
      VObject
        ((fix onto (pt : list (string * value)) : list (string * value) :=
            match pt with
            | [] => []
            | (k, vt) :: pt' =>
                (k, match obj_get k ps with
                    | Some vs => deepmerge vt vs
                    | None => vt
                    end) :: onto pt'
            end) pt
         ++ List.filter (λ kv, negb (has_key kv.1 pt)) ps)
  | VArray et, VArray es =>
      VArray
        ((fix zip (et es : list value) : list value :=
            match et, es with
            | [], _ => es
            | _, [] => et
            | x :: et', y :: es' => deepmerge x y :: zip et' es'
            end) et es)
  | _, _ => source
  end.

(** Modelled from the spec: [deepmerge.all(list)] merges the list from left
    to right, starting from an empty object. *)
Definition deepmerge_all (l : list value) : value :=
  fold_left deepmerge l (VObject []).

(** Modelled from the spec: [isEqual] is the package [react-fast-compare],
    which is not among the sources: deep equality of two trees, objects
    compared as mappings, [NaN] equal to itself. *)
Fixpoint isEqual (a b : value) : bool :=
  match a, b with
  | VUndefined, VUndefined | VNull, VNull => true
  | VBool x, VBool y => Bool.eqb x y
  | VNumber x, VNumber y => PrimFloat.eqb x y || (isNaN x && isNaN y)
  | VString x, VString y => String.eqb x y
  | VHost x, VHost y => String.eqb x y
  | VObject pa, VObject pb =>
      Nat.eqb (length pa) (length pb)
      && (fix all (pa : list (string * value)) : bool :=
            match pa with
            | [] => true
            | (k, va) :: pa' =>
                match obj_get k pb with
                | Some vb => isEqual va vb
                | None => false
                end && all pa'
            end) pa
  | VArray ea, VArray eb =>
      (fix all2 (ea eb : list value) : bool :=
         match ea, eb with
         | [], [] => true
         | x :: ea', y :: eb' => isEqual x y && all2 ea' eb'
         | _, _ => false
         end) ea eb
  | _, _ => false
  end.

(** Modelled from the spec: [setNestedObjectValues(tree, v)] of [./utils]
    ("setNestedAllTrue"): "walks a ValueTree and produces an
    equivalently-shaped tree where every leaf is" [v]. *)
Fixpoint setNestedObjectValues (t : value) (v : value) : value :=
  match t with
  | VObject ps =>
      VObject
        ((fix go (ps : list (string * value)) : list (string * value) :=
            match ps with
            | [] => []
            | (k, c) :: ps' => (k, setNestedObjectValues c v) :: go ps'
            end) ps)
  | VArray es =>
      VArray
        ((fix go (es : list value) : list value :=
            match es with
            | [] => []
            | c :: es' => setNestedObjectValues c v :: go es'
            end) es)
  | _ => v
  end.

(** ** Promises *)

(** What a promise settles to. *)
Inductive settled (A : Type) : Type :=
| Fulfilled (a : A)
| Rejected (e : value).
Arguments Fulfilled {A} a.
Arguments Rejected {A} e.

(** What a call of a user-supplied function does: it returns a plain value,
    throws, or returns a promise. *)
Inductive outcome : Type :=
| Returns (v : value)
| Throws (e : value)
| ReturnsPromise (p : settled value).

(** How a call ends: normally, or with an exception that reaches the
    caller. *)
Inductive completion (A : Type) : Type :=
| Completes (a : A)
| Raises (e : value).
Arguments Completes {A} a.
Arguments Raises {A} e.

(** [new Promise(resolve => resolve(call))]: an exception in the executor
    rejects the promise, a returned promise is adopted. *)
Definition promise_of_call (o : outcome) : settled value :=
  match o with
  | Returns v => Fulfilled v
  | Throws e => Rejected e
  | ReturnsPromise p => p
  end.

(** [p.then(onFulfilled, onRejected)] for handlers that return plain values. *)
Definition then2 {A B} (onFulfilled : A → B) (onRejected : value → B)
    (p : settled A) : settled B :=
  match p with
  | Fulfilled a => Fulfilled (onFulfilled a)
  | Rejected e => Fulfilled (onRejected e)
  end.

(** [Promise.all(ps)]: the list of results, or the first rejection. *)
Fixpoint Promise_all {A} (ps : list (settled A)) : settled (list A) :=
  match ps with
  | [] => Fulfilled []
  | Fulfilled a :: ps' =>
      match Promise_all ps' with
      | Fulfilled l => Fulfilled (a :: l)
      | Rejected e => Rejected e
      end
  | Rejected e :: _ => Rejected e
  end.

(** [list.reduce((prev, curr, index) => f(prev, curr, index), acc)], for a
    callback that may leave the specified behaviour ([None]). *)
Fixpoint reduce_from {A B} (f : B → A → nat → option B) (l : list A)
    (index : nat) (acc : B) : option B :=
  match l with
  | [] => Some acc
  | x :: l' => acc' ← f acc x index; reduce_from f l' (S index) acc'
  end.

Definition reduce {A B} (f : B → A → nat → option B) (l : list A) (acc : B) :
    option B :=
  reduce_from f l 0 acc.

(** The error thrown by a call through [undefined]. *)
Definition TypeError : value := VHost "TypeError".

(** ** Validation sources *)

(** An entry of [this.fields]: the functions a field registered. *)
Record FieldFns : Type := {
  validate : option (value → outcome);
}.

(** One entry of a schema validator's list of failures ([yupError.inner]). *)
Record ValidationFailure : Type := {
  path : string;
  message : value;
}.

(** What the call [schema.validate(data, options)] does: it returns a
    promise that is fulfilled with the validated data or rejected with a
    [ValidationError] and its [inner] list, or it throws. *)
Inductive schema_outcome : Type :=
| SchemaAccepts (data : value)
| SchemaRejects (inner : list ValidationFailure)
| SchemaThrows (e : value).

(** A schema, through its asynchronous [validate]. *)
Definition Schema : Type := value → schema_outcome.

(** [props.validationSchema]: a schema, or a function that returns one or
    throws. *)
Inductive SchemaProp : Type :=
| SchemaInstance (schema : Schema)
| SchemaFactory (make : unit → completion Schema).

(** [yupToFormErrors(yupError)], the loop over [yupError.inner]. *)
Fixpoint yupToFormErrors_loop (inner : list ValidationFailure) (errors : value) :
    option value :=
  match inner with
  | [] => Some errors
  | err :: rest =>
      if negb (truthy (prop errors (path err))) then
        errors' ← setIn errors (path err) (message err);
        yupToFormErrors_loop rest errors'
      else yupToFormErrors_loop rest errors
  end.

Definition yupToFormErrors (inner : list ValidationFailure) : option value :=
  yupToFormErrors_loop inner (VObject []).

(** [validateYupSchema(values, schema)], with [sync = false] and an empty
    context: own top-level properties are copied, the empty string becoming
    [undefined]. *)
Definition validateData (values : value) : value :=
  match values with
  | VObject ps =>
      VObject (map (λ kv, (kv.1, if is_string "" kv.2 then VUndefined else kv.2)) ps)
  | VArray es =>
      VObject (imap (λ i v, (pretty i, if is_string "" v then VUndefined else v)) es)
  | _ => VObject []
  end.

Definition validateYupSchema (values : value) (schema : Schema) : schema_outcome :=
  schema (validateData values).

Definition sentinel : string := "DO_NOT_DELETE_YOU_WILL_BE_FIRED".

(** [this.runSingleFieldLevelValidation(field, value)], reading the registry
    [fields]: the lookup [this.fields[field].validate!(value)] is evaluated
    in the promise executor. *)
Definition runSingleFieldLevelValidation (fields : list (string * FieldFns))
    (field : string) (v : value) : settled value :=
  match obj_get field fields with
  | None => Rejected TypeError
  | Some fns =>
      match validate fns with
      | None => Rejected TypeError
      | Some f => promise_of_call (f v)
      end
  end.

Definition hasValidate (fields : list (string * FieldFns)) (f : string) : bool :=
  match obj_get f fields with
  | Some fns => match validate fns with Some _ => true | None => false end
  | None => false
  end.

Definition fieldKeysWithValidation (fields : list (string * FieldFns)) : list string :=
  List.filter (hasValidate fields) (keys fields).

Definition fieldValidations (fields : list (string * FieldFns)) (values : value) :
    list (settled value) :=
  let fieldKeys := fieldKeysWithValidation fields in
  if Nat.ltb 0 (length fieldKeys) then
    map (λ f, then2 (λ x, x) (λ e, e)
                (runSingleFieldLevelValidation fields f (getIn values f)))
        fieldKeys
  else [Fulfilled (VString sentinel)].

(** The callback of [fieldErrorsList.reduce]. *)
Definition collectFieldError (fieldKeys : list string) (prev curr : value)
    (index : nat) : option value :=
  if is_string sentinel curr then Some prev
  else if truthy curr then
    match fieldKeys !! index with
    | Some f => setIn prev f curr
    | None => None
    end
  else Some prev.

(** [this.runFieldLevelValidations(values)]; the outer [None] is a write of
    the path accessor outside its specified behaviour. *)
Definition runFieldLevelValidations (fields : list (string * FieldFns))
    (values : value) : option (settled value) :=
  match Promise_all (fieldValidations fields values) with
  | Fulfilled fieldErrorsList =>
      errors ← reduce (collectFieldError (fieldKeysWithValidation fields))
                 fieldErrorsList (VObject []);
      Some (Fulfilled errors)
  | Rejected e => Some (Rejected e)
  end.

(** [this.runValidateHandler(values)] for [props.validate = validate]. *)
Definition runValidateHandler (validate : value → outcome) (values : value) :
    settled value :=
  match validate values with
  | Throws e => Rejected e
  | Returns VUndefined => Fulfilled (VObject [])
  | ReturnsPromise (Fulfilled _) => Fulfilled (VObject [])
  | ReturnsPromise (Rejected errors) => Fulfilled errors
  | Returns maybePromisedErrors => Fulfilled maybePromisedErrors
  end.

(** [this.runValidationSchema(values)] for [props.validationSchema].  The
    schema is obtained and its [validate] is called in the promise executor:
    an exception of either rejects the promise. *)
Definition runValidationSchema (validationSchema : SchemaProp) (values : value) :
    option (settled value) :=
  let schema :=
    match validationSchema with
    | SchemaFactory make => make ()
    | SchemaInstance schema => Completes schema
    end in
  match schema with
  | Raises e => Some (Rejected e)
  | Completes schema =>
      match validateYupSchema values schema with
      | SchemaThrows e => Some (Rejected e)
      | SchemaAccepts _ => Some (Fulfilled (VObject []))
      | SchemaRejects inner =>
          errors ← yupToFormErrors inner; Some (Fulfilled errors)
      end
  end.

(** ** The form controller *)

(** [Formik.State] *)
Record State : Type := {
  values : value;
  initialValues : value;
  errors : value;
  touched : value;
  isValidating : bool;
  isSubmitting : bool;
  status : value;
  submitCount : nat;
}.

(** The configuration ([props]) read by the operations below.
    [props_onSubmit values] is how the call [props.onSubmit(values, actions)]
    ends; the call is recorded in the trace, and what the callback does with
    the actions it is handed are actions of the execution ([Action] below)
    that follow the call. *)
Record Config : Type := {
  props_initialValues : value;
  validateOnChange : bool;
  validateOnBlur : bool;
  validateOnLoad : bool;
  enableReinitialize : bool;
  props_validate : option (value → outcome);
  validationSchema : option SchemaProp;
  props_onSubmit : value → outcome;
}.

(** The [.then] callback waiting for a validation promise. *)
Inductive Continuation : Type :=
| AfterRunValidations
| AfterSubmitForm
| AfterValidateField (field : string).

(** A promise in flight: what it will settle to, and who waits for it. *)
Record Task : Type := {
  continuation : Continuation;
  result : settled value;
}.

(** Calls that leave the controller: [props.onSubmit(values, actions)],
    whose second argument is always [this.getFormikActions()], and
    [console.error] from [warnAboutMissingIdentifier]. *)
Inductive Event : Type :=
| OnSubmit (submitted : value)
| ConsoleError (handlerName : string).

(** An instance of the component. *)
Record Formik : Type := {
  props : Config;
  state : State;
  didMount : bool;
  fields : list (string * FieldFns);
  pending : list Task;
  trace : list Event;
}.

Definition with_state (s : State) (c : Formik) : Formik :=
  {| props := props c; state := s; didMount := didMount c;
     fields := fields c; pending := pending c; trace := trace c |}.

Definition with_didMount (b : bool) (c : Formik) : Formik :=
  {| props := props c; state := state c; didMount := b;
     fields := fields c; pending := pending c; trace := trace c |}.

Definition with_fields (fs : list (string * FieldFns)) (c : Formik) : Formik :=
  {| props := props c; state := state c; didMount := didMount c;
     fields := fs; pending := pending c; trace := trace c |}.

Definition with_pending (ts : list Task) (c : Formik) : Formik :=
  {| props := props c; state := state c; didMount := didMount c;
     fields := fields c; pending := ts; trace := trace c |}.

Definition with_props (p : Config) (c : Formik) : Formik :=
  {| props := p; state := state c; didMount := didMount c;
     fields := fields c; pending := pending c; trace := trace c |}.

Definition log (e : Event) (c : Formik) : Formik :=
  {| props := props c; state := state c; didMount := didMount c;
     fields := fields c; pending := pending c; trace := trace c ++ [e] |}.

(** [this.setState(updater)].  The update is applied to the state the
    instance holds; the updates queued by one handler are applied in the
    order of the calls. *)
Definition setState (updater : State → State) (c : Formik) : Formik :=
  with_state (updater (state c)) c.

Definition set_values (v : value) (s : State) : State :=
  {| values := v; initialValues := initialValues s; errors := errors s;
     touched := touched s; isValidating := isValidating s;
     isSubmitting := isSubmitting s; status := status s;
     submitCount := submitCount s |}.

Definition set_initialValues (v : value) (s : State) : State :=
  {| values := values s; initialValues := v; errors := errors s;
     touched := touched s; isValidating := isValidating s;
     isSubmitting := isSubmitting s; status := status s;
     submitCount := submitCount s |}.

Definition set_errors (v : value) (s : State) : State :=
  {| values := values s; initialValues := initialValues s; errors := v;
     touched := touched s; isValidating := isValidating s;
     isSubmitting := isSubmitting s; status := status s;
     submitCount := submitCount s |}.

Definition set_touched (v : value) (s : State) : State :=
  {| values := values s; initialValues := initialValues s; errors := errors s;
     touched := v; isValidating := isValidating s;
     isSubmitting := isSubmitting s; status := status s;
     submitCount := submitCount s |}.

Definition set_isValidating (b : bool) (s : State) : State :=
  {| values := values s; initialValues := initialValues s; errors := errors s;
     touched := touched s; isValidating := b;
     isSubmitting := isSubmitting s; status := status s;
     submitCount := submitCount s |}.

Definition set_isSubmitting (b : bool) (s : State) : State :=
  {| values := values s; initialValues := initialValues s; errors := errors s;
     touched := touched s; isValidating := isValidating s;
     isSubmitting := b; status := status s;
     submitCount := submitCount s |}.

Definition set_status (v : value) (s : State) : State :=
  {| values := values s; initialValues := initialValues s; errors := errors s;
     touched := touched s; isValidating := isValidating s;
     isSubmitting := isSubmitting s; status := v;
     submitCount := submitCount s |}.

Definition set_submitCount (n : nat) (s : State) : State :=
  {| values := values s; initialValues := initialValues s; errors := errors s;
     touched := touched s; isValidating := isValidating s;
     isSubmitting := isSubmitting s; status := status s;
     submitCount := n |}.

(** The constructor: [this.state], [this.didMount] and [this.fields]. *)
Definition constructor (p : Config) : Formik :=
  let initial :=
    if truthy (props_initialValues p) then props_initialValues p else VObject [] in
  {| props := p;
     state := {| values := initial; initialValues := initial;
                 errors := VObject []; touched := VObject [];
                 isValidating := false; isSubmitting := false;
                 status := VUndefined; submitCount := 0 |};
     didMount := false; fields := []; pending := []; trace := [] |}.

(** [this.registerField(name, fns)] *)
Definition registerField (name : string) (fns : FieldFns) (c : Formik) : Formik :=
  with_fields (obj_set name fns (fields c)) c.

(** [this.unregisterField(name)] *)
Definition unregisterField (name : string) (c : Formik) : Formik :=
  with_fields (obj_delete name (fields c)) c.

(** The second and third promise handed to [Promise.all] in
    [runValidations]; a source that is not configured contributes [{}]. *)
Definition schemaErrorsOf (c : Formik) (values : value) : option (settled value) :=
  match validationSchema (props c) with
  | Some schema => runValidationSchema schema values
  | None => Some (Fulfilled (VObject []))
  end.

Definition handlerErrorsOf (c : Formik) (values : value) : settled value :=
  match props_validate (props c) with
  | Some validate => runValidateHandler validate values
  | None => Fulfilled (VObject [])
  end.

(** What the promise built by [runValidations] settles to: the three
    sources under [Promise.all], then [deepmerge.all] in the order field
    level, schema, form level. *)
Definition combinedErrors (c : Formik) (values : value) : option (settled value) :=
  fieldErrors ← runFieldLevelValidations (fields c) values;
  schemaErrors ← schemaErrorsOf c values;
  let handlerErrors := handlerErrorsOf c values in
  match Promise_all [fieldErrors; schemaErrors; handlerErrors] with
  | Fulfilled sources => Some (Fulfilled (deepmerge_all sources))
  | Rejected e => Some (Rejected e)
  end.

(** The synchronous part of [this.runValidations(values)], with the
    continuation [k] that waits for the promise. *)
Definition startValidations (k : Continuation) (values : value) (c : Formik) :
    option Formik :=
  let c := setState (set_isValidating true) c in
  r ← combinedErrors c values;
  Some (with_pending (pending c ++ [{| continuation := k; result := r |}]) c).

(** [this.runValidations(values)] *)
Definition runValidations (values : value) (c : Formik) : option Formik :=
  startValidations AfterRunValidations values c.

(** [componentDidMount()] *)
Definition componentDidMount (c : Formik) : option Formik :=
  let c := with_didMount true c in
  if validateOnLoad (props c) then runValidations (values (state c)) c
  else Some c.

(** [componentWillUnmount()] *)
Definition componentWillUnmount (c : Formik) : Formik :=
  with_didMount false c.

(** [this.setErrors(errors)] *)
Definition setErrors (errors : value) (c : Formik) : Formik :=
  setState (set_errors errors) c.

(** [this.setStatus(status)] *)
Definition setStatus (status : value) (c : Formik) : Formik :=
  setState (set_status status) c.

(** [this.setSubmitting(isSubmitting)] *)
Definition setSubmitting (isSubmitting : bool) (c : Formik) : Formik :=
  setState (set_isSubmitting isSubmitting) c.

(** [this.setTouched(touched)] *)
Definition setTouched (touched : value) (c : Formik) : option Formik :=
  let c := setState (set_touched touched) c in
  if validateOnBlur (props c) then runValidations (values (state c)) c
  else Some c.

(** [this.setValues(values)] *)
Definition setValues (values : value) (c : Formik) : option Formik :=
  let c := setState (set_values values) c in
  if validateOnChange (props c) then runValidations values c else Some c.

(** [this.validateField(field)]: the synchronous part. *)
Definition validateField (field : string) (c : Formik) : Formik :=
  let c := setState (set_isValidating true) c in
  let r := runSingleFieldLevelValidation (fields c) field
             (getIn (values (state c)) field) in
  with_pending
    (pending c ++ [{| continuation := AfterValidateField field; result := r |}]) c.

(** [this.setFieldValue(field, value, shouldValidate)] *)
Definition setFieldValue (field : string) (v : value) (shouldValidate : bool)
    (c : Formik) : option Formik :=
  values' ← setIn (values (state c)) field v;
  let c := setState (set_values values') c in
  if validateOnChange (props c) && shouldValidate
  then runValidations (values (state c)) c else Some c.

(** [this.setFieldTouched(field, touched, shouldValidate)] *)
Definition setFieldTouched (field : string) (isTouched : bool)
    (shouldValidate : bool) (c : Formik) : option Formik :=
  touched' ← setIn (touched (state c)) field (VBool isTouched);
  let c := setState (set_touched touched') c in
  if validateOnBlur (props c) && shouldValidate
  then runValidations (values (state c)) c else Some c.

(** [this.setFieldError(field, message)] *)
Definition setFieldError (field : string) (message : value) (c : Formik) :
    option Formik :=
  errors' ← setIn (errors (state c)) field message;
  Some (setState (set_errors errors') c).

(** [resetFormState(values)]: the partial state handed to [setState]. *)
Definition resetFormState (v : value) (s : State) : State :=
  {| isSubmitting := false;
     isValidating := false;
     errors := VObject [];
     touched := VObject [];
     status := VUndefined;
     values := v;
     submitCount := 0;
     initialValues := initialValues s |}.

(** [this.resetForm(nextValues)]; an omitted argument is [undefined]. *)
Definition resetForm (nextValues : value) (c : Formik) : Formik :=
  setState
    (resetFormState
       (if truthy nextValues then nextValues else initialValues (state c)))
    c.

(** [getDerivedStateFromProps(nextProps, prevState)]; [None] is the
    [null] that leaves the state as it is. *)
Definition getDerivedStateFromProps (nextProps : Config) (prevState : State) :
    option State :=
  if enableReinitialize nextProps
     && negb (isEqual (initialValues prevState) (props_initialValues nextProps))
  then Some (resetFormState (props_initialValues nextProps)
               (set_initialValues (props_initialValues nextProps) prevState))
  else None.

(** A render under the props [nextProps]: before it renders, React calls
    [getDerivedStateFromProps(nextProps, this.state)] and merges the answer
    into the state.  The renders of an execution, under new props or under
    the props at hand, are actions of their own ([Render] below). *)
Definition receiveProps (nextProps : Config) (c : Formik) : Formik :=
  let c := with_props nextProps c in
  match getDerivedStateFromProps nextProps (state c) with
  | Some s => with_state s c
  | None => c
  end.

(** [this.setFormikState(updater)], which is [this.setState(updater)]; an
    updater that leaves the specified behaviour of the path accessor has no
    result. *)
Definition setFormikState (updater : State → option State) (c : Formik) :
    option Formik :=
  s ← updater (state c); Some (with_state s c).

(** [getFormikComputedProps().dirty] *)
Definition dirty (c : Formik) : bool :=
  negb (isEqual (initialValues (state c)) (values (state c))).

(** What a promise derived by [.then] settles to when its callback ends
    by a call of a user function whose result is dropped. *)
Definition callbackResult (o : outcome) : settled value :=
  match o with
  | Throws e => Rejected e
  | Returns _ | ReturnsPromise _ => Fulfilled VUndefined
  end.

(** [this.executeSubmit()]: the call of [props.onSubmit] with the current
    values and [this.getFormikActions()], and how the call ends. *)
Definition executeSubmit (c : Formik) : Formik * outcome :=
  (log (OnSubmit (values (state c))) c,
   props_onSubmit (props c) (values (state c))).

(** [this.submitForm()]: the synchronous part. *)
Definition submitForm (c : Formik) : option Formik :=
  let c :=
    setState (λ prevState,
      set_submitCount (submitCount prevState + 1)
        (set_isSubmitting true
           (set_touched (setNestedObjectValues (values prevState) (VBool true))
              prevState))) c in
  startValidations AfterSubmitForm (values (state c)) c.

(** The callback of [runValidations]: the guarded write of the merged
    errors. *)
Definition afterValidations (combined : value) (c : Formik) : Formik :=
  if didMount c
  then setState (λ s, set_errors combined (set_isValidating false s)) c
  else c.

(** The callback of [submitForm]: submit, or give up submitting.  The second
    component is what the promise returned by [submitForm] settles to. *)
Definition afterSubmitValidations (combined : value) (c : Formik) :
    Formik * settled value :=
  match Object_keys combined with
  | None => (c, Rejected TypeError)
  | Some ks =>
      if Nat.eqb (length ks) 0
      then let (c', o) := executeSubmit c in (c', callbackResult o)
      else (setState (set_isSubmitting false) c, Fulfilled VUndefined)
  end.

(** The callback of [validateField]. *)
Definition afterValidateField (field : string) (error : value) (c : Formik) :
    option Formik :=
  if didMount c then
    errors' ← setIn (errors (state c)) field error;
    Some (setState (λ s, set_isValidating false (set_errors errors' s)) c)
  else Some c.

(** Run the continuation of a task whose promise has settled.  The second
    component is what the promise derived by [.then] settles to; a
    rejection passes through a [.then] without a rejection handler. *)
Definition runTask (t : Task) (c : Formik) : option (Formik * settled value) :=
  match result t with
  | Rejected e => Some (c, Rejected e)
  | Fulfilled v =>
      match continuation t with
      | AfterRunValidations => Some (afterValidations v c, Fulfilled v)
      | AfterSubmitForm => Some (afterSubmitValidations v (afterValidations v c))
      | AfterValidateField field =>
          c' ← afterValidateField field v c; Some (c', Fulfilled VUndefined)
      end
  end.

(** Settle the [i]-th promise in flight. *)
Definition settle (i : nat) (c : Formik) : option (Formik * settled value) :=
  t ← pending c !! i;
  runTask t (with_pending (delete i (pending c)) c).

(** ** Change events *)

(** [event.target] of a change event. *)
Record Target : Type := {
  type : option string;
  name : string;
  id : string;
  value_ : value;
  checked : value;
  outerHTML : string;
}.

Fixpoint contains (needle hay : string) : bool :=
  String.prefix needle hay
  || match hay with
     | EmptyString => false
     | String _ hay' => contains needle hay'
     end.

(** [String(type)] as a regular expression's [test] sees it. *)
Definition type_string (type : option string) : string :=
  match type with
  | Some s => s
  | None => "undefined"
  end.

(** [/number|range/.test(type)] *)
Definition test_number_range (type : option string) : bool :=
  contains "number" (type_string type) || contains "range" (type_string type).

(** [/checkbox/.test(type)] *)
Definition test_checkbox (type : option string) : bool :=
  contains "checkbox" (type_string type).

Section handlers.
(** [parseFloat] of the host, and whether [process.env.NODE_ENV] is
    ['production']. *)
Variable parseFloat : value → float.
Variable production : bool.

(** The value that [executeChange] takes from an event. *)
Definition coerce (target : Target) : value :=
  if test_number_range (type target) then
    let parsed := parseFloat (value_ target) in
    if isNaN parsed then VString "" else VNumber parsed
  else if test_checkbox (type target) then checked target
  else value_ target.

(** [maybePath ? maybePath : name ? name : id]; the empty string stands for
    a missing identifier. *)
Definition fieldOf (maybePath : option string) (target : Target) : string :=
  match maybePath with
  | Some p => if negb (String.eqb p "") then p
              else if negb (String.eqb (name target) "") then name target
              else id target
  | None => if negb (String.eqb (name target) "") then name target
            else id target
  end.

(** [warnAboutMissingIdentifier], outside production. *)
Definition warnIfMissing (field : string) (handlerName : string) (c : Formik) :
    Formik :=
  if String.eqb field "" && negb production
  then log (ConsoleError handlerName) c else c.

(** [executeChange(eventOrTextValue, maybePath)] inside [handleChange].
    [this.state] read in the handler is the state the handler started with. *)
Definition executeChange (eventOrTextValue : string + Target)
    (maybePath : option string) (c : Formik) : option Formik :=
  let field :=
    match eventOrTextValue with
    | inl _ => default "" maybePath
    | inr target => fieldOf maybePath target
    end in
  let val :=
    match eventOrTextValue with
    | inl text => VString text
    | inr target => coerce target
    end in
  let c1 :=
    match eventOrTextValue with
    | inl _ => c
    | inr _ => warnIfMissing field "handleChange" c
    end in
  if negb (String.eqb field "") then
    values' ← setIn (values (state c)) field val;
    let c2 := setState (set_values values') c1 in
    if validateOnChange (props c) then
      validated ← setIn (values (state c)) field val;
      runValidations validated c2
    else Some c2
  else Some c1.

(** [this.handleChange(eventOrPath)]: with a path, the handler for that
    path (the cache [hcCache] only preserves its identity); with an event,
    the change itself. *)
Definition handleChange (eventOrPath : string + Target) (c : Formik) :
    (string + Target → Formik → option Formik) + option Formik :=
  match eventOrPath with
  | inl path => inl (λ event, executeChange event (Some path))
  | inr target => inr (executeChange (inr target) None c)
  end.

(** [executeBlur(e, path)] inside [handleBlur]. *)
Definition executeBlur (target : Target) (maybePath : option string)
    (c : Formik) : option Formik :=
  let field := fieldOf maybePath target in
  let c1 := warnIfMissing field "handleBlur" c in
  touched' ← setIn (touched (state c)) field (VBool true);
  let c2 := setState (set_touched touched') c1 in
  if validateOnBlur (props c) then runValidations (values (state c)) c2
  else Some c2.

(** ** Executions *)

(** What can happen to a mounted or unmounted instance, one at a time: the
    life cycle, a render under new or old props, the registrations of
    fields, the two event handlers, every action of [getFormikActions()],
    and the settlement of a promise in flight. *)
Inductive Action : Type :=
| Mount
| Unmount
| Render (nextProps : Config)
| RegisterField (name : string) (fns : FieldFns)
| UnregisterField (name : string)
| Change (target : Target)
| Blur (target : Target)
| SetFieldValue (field : string) (v : value) (shouldValidate : bool)
| SetFieldTouched (field : string) (isTouched : bool) (shouldValidate : bool)
| SetFieldError (field : string) (message : value)
| SetErrors (errors : value)
| SetTouched (touched : value)
| SetValues (values : value)
| SetStatus (status : value)
| SetSubmitting (isSubmitting : bool)
| SetFormikState (updater : State → option State)
| ValidateForm (values : value)
| ValidateField (field : string)
| SubmitForm
| ResetForm (nextValues : value)
| Settle (i : nat).

Definition step (a : Action) (c : Formik) : option Formik :=
  match a with
  | Mount => componentDidMount c
  | Unmount => Some (componentWillUnmount c)
  | Render nextProps => Some (receiveProps nextProps c)
  | RegisterField name fns => Some (registerField name fns c)
  | UnregisterField name => Some (unregisterField name c)
  | Change target => executeChange (inr target) None c
  | Blur target => executeBlur target None c
  | SetFieldValue field v shouldValidate => setFieldValue field v shouldValidate c
  | SetFieldTouched field isTouched shouldValidate =>
      setFieldTouched field isTouched shouldValidate c
  | SetFieldError field message => setFieldError field message c
  | SetErrors errors => Some (setErrors errors c)
  | SetTouched touched => setTouched touched c
  | SetValues values => setValues values c
  | SetStatus status => Some (setStatus status c)
  | SetSubmitting isSubmitting => Some (setSubmitting isSubmitting c)
  | SetFormikState updater => setFormikState updater c
  | ValidateForm values => runValidations values c
  | ValidateField field => Some (validateField field c)
  | SubmitForm => submitForm c
  | ResetForm nextValues => Some (resetForm nextValues c)
  | Settle i => fst <$> settle i c
  end.

Fixpoint run (actions : list Action) (c : Formik) : option Formik :=
  match actions with
  | [] => Some c
  | a :: actions' => c' ← step a c; run actions' c'
  end.

End handlers.

(** ** Notions used in the statements *)

(** A leaf of a tree: anything but a mapping or a sequence. *)
Definition is_leaf (v : value) : bool :=
  match v with
  | VObject _ | VArray _ => false
  | _ => true
  end.

(** [resolves t p]: every token of [p] finds a child, so that [p] names a
    node that is present in [t]. *)
Fixpoint resolves (t : value) (p : list seg) : bool :=
  match p with
  | [] => true
  | s :: p' =>
      match child t s with
      | Some c => resolves c p'
      | None => false
      end
  end.

(** [absent_in t p]: [t] has containers of the right kind along [p] up to a
    point where the next token finds no child: [t] says nothing about [p]
    and has no leaf above it. *)
Fixpoint absent_in (t : value) (p : list seg) : bool :=
  match p with
  | [] => false
  | s :: p' =>
      match s, t with
      | Key k, VObject ps =>
          match obj_get k ps with
          | Some c => absent_in c p'
          | None => true
          end
      | Idx i, VArray es =>
          match es !! i with
          | Some c => absent_in c p'
          | None => true
          end
      | _, _ => false
      end
  end.

(** The position-wise merge of two sequences, as [deepmerge] does it. *)
Fixpoint zip_merge (et es : list value) : list value :=
  match et, es with
  | [], _ => es
  | _, [] => et
  | x :: et', y :: es' => deepmerge x y :: zip_merge et' es'
  end.

(** The value a promise hands to [.then(x => x, e => e)]. *)
Definition settledValue (p : settled value) : value :=
  match p with
  | Fulfilled x => x
  | Rejected e => e
  end.

(** The validated field paths, each with what its validator settled to. *)
Definition fieldResults (fields : list (string * FieldFns)) (values : value) :
    list (string * value) :=
  map (λ f, (f, settledValue
                  (runSingleFieldLevelValidation fields f (getIn values f))))
      (fieldKeysWithValidation fields).

(** A settled result that [collectFieldError] writes into the error tree. *)
Definition contributes (v : value) : bool :=
  truthy v && negb (is_string sentinel v).

(** Write a list of entries into a tree, in order. *)
Fixpoint writeAll (entries : list (string * value)) (t : value) : option value :=
  match entries with
  | [] => Some t
  | (f, v) :: rest => t' ← setIn t f v; writeAll rest t'
  end.

Fixpoint pairwise_independent (ps : list (list seg)) : bool :=
  match ps with
  | [] => true
  | p :: ps' => forallb (independent p) ps' && pairwise_independent ps'
  end.

(** A path that starts with a mapping key, as a path into a form does. *)
Definition key_rooted (p : list seg) : bool :=
  match p with
  | Key _ :: _ => true
  | _ => false
  end.

(** The first message that a failure list has for [k]. *)
Fixpoint first_message (k : string) (inner : list ValidationFailure) : option value :=
  match inner with
  | [] => None
  | err :: rest =>
      if String.eqb (path err) k then Some (message err) else first_message k rest
  end.

(** A value as JavaScript builds it: no object has a key twice. *)
Fixpoint well_formed (v : value) : Prop :=
  match v with
  | VObject ps =>
      NoDup ps.*1
      ∧ (fix all (ps : list (string * value)) : Prop :=
           match ps with
           | [] => True
           | (_, c) :: ps' => well_formed c ∧ all ps'
           end) ps
  | VArray es =>
      (fix all (es : list value) : Prop :=
         match es with
         | [] => True
         | c :: es' => well_formed c ∧ all es'
         end) es
  | _ => True
  end.

(** ** Computed properties *)

(** [props.isInitialValid]: a flag, or a function of the props. *)
Inductive InitialValid : Type :=
| InitialValidFlag (b : bool)
| InitialValidFunction (f : Config → value).

(** [getFormikComputedProps().isValid] for [props.isInitialValid =
    isInitialValid]: [errors && Object.keys(errors).length === 0] once the
    form is dirty, the configured initial validity before. *)
Definition isValid (isInitialValid : InitialValid) (c : Formik) : option value :=
  if dirty c then
    if truthy (errors (state c)) then
      ks ← Object_keys (errors (state c));
      Some (VBool (Nat.eqb (length ks) 0))
    else Some (errors (state c))
  else
    match isInitialValid with
    | InitialValidFlag b => Some (VBool b)
    | InitialValidFunction f => Some (f (props c))
    end.

(** ** Reset handler *)

(** [this.handleReset()] for [props.onReset = onReset]: the controller
    after the call and, when [onReset] returned a promise, the promise that
    [this.resetForm] waits for. *)
Definition handleReset (onReset : option (value → outcome)) (c : Formik) :
    completion (Formik * option (settled value)) :=
  match onReset with
  | Some onReset =>
      match onReset (values (state c)) with
      | Throws e => Raises e
      | ReturnsPromise maybePromisedOnReset =>
          Completes (c, Some maybePromisedOnReset)
      | Returns _ => Completes (resetForm VUndefined c, None)
      end
  | None => Completes (resetForm VUndefined c, None)
  end.

(** [maybePromisedOnReset.then(this.resetForm)], once the promise has
    settled: [resetForm] receives the value of the promise. *)
Definition afterOnReset (p : settled value) (c : Formik) : Formik :=
  match p with
  | Fulfilled v => resetForm v c
  | Rejected _ => c
  end.

(** ** Field ([src/src/Field.tsx]) *)

(** The constructor of [FieldInner]: the field registers itself. *)
Definition Field_constructor (name : string) (validator : option (value → outcome))
    (c : Formik) : Formik :=
  registerField name {| validate := validator |} c.

(** [componentDidUpdate(prevProps)] of [FieldInner]; [validateChanged] is
    [this.props.validate !== prevProps.validate]. *)
Definition Field_componentDidUpdate (prevName name : string)
    (validateChanged : bool) (validator : option (value → outcome))
    (c : Formik) : Formik :=
  let c1 :=
    if negb (String.eqb name prevName)
    then registerField name {| validate := validator |}
           (unregisterField prevName c)
    else c in
  if validateChanged
  then registerField name {| validate := validator |} c1
  else c1.

(** [componentWillUnmount()] of [FieldInner]. *)
Definition Field_componentWillUnmount (name : string) (c : Formik) : Formik :=
  unregisterField name c.

(** [this.runFieldValidations(value)] of [FieldInner]: a plain result is
    written with [setFieldError] at once, a promise is waited for. *)
Definition runFieldValidations (name : string) (validator : value → outcome)
    (v : value) (c : Formik) :
    option (completion (Formik * option (settled value))) :=
  match validator v with
  | Throws e => Some (Raises e)
  | ReturnsPromise maybePromise => Some (Completes (c, Some maybePromise))
  | Returns maybePromise =>
      c' ← setFieldError name maybePromise c; Some (Completes (c', None))
  end.

(** The two callbacks of [maybePromise.then] in [runFieldValidations]. *)
Definition afterFieldValidations (name : string) (p : settled value)
    (c : Formik) : option Formik :=
  match p with
  | Fulfilled _ => setFieldError name VUndefined c
  | Rejected error => setFieldError name error c
  end.

Section field_binding.
Variable parseFloat : value → float.
Variable production : bool.

(** [handleChange(e)] of [FieldInner]: Formik's [handleChange], then the
    field's own validator on [e.target.value]. *)
Definition Field_handleChange (name : string)
    (validator : option (value → outcome)) (target : Target) (c : Formik) :
    option (completion (Formik * option (settled value))) :=
  c1 ← executeChange parseFloat production (inr target) None c;
  match validator with
  | Some validator =>
      if validateOnChange (props c)
      then runFieldValidations name validator (value_ target) c1
      else Some (Completes (c1, None))
  | None => Some (Completes (c1, None))
  end.

(** [handleBlur(e)] of [FieldInner]. *)
Definition Field_handleBlur (name : string)
    (validator : option (value → outcome)) (target : Target) (c : Formik) :
    option (completion (Formik * option (settled value))) :=
  c1 ← executeBlur production target None c;
  match validator with
  | Some validator =>
      if validateOnBlur (props c)
      then runFieldValidations name validator (value_ target) c1
      else Some (Completes (c1, None))
  | None => Some (Completes (c1, None))
  end.

End field_binding.

(** ** FastField ([src/unnamed/part_002]) *)

(** [FastField.State]: the local mirror of one field. *)
Record FastFieldState : Type := {
  fast_value : value;
  fast_error : value;
}.

(** The constructor of [FastFieldInner]: the local state is read from the
    form, and the field registers itself. *)
Definition FastField_constructor (name : string)
    (validator : option (value → outcome)) (c : Formik) :
    FastFieldState * Formik :=
  ({| fast_value := getIn (values (state c)) name;
      fast_error := getIn (errors (state c)) name |},
   registerField name {| validate := validator |} c).

(** The updater that [handleBlur] of [FastFieldInner] hands to
    [setFormikState]: value, error and touched flag of the field are written
    into the form's state. *)
Definition liftFastField (name : string) (v error : value) (prevState : State) :
    option State :=
  values' ← setIn (values prevState) name v;
  errors' ← setIn (errors prevState) name error;
  touched' ← setIn (touched prevState) name (VBool true);
  Some (set_touched touched' (set_errors errors' (set_values values' prevState))).

(** [handleBlur()] of [FastFieldInner], with the local state [local]. *)
Definition FastField_handleBlur (name : string)
    (validator : option (value → outcome)) (local : FastFieldState)
    (c : Formik) : option (completion (Formik * option (settled value))) :=
  match validator with
  | Some validator =>
      if validateOnBlur (props c) then
        match validator (fast_value local) with
        | Throws e => Some (Raises e)
        | ReturnsPromise maybePromise => Some (Completes (c, Some maybePromise))
        | Returns maybePromise =>
            c' ← setFormikState
                   (liftFastField name (fast_value local) maybePromise) c;
            Some (Completes (c', None))
        end
      else
        c' ← setFormikState
               (liftFastField name (fast_value local) (fast_error local)) c;
        Some (Completes (c', None))
  | None =>
      c' ← setFormikState
             (liftFastField name (fast_value local) (fast_error local)) c;
      Some (Completes (c', None))
  end.

(** The two callbacks of [maybePromise.then] in [handleBlur] of
    [FastFieldInner]; [local] is the local state when the promise settles. *)
Definition FastField_afterBlurValidation (name : string) (local : FastFieldState)
    (p : settled value) (c : Formik) : option Formik :=
  match p with
  | Fulfilled _ =>
      setFormikState (liftFastField name (fast_value local) VUndefined) c
  | Rejected error =>
      setFormikState (liftFastField name (fast_value local) error) c
  end.

(** ** Further notions used in the statements *)

(** The first truthy message that a failure list has for [k]. *)
Fixpoint first_truthy_message (k : string) (inner : list ValidationFailure) :
    option value :=
  match inner with
  | [] => None
  | err :: rest =>
      if String.eqb (path err) k && truthy (message err)
      then Some (message err) else first_truthy_message k rest
  end.

(** The last message that a failure list has for [k]. *)
Fixpoint last_message (k : string) (inner : list ValidationFailure) :
    option value :=
  match inner with
  | [] => None
  | err :: rest =>
      match last_message k rest with
      | Some m => Some m
      | None => if String.eqb (path err) k then Some (message err) else None
      end
  end.

Definition is_OnSubmit (e : Event) : bool :=
  match e with
  | OnSubmit _ => true
  | ConsoleError _ => false
  end.

(** The number of calls of [props.onSubmit] so far. *)
Definition submitCalls (c : Formik) : nat :=
  length (List.filter is_OnSubmit (trace c)).

Definition awaitsSubmit (t : Task) : bool :=
  match continuation t with
  | AfterSubmitForm => true
  | _ => false
  end.

(** The number of [submitForm] calls whose validation is in flight. *)
Definition submitsInFlight (c : Formik) : nat :=
  length (List.filter awaitsSubmit (pending c)).

Definition is_SubmitForm (a : Action) : bool :=
  match a with
  | SubmitForm => true
  | _ => false
  end.

(** A registry entry with a validator. *)
Definition entryHasValidate (entry : string * FieldFns) : bool :=
  match validate entry.2 with
  | Some _ => true
  | None => false
  end.

(** [advances n c c']: from [c] to [c'] the registry stays as it is, the
    trace grows by events other than calls of [onSubmit], and the promises
    in flight grow by tasks of which [n] wait for a submission. *)
Definition advances (n : nat) (c c' : Formik) : Prop :=
  fields c' = fields c
  ∧ ∃ log new,
      trace c' = trace c ++ log
      ∧ List.filter is_OnSubmit log = []
      ∧ pending c' = pending c ++ new
      ∧ length (List.filter awaitsSubmit new) = n.

(** What the last [RegisterField] or [UnregisterField] of [name] among
    [actions] left in the registry, if [actions] has one. *)
Fixpoint lastRegistration (name : string) (actions : list Action) :
    option (option FieldFns) :=
  match actions with
  | [] => None
  | a :: rest =>
      match lastRegistration name rest with
      | Some r => Some r
      | None =>
          match a with
          | RegisterField n fns =>
              if String.eqb n name then Some (Some fns) else None
          | UnregisterField n =>
              if String.eqb n name then Some None else None
          | _ => None
          end
      end
  end.

(** A configuration without its form-level [validate]. *)
Definition without_validate (p : Config) : Config :=
  {| props_initialValues := props_initialValues p;
     validateOnChange := validateOnChange p;
     validateOnBlur := validateOnBlur p;
     validateOnLoad := validateOnLoad p;
     enableReinitialize := enableReinitialize p;
     props_validate := None;
     validationSchema := validationSchema p;
     props_onSubmit := props_onSubmit p |}.

(** The message that a failure list leaves for [k]: the first truthy one,
    or else the last one. *)
Definition keptMessage (k : string) (inner : list ValidationFailure) :
    option value :=
  match first_truthy_message k inner with
  | Some m => Some m
  | None => last_message k inner
  end.

(** The actions that leave [initialValues] and [submitCount] to the
    operations of the controller itself: anything but a caller's own state
    update through [setFormikState], a reset, and a render under props that
    enable reinitialisation. *)
Definition keepsBaseline (a : Action) : bool :=
  match a with
  | SetFormikState _ | ResetForm _ => false
  | Render nextProps => negb (enableReinitialize nextProps)
  | _ => true
  end.

(** * Properties *)

(** ** Association lists *)

Section assoc_facts.
Context {A : Type}.
Implicit Types (o : list (string * A)) (k : string) (v : A).

Lemma obj_get_set_eq k v o : obj_get k (obj_set k v o) = Some v.
Proof.
  induction o as [|[k' v'] o IH]; simpl.
  - by rewrite String.eqb_refl.
  - destruct (String.eqb k k') eqn:E; simpl; rewrite ?String.eqb_refl, ?E; done.
Qed.

Lemma obj_get_set_ne k k' v o : k ≠ k' → obj_get k' (obj_set k v o) = obj_get k' o.
Proof.
  intros Hne. induction o as [|[k0 v0] o IH]; simpl.
  - destruct (String.eqb k' k) eqn:E; [|done].
    apply String.eqb_eq in E. congruence.
  - destruct (String.eqb k k0) eqn:E; simpl.
    + apply String.eqb_eq in E. subst k0.
      destruct (String.eqb k' k) eqn:E'; [|done].
      apply String.eqb_eq in E'. congruence.
    + by rewrite IH.
Qed.

Lemma obj_get_delete_eq k o : obj_get k (obj_delete k o) = None.
Proof.
  induction o as [|[k' v'] o IH]; simpl; [done|].
  destruct (String.eqb k k') eqn:E; simpl; rewrite ?E; done.
Qed.

Lemma obj_get_delete_ne k k' o : k ≠ k' → obj_get k' (obj_delete k o) = obj_get k' o.
Proof.
  intros Hne. induction o as [|[k0 v0] o IH]; simpl; [done|].
  destruct (String.eqb k k0) eqn:E; simpl.
  - apply String.eqb_eq in E. subst k0.
    destruct (String.eqb k' k) eqn:E'; [|done].
    apply String.eqb_eq in E'. congruence.
  - by rewrite IH.
Qed.
End assoc_facts.

(** ** Path grammar *)

Example toPath_dots_brackets :
  toPath "a.b[0].c" = [Key "a"; Key "b"; Idx 0; Key "c"]
  ∧ toPath "a[b][0].c" = toPath "a.b[0].c"
  ∧ toPath "user[superPowers].1" = [Key "user"; Key "superPowers"; Idx 1].
Proof. repeat split; reflexivity. Qed.

Example getIn_superPowers :
  getIn (VObject [("user", VObject [("superPowers",
           VArray [VString "Surging"; VString "Binding"])])])
        "user.superPowers[1]" = VString "Binding".
Proof. reflexivity. Qed.

(** ** Path accessor: reading back what was written *)

Lemma seg_eqb_eq s s' : seg_eqb s s' = true ↔ s = s'.
Proof.
  destruct s as [a|i], s' as [b|j]; simpl; split; try done.
  - intros ->%String.eqb_eq. done.
  - intros [= ->]. apply String.eqb_refl.
  - intros ->%Nat.eqb_eq. done.
  - intros [= ->]. apply Nat.eqb_refl.
Qed.

Lemma arr_set_lookup_eq i v es : arr_set i v es !! i = Some v.
Proof.
  revert es. induction i as [|i IH]; intros [|e es]; simpl; auto.
Qed.

Lemma arr_set_lookup_ne i j v es :
  i ≠ j →
  default VUndefined (arr_set i v es !! j) = default VUndefined (es !! j).
Proof.
  revert j es. induction i as [|i IH]; intros [|j] [|e es] Hne; simpl; try done.
  - rewrite IH by lia. by destruct j.
  - apply IH. lia.
Qed.

Lemma get_path_undefined p : get_path VUndefined p = VUndefined.
Proof. destruct p as [|[k|i] p]; done. Qed.

Lemma get_path_cons t s p :
  get_path t (s :: p) = get_path (default VUndefined (child t s)) p.
Proof.
  simpl. destruct (child t s); simpl; [done|].
  by rewrite get_path_undefined.
Qed.

Lemma set_path_cons t s s' p v :
  set_path t (s :: s' :: p) v
  = c' ← set_path (default VUndefined (child t s)) (s' :: p) v; put_child t s c'.
Proof. done. Qed.

Lemma put_child_child t s c t' :
  put_child t s c = Some t' → child t' s = Some c.
Proof.
  destruct s as [k|i], t; simpl; intros [= <-]; simpl.
  - by rewrite String.eqb_refl.
  - apply obj_get_set_eq.
  - apply (arr_set_lookup_eq i c []).
  - apply arr_set_lookup_eq.
Qed.

Lemma put_child_other t s c t' s' :
  put_child t s c = Some t' →
  seg_eqb s s' = false →
  default VUndefined (child t' s') = default VUndefined (child t s').
Proof.
  intros Hput Hne.
  assert (s ≠ s') as Hneq.
  { intros ->. by rewrite (proj2 (seg_eqb_eq s' s') eq_refl) in Hne. }
  destruct s as [k|i], s' as [k'|j], t; simpl in *;
    try discriminate; injection Hput as <-; simpl; try done.
  - destruct (String.eqb k' k) eqn:E; [|done].
    apply String.eqb_eq in E. congruence.
  - rewrite obj_get_set_ne; [done|congruence].
  - rewrite (arr_set_lookup_ne i j c []) by congruence. by destruct j.
  - apply arr_set_lookup_ne. congruence.
Qed.

Lemma put_child_is_Some t s c c' :
  is_Some (put_child t s c) → is_Some (put_child t s c').
Proof. destruct s, t; simpl; intros [? ?]; try done; eauto. Qed.

(** A tree in which [put_child] succeeded keeps accepting writes through
    tokens of the same kind. *)
Lemma put_child_again t s c t' s' c' :
  put_child t s c = Some t' → same_kind s s' = true →
  is_Some (put_child t' s' c').
Proof.
  destruct s, s', t; simpl; intros [= <-] Hk; try done; simpl; eauto.
Qed.

Lemma set_path_get_path p : ∀ t v t',
  set_path t p v = Some t' → get_path t' p = v.
Proof.
  induction p as [|s p IH]; intros t v t' Hset; [done|].
  destruct p as [|s' p].
  - simpl in Hset. apply put_child_child in Hset. simpl. by rewrite Hset.
  - rewrite set_path_cons in Hset.
    destruct (set_path (default VUndefined (child t s)) (s' :: p) v) as [c'|] eqn:Hc;
      [|done].
    simpl in Hset. rewrite get_path_cons.
    rewrite (put_child_child _ _ _ _ Hset). simpl. by eapply IH.
Qed.

Lemma set_path_frame p : ∀ q t v t',
  set_path t p v = Some t' → independent p q = true →
  get_path t' q = get_path t q.
Proof.
  induction p as [|s p IH]; intros q t v t' Hset Hind; [done|].
  destruct q as [|s' q]; [done|]. simpl in Hind.
  rewrite !(get_path_cons _ s').
  destruct (seg_eqb s s') eqn:Hs.
  - apply seg_eqb_eq in Hs. subst s'.
    destruct p as [|s2 p]; [done|].
    rewrite set_path_cons in Hset.
    destruct (set_path (default VUndefined (child t s)) (s2 :: p) v) as [c'|] eqn:Hc;
      [|done].
    simpl in Hset. rewrite (put_child_child _ _ _ _ Hset). simpl.
    by eapply IH.
  - assert (∃ c, put_child t s c = Some t') as [c Hput].
    { destruct p as [|s2 p]; [by eexists|].
      rewrite set_path_cons in Hset.
      destruct (set_path (default VUndefined (child t s)) (s2 :: p) v) as [c'|];
        [|done]. by eexists. }
    by rewrite (put_child_other _ _ _ _ _ Hput Hs).
Qed.

Lemma set_path_is_Some p : ∀ t v w,
  is_Some (set_path t p v) → is_Some (set_path t p w).
Proof.
  induction p as [|s p IH]; intros t v w Hv; [done|].
  destruct p as [|s' p].
  - simpl in *. by eapply put_child_is_Some.
  - rewrite set_path_cons in *.
    destruct (set_path (default VUndefined (child t s)) (s' :: p) v) as [c|] eqn:Hc;
      [|by destruct Hv].
    destruct (IH (default VUndefined (child t s)) v w) as [c' Hc']; [by rewrite Hc|].
    rewrite Hc'. simpl in *. by eapply put_child_is_Some.
Qed.

(** Writing along one path does not take away the possibility of writing
    along an independent one. *)
Lemma set_path_keeps_settable p : ∀ q t v t' w,
  set_path t p v = Some t' → independent p q = true →
  is_Some (set_path t q w) → is_Some (set_path t' q w).
Proof.
  induction p as [|s p IH]; intros q t v t' w Hset Hind Hq; [done|].
  destruct q as [|s' q]; [done|]. simpl in Hind.
  assert (∃ c, put_child t s c = Some t') as [c Hput].
  { destruct p as [|s2 p]; [by eexists|].
    rewrite set_path_cons in Hset.
    destruct (set_path (default VUndefined (child t s)) (s2 :: p) v) as [c'|];
      [|done]. by eexists. }
  destruct (seg_eqb s s') eqn:Hs.
  - apply seg_eqb_eq in Hs. subst s'.
    destruct p as [|s2 p]; [done|]. destruct q as [|s3 q]; [by destruct p|].
    rewrite set_path_cons in Hset, Hq |- *.
    destruct (set_path (default VUndefined (child t s)) (s2 :: p) v) as [c'|] eqn:Hc;
      [|done].
    simpl in Hset. rewrite (put_child_child _ _ _ _ Hset).
    change (default VUndefined (Some c')) with c'.
    destruct (set_path (default VUndefined (child t s)) (s3 :: q) w) as [d|] eqn:Hd;
      [|by destruct Hq].
    destruct (IH (s3 :: q) _ _ _ w Hc Hind) as [d' Hd']; [by rewrite Hd|].
    rewrite Hd'. simpl. eapply put_child_again; [exact Hset|].
    by destruct s.
  - destruct q as [|s3 q].
    + simpl. by eapply put_child_again.
    + rewrite set_path_cons in Hq |- *.
      rewrite (put_child_other _ _ _ _ _ Hput Hs).
      destruct (set_path (default VUndefined (child t s')) (s3 :: q) w) as [d|];
        [|by destruct Hq].
      simpl. by eapply put_child_again.
Qed.

(** Any path that starts with a key can be written into the empty object,
    and into an absent tree. *)
Lemma set_path_fresh p : ∀ v,
  p ≠ [] → is_Some (set_path VUndefined p v).
Proof.
  induction p as [|s p IH]; intros v Hp; [done|].
  destruct p as [|s' p].
  - destruct s; simpl; eauto.
  - rewrite set_path_cons.
    replace (default VUndefined (child VUndefined s)) with VUndefined
      by (by destruct s).
    destruct (IH v) as [c Hc]; [done|]. rewrite Hc. destruct s; simpl; eauto.
Qed.

Lemma set_path_empty_object k p v :
  is_Some (set_path (VObject []) (Key k :: p) v).
Proof.
  destruct p as [|s' p]; [simpl; eauto|].
  rewrite set_path_cons.
  change (default VUndefined (child (VObject []) (Key k))) with VUndefined.
  destruct (set_path_fresh (s' :: p) v) as [c Hc]; [done|].
  rewrite Hc. simpl. eauto.
Qed.

Lemma set_path_valid p : ∀ t v,
  is_Some (set_path t p v) ↔ valid_path t p = true.
Proof.
  induction p as [|s p IH]; intros t v.
  - simpl. split; [by intros [? ?]|done].
  - destruct p as [|s' p].
    + simpl. destruct s, t; simpl; split; try done; try (by intros [? ?]); eauto.
    + rewrite set_path_cons.
      assert (valid_path t (s :: s' :: p)
              = match s, t with
                | Key _, VObject _ | Idx _, VArray _ | _, VUndefined =>
                    valid_path (default VUndefined (child t s)) (s' :: p)
                | _, _ => false
                end) as -> by (by destruct s, t).
      specialize (IH (default VUndefined (child t s)) v).
      remember (valid_path (default VUndefined (child t s)) (s' :: p)) as inner
        eqn:Hinner.
      clear Hinner.
      destruct (set_path (default VUndefined (child t s)) (s' :: p) v) as [c'|];
        simpl.
      * assert (inner = true) as -> by (apply IH; eauto).
        destruct s, t; simpl; split; try done; try (by intros [? ?]); eauto.
      * assert (inner = false) as ->.
        { destruct inner; [|done]. by destruct (proj2 IH eq_refl). }
        split; [by intros [? ?]|]. by destruct s, t.
Qed.

Lemma setIn_tokens t path v :
  toPath path ≠ [] → setIn t path v = set_path t (toPath path) v.
Proof. unfold setIn. by destruct (toPath path). Qed.

Lemma setIn_valid t path v :
  valid_path t (toPath path) = true →
  setIn t path v = set_path t (toPath path) v.
Proof. intros H. apply setIn_tokens. intros E. by rewrite E in H. Qed.

(** C6 (Path Accessor round-trip).  For every tree, every valid path [P]
    (one that has a token and meets no node of the wrong kind in the tree)
    and every value [V], [setIn tree P V] is a tree in which reading [P]
    gives [V].  The result is a new tree: the input is a value that nothing
    changes, and the copy agrees with it at every path independent of [P]. *)
Theorem getIn_setIn_roundtrip (tree : value) (P : string) (V : value) :
  valid_path tree (toPath P) = true →
  ∃ tree', setIn tree P V = Some tree'
           ∧ getIn tree' P = V
           ∧ ∀ Q, independent (toPath P) (toPath Q) = true →
                  getIn tree' Q = getIn tree Q.
Proof.
  intros Hvalid. rewrite (setIn_valid _ _ _ Hvalid). unfold getIn.
  destruct (proj2 (set_path_valid (toPath P) tree V) Hvalid) as [tree' Hset].
  exists tree'. split; [exact Hset|]. split.
  - by eapply set_path_get_path.
  - intros Q HQ. by eapply set_path_frame.
Qed.

Lemma getIn_setIn_roundtrip_witness :
  let tree := VObject [("user", VObject [("name", VString "jared")])] in
  ∃ tree', setIn tree "user.powers[1]" (VString "fly") = Some tree'
           ∧ getIn tree' "user.powers[1]" = VString "fly"
           ∧ getIn tree' "user[name]" = VString "jared".
Proof.
  intros tree.
  destruct (getIn_setIn_roundtrip tree "user.powers[1]" (VString "fly") eq_refl)
    as (tree' & Hset & Hget & Hframe).
  exists tree'. split; [exact Hset|]. split; [exact Hget|].
  rewrite (Hframe "user[name]" eq_refl). reflexivity.
Defined.

Example setIn_creates_containers :
  setIn (VObject [("user", VObject [("name", VString "jared")])])
        "user.powers[1]" (VString "fly")
  = Some (VObject [("user", VObject [("name", VString "jared");
                                     ("powers", VArray [VUndefined; VString "fly"])])]).
Proof. reflexivity. Qed.

(** ** Deep merge *)

Lemma obj_get_app {A} k (o1 o2 : list (string * A)) :
  obj_get k (o1 ++ o2)
  = match obj_get k o1 with Some v => Some v | None => obj_get k o2 end.
Proof.
  induction o1 as [|[k' v'] o1 IH]; simpl; [done|].
  by destruct (String.eqb k k').
Qed.

Lemma obj_get_filter_fresh {A B} k (pt : list (string * A)) (ps : list (string * B)) :
  obj_get k (List.filter (λ kv, negb (has_key kv.1 pt)) ps)
  = if has_key k pt then None else obj_get k ps.
Proof.
  induction ps as [|[k' v'] ps IH]; simpl.
  - by destruct (has_key k pt).
  - destruct (has_key k' pt) eqn:Hk'; simpl.
    + rewrite IH. destruct (String.eqb k k') eqn:E; [|done].
      apply String.eqb_eq in E. subst k'. by rewrite Hk'.
    + destruct (String.eqb k k') eqn:E.
      * apply String.eqb_eq in E. subst k'. by rewrite Hk'.
      * by rewrite IH.
Qed.

Lemma deepmerge_objects pt ps :
  deepmerge (VObject pt) (VObject ps)
  = VObject
      (map (λ kv, (kv.1, match obj_get kv.1 ps with
                         | Some vs => deepmerge kv.2 vs
                         | None => kv.2
                         end)) pt
       ++ List.filter (λ kv, negb (has_key kv.1 pt)) ps).
Proof.
  simpl. do 2 f_equal.
  induction pt as [|[k vt] pt IH]; simpl; [done|]. by rewrite IH.
Qed.

Lemma deepmerge_arrays et es :
  deepmerge (VArray et) (VArray es) = VArray (zip_merge et es).
Proof.
  reflexivity.
Qed.

Lemma deepmerge_leaf a b : is_leaf b = true → deepmerge a b = b.
Proof. by destruct a, b. Qed.

Lemma deepmerge_kinds a b :
  (∃ pt ps, a = VObject pt ∧ b = VObject ps)
  ∨ (∃ et es, a = VArray et ∧ b = VArray es)
  ∨ deepmerge a b = b.
Proof. destruct a, b; simpl; eauto 6. Qed.

Lemma deepmerge_empty_object b : deepmerge (VObject []) b = b.
Proof.
  destruct b; try done. rewrite deepmerge_objects. simpl. f_equal.
  induction props0 as [|kv ps IH]; simpl; [done|]. by rewrite IH.
Qed.

Lemma child_deepmerge_objects pt ps k :
  child (deepmerge (VObject pt) (VObject ps)) (Key k)
  = match obj_get k pt with
    | Some vt => Some (match obj_get k ps with
                       | Some vs => deepmerge vt vs
                       | None => vt
                       end)
    | None => obj_get k ps
    end.
Proof.
  rewrite deepmerge_objects. simpl. rewrite obj_get_app, obj_get_filter_fresh.
  unfold has_key.
  assert (obj_get k
            (map (λ kv, (kv.1, match obj_get kv.1 ps with
                              | Some vs => deepmerge kv.2 vs
                              | None => kv.2
                              end)) pt)
          = (λ vt, match obj_get k ps with
                   | Some vs => deepmerge vt vs
                   | None => vt
                   end) <$> obj_get k pt) as ->.
  { induction pt as [|[k' vt] pt IH]; simpl; [done|].
    destruct (String.eqb k k') eqn:E; [|done].
    apply String.eqb_eq in E. by subst k'. }
  by destruct (obj_get k pt).
Qed.

Lemma child_deepmerge_arrays et es i :
  child (deepmerge (VArray et) (VArray es)) (Idx i)
  = match et !! i with
    | Some x => Some (match es !! i with
                      | Some y => deepmerge x y
                      | None => x
                      end)
    | None => es !! i
    end.
Proof.
  rewrite deepmerge_arrays. simpl. revert es i.
  induction et as [|x et IH]; intros [|y es] [|i]; simpl; try done.
  by destruct (et !! i).
Qed.

Lemma get_path_step t s p :
  get_path t (s :: p)
  = match child t s with Some c => get_path c p | None => VUndefined end.
Proof. done. Qed.

Lemma resolves_step t s p :
  resolves t (s :: p)
  = match child t s with Some c => resolves c p | None => false end.
Proof. done. Qed.

(** A leaf of the later tree wins. *)
Lemma deepmerge_later_leaf p : ∀ a b,
  resolves b p = true → is_leaf (get_path b p) = true →
  get_path (deepmerge a b) p = get_path b p
  ∧ resolves (deepmerge a b) p = true.
Proof.
  induction p as [|s p IH]; intros a b Hres Hleaf.
  - simpl in *. by rewrite deepmerge_leaf.
  - rewrite resolves_step in Hres. rewrite get_path_step in Hleaf.
    destruct (child b s) as [cb|] eqn:Hcb; [|done].
    rewrite !get_path_step, resolves_step, Hcb.
    destruct (deepmerge_kinds a b) as [(pt & ps & -> & ->)|[(et & es & -> & ->)|Heq]].
    + destruct s as [k|i]; [|done]. simpl in Hcb.
      rewrite child_deepmerge_objects, Hcb.
      destruct (obj_get k pt); [by apply IH|]. by destruct (IH cb cb).
    + destruct s as [k|i]; [done|]. simpl in Hcb.
      rewrite child_deepmerge_arrays, Hcb.
      destruct (et !! i); [by apply IH|]. by destruct (IH cb cb).
    + rewrite Heq, Hcb. by destruct (IH cb cb).
Qed.

(** What the later tree does not mention survives from the earlier one. *)
Lemma deepmerge_earlier_survives p : ∀ a b,
  resolves a p = true → absent_in b p = true →
  get_path (deepmerge a b) p = get_path a p
  ∧ resolves (deepmerge a b) p = true.
Proof.
  induction p as [|s p IH]; intros a b Hres Habs; [done|].
  rewrite resolves_step in Hres.
  destruct (child a s) as [ca|] eqn:Hca; [|done].
  rewrite !get_path_step, resolves_step, Hca.
  destruct s as [k|i], a as [| | | | |pt|et|]; try done; simpl in Hca;
    destruct b as [| | | | |ps|es|]; try done; simpl in Habs.
  - rewrite child_deepmerge_objects, Hca.
    destruct (obj_get k ps) as [cb|]; [by apply IH|]. done.
  - rewrite child_deepmerge_arrays, Hca.
    destruct (es !! i) as [cb|]; [by apply IH|]. done.
Qed.

(** ** The validation pipeline *)

Lemma deepmerge_all_three f s h :
  deepmerge_all [f; s; h] = deepmerge (deepmerge f s) h.
Proof. unfold deepmerge_all. cbn [fold_left]. by rewrite deepmerge_empty_object. Qed.

(** C2 (validation merge precedence).  Whatever the three sources settle
    to, [runValidations] merges them with [deepmerge.all] in the order
    field level, schema, form level.  In the merged tree a leaf of the form
    level wins at its path; a leaf of the schema wins where the form level
    says nothing; a node of the field level survives where neither later
    source says anything.  In particular [{x: "f"}], [{x: "s", y: "s"}] and
    [{x: "m"}] merge to [{x: "m", y: "s"}]. *)
Theorem runValidations_merge_precedence :
  (∀ (c : Formik) (values fieldErrors schemaErrors handlerErrors : value),
     runFieldLevelValidations (fields c) values = Some (Fulfilled fieldErrors) →
     schemaErrorsOf c values = Some (Fulfilled schemaErrors) →
     handlerErrorsOf c values = Fulfilled handlerErrors →
     let merged := deepmerge (deepmerge fieldErrors schemaErrors) handlerErrors in
     combinedErrors c values = Some (Fulfilled merged)
     ∧ runValidations values c
       = Some (with_pending
                 (pending c ++ [{| continuation := AfterRunValidations;
                                   result := Fulfilled merged |}])
                 (setState (set_isValidating true) c))
     ∧ (∀ p, resolves handlerErrors p = true →
             is_leaf (get_path handlerErrors p) = true →
             get_path merged p = get_path handlerErrors p)
     ∧ (∀ p, resolves schemaErrors p = true →
             is_leaf (get_path schemaErrors p) = true →
             absent_in handlerErrors p = true →
             get_path merged p = get_path schemaErrors p)
     ∧ (∀ p, resolves fieldErrors p = true →
             absent_in schemaErrors p = true →
             absent_in handlerErrors p = true →
             get_path merged p = get_path fieldErrors p))
  ∧ deepmerge_all
      [VObject [("x", VString "f")];
       VObject [("x", VString "s"); ("y", VString "s")];
       VObject [("x", VString "m")]]
    = VObject [("x", VString "m"); ("y", VString "s")].
Proof.
  split; [|reflexivity].
  intros c values f s h Hf Hs Hh merged.
  assert (combinedErrors c values = Some (Fulfilled merged)) as Hc.
  { unfold combinedErrors. rewrite Hf, Hs, Hh. simpl.
    by rewrite deepmerge_all_three. }
  split; [exact Hc|]. split.
  { unfold runValidations, startValidations.
    change (combinedErrors (setState (set_isValidating true) c) values)
      with (combinedErrors c values).
    by rewrite Hc. }
  subst merged. split; [|split].
  - intros p Hres Hleaf. by apply deepmerge_later_leaf.
  - intros p Hres Hleaf Habs.
    destruct (deepmerge_later_leaf p f s Hres Hleaf) as [Hget Hres'].
    destruct (deepmerge_earlier_survives p (deepmerge f s) h Hres' Habs) as [-> _].
    exact Hget.
  - intros p Hres Habs Habh.
    destruct (deepmerge_earlier_survives p f s Hres Habs) as [Hget Hres'].
    destruct (deepmerge_earlier_survives p (deepmerge f s) h Hres' Habh) as [-> _].
    exact Hget.
Qed.

Lemma runValidations_merge_precedence_witness :
  let c :=
    registerField "x" {| validate := Some (λ _, Returns (VString "f")) |}
      (constructor
         {| props_initialValues := VObject [("x", VString "")];
            validateOnChange := true; validateOnBlur := true;
            validateOnLoad := false; enableReinitialize := false;
            props_validate := Some (λ _, Returns (VObject [("x", VString "m")]));
            validationSchema :=
              Some (SchemaInstance (λ _,
                SchemaRejects [{| path := "x"; message := VString "s" |};
                               {| path := "y"; message := VString "s" |}]));
            props_onSubmit := λ _, Returns VUndefined |}) in
  combinedErrors c (values (state c))
  = Some (Fulfilled (VObject [("x", VString "m"); ("y", VString "s")])).
Proof.
  intros c.
  destruct runValidations_merge_precedence as [Hgen _].
  destruct (Hgen c (values (state c))
              (VObject [("x", VString "f")])
              (VObject [("x", VString "s"); ("y", VString "s")])
              (VObject [("x", VString "m")])
              eq_refl eq_refl eq_refl) as [Hc _].
  exact Hc.
Defined.

(** ** The field-level batch *)

Lemma Promise_all_caught {A} (g : A → settled value) (l : list A) :
  Promise_all (map (λ f, then2 (λ x, x) (λ e, e) (g f)) l)
  = Fulfilled (map (λ f, settledValue (g f)) l).
Proof.
  induction l as [|a l IH]; simpl; [done|].
  rewrite IH. by destruct (g a).
Qed.

Lemma fieldResults_keys fields values :
  (fieldResults fields values).*1 = fieldKeysWithValidation fields.
Proof.
  unfold fieldResults.
  induction (fieldKeysWithValidation fields) as [|k ks IH]; [done|].
  cbn. f_equal. exact IH.
Qed.

(** Every promise of the batch is fulfilled, so [Promise.all] is: with the
    settled value of each validator, in the order of the validated keys, or
    with the placeholder when there is no validator. *)
Lemma Promise_all_fieldValidations fields values :
  Promise_all (fieldValidations fields values)
  = Fulfilled
      (match fieldKeysWithValidation fields with
       | [] => [VString sentinel]
       | _ :: _ => (fieldResults fields values).*2
       end).
Proof.
  unfold fieldValidations, fieldResults.
  destruct (fieldKeysWithValidation fields) as [|k ks] eqn:Hk; [done|].
  cbn [length Nat.ltb Nat.leb]. rewrite Promise_all_caught. f_equal.
  generalize (k :: ks). intros l.
  induction l as [|a l IH]; [done|]. cbn. f_equal. exact IH.
Qed.

Lemma collectFieldError_at (pre : list string) f rest acc v :
  collectFieldError (pre ++ f :: rest) acc v (length pre)
  = if contributes v then setIn acc f v else Some acc.
Proof.
  unfold collectFieldError, contributes.
  rewrite lookup_app_r, Nat.sub_diag by done. simpl.
  destruct (is_string sentinel v), (truthy v); done.
Qed.

Lemma reduce_from_collect (entries : list (string * value)) : ∀ pre acc,
  reduce_from (collectFieldError (pre ++ entries.*1)) entries.*2 (length pre) acc
  = writeAll (List.filter (λ kv, contributes kv.2) entries) acc.
Proof.
  induction entries as [|[f v] entries IH]; intros pre acc; [done|].
  cbn [fmap list_fmap fst snd reduce_from List.filter].
  assert (∀ acc', reduce_from (collectFieldError (pre ++ f :: entries.*1))
                    entries.*2 (S (length pre)) acc'
                  = writeAll (List.filter (λ kv, contributes kv.2) entries) acc')
    as Hrest.
  { intros acc'. specialize (IH (pre ++ [f]) acc').
    rewrite <- app_assoc, length_app in IH. simpl in IH.
    by rewrite Nat.add_1_r in IH. }
  rewrite collectFieldError_at.
  destruct (contributes v); simpl; [|apply Hrest].
  destruct (setIn acc f v); simpl; [apply Hrest|done].
Qed.

(** The batch writes exactly the contributing results, in the order of the
    validated keys, into an empty object. *)
Lemma runFieldLevelValidations_entries fields values :
  runFieldLevelValidations fields values
  = Fulfilled <$> writeAll (List.filter (λ kv, contributes kv.2)
                              (fieldResults fields values)) (VObject []).
Proof.
  unfold runFieldLevelValidations. rewrite Promise_all_fieldValidations.
  unfold reduce.
  destruct (fieldKeysWithValidation fields) as [|k ks] eqn:Hk.
  - unfold fieldResults. rewrite Hk. done.
  - rewrite <- Hk, <- (fieldResults_keys fields values).
    pose proof (reduce_from_collect (fieldResults fields values) [] (VObject []))
      as Hred.
    simpl in Hred. rewrite Hred. by destruct (writeAll _ _).
Qed.

Lemma seg_eqb_sym s s' : seg_eqb s s' = seg_eqb s' s.
Proof.
  destruct s, s'; simpl; try done.
  - apply String.eqb_sym.
  - apply Nat.eqb_sym.
Qed.

Lemma independent_sym p : ∀ q, independent p q = independent q p.
Proof.
  induction p as [|s p IH]; intros [|s' q]; simpl; try done.
  rewrite (seg_eqb_sym s' s). destruct (seg_eqb s s'); [apply IH|].
  by destruct s, s'.
Qed.

Lemma independent_irrefl p : independent p p = false.
Proof.
  induction p as [|s p IH]; simpl; [done|].
  by rewrite (proj2 (seg_eqb_eq s s) eq_refl).
Qed.

Lemma pairwise_independent_filter {A} (h : A → list seg) (P : A → bool) l :
  pairwise_independent (map h l) = true →
  pairwise_independent (map h (List.filter P l)) = true.
Proof.
  induction l as [|a l IH]; simpl; [done|].
  intros [Ha Hl]%andb_prop. destruct (P a); simpl; [|by apply IH].
  rewrite IH by done. rewrite andb_true_r.
  rewrite forallb_forall in Ha |- *. intros q Hq. apply Ha.
  rewrite in_map_iff in Hq |- *. destruct Hq as (x & <- & Hx).
  exists x. split; [done|]. apply filter_In in Hx. tauto.
Qed.

Lemma pairwise_independent_elems {A} (h : A → list seg) l x y :
  pairwise_independent (map h l) = true → In x l → In y l →
  x = y ∨ independent (h x) (h y) = true.
Proof.
  induction l as [|a l IH]; simpl; [done|].
  intros [Ha Hl]%andb_prop Hx Hy. rewrite forallb_forall in Ha.
  destruct Hx as [->|Hx], Hy as [->|Hy]; auto.
  - right. apply Ha. by apply in_map.
  - right. rewrite independent_sym. apply Ha. by apply in_map.
Qed.

Lemma get_path_empty_object p : p ≠ [] → get_path (VObject []) p = VUndefined.
Proof. destruct p as [|[k|i] p]; done. Qed.

(** Writing entries along pairwise independent paths: all writes are
    specified, every entry can be read back, and what is independent of all
    of them reads as before. *)
Lemma writeAll_independent (entries : list (string * value)) : ∀ t,
  pairwise_independent (map (λ kv, toPath kv.1) entries) = true →
  (∀ kv, In kv entries → toPath kv.1 ≠ []) →
  (∀ kv, In kv entries → is_Some (setIn t kv.1 kv.2)) →
  ∃ t', writeAll entries t = Some t'
        ∧ (∀ kv, In kv entries → getIn t' kv.1 = kv.2)
        ∧ (∀ q, (∀ kv, In kv entries → independent (toPath kv.1) q = true) →
                get_path t' q = get_path t q).
Proof.
  induction entries as [|[f v] entries IH]; intros t Hind Htok Hset.
  - exists t. by repeat split.
  - simpl in Hind. apply andb_prop in Hind as [Hf Hind].
    rewrite forallb_forall in Hf.
    pose proof (Htok (f, v) ltac:(by left)) as Hftok. cbn [fst] in Hftok.
    destruct (Hset (f, v)) as [t1 Ht1]; [by left|]. cbn [fst snd] in Ht1.
    pose proof Ht1 as Hw1. rewrite setIn_tokens in Ht1 by done.
    destruct (IH t1 Hind) as (t' & Hw & Hget & Hframe).
    { intros kv Hkv. apply Htok. by right. }
    { intros [g w] Hg. cbn [fst snd].
      pose proof (Htok (g, w) ltac:(by right)) as Hgtok. cbn [fst] in Hgtok.
      destruct (Hset (g, w)) as [t2 Ht2]; [by right|]. cbn [fst snd] in Ht2.
      rewrite setIn_tokens in Ht2 |- * by done.
      eapply (set_path_keeps_settable (toPath f)); [exact Ht1| |by rewrite Ht2].
      apply Hf. apply (in_map (λ kv, toPath kv.1) _ _ Hg). }
    exists t'. split; [by cbn [writeAll]; rewrite Hw1|]. split.
    + intros kv [<-|Hkv]; [|by apply Hget]. simpl. unfold getIn.
      rewrite Hframe.
      * by eapply set_path_get_path.
      * intros [g w] Hg. simpl. rewrite independent_sym. apply Hf.
        apply (in_map (λ kv, toPath kv.1) _ _ Hg).
    + intros q Hq. rewrite Hframe by (intros kv Hkv; apply Hq; by right).
      eapply set_path_frame; [exact Ht1|]. apply (Hq (f, v)). by left.
Qed.

(** Under the hypotheses on the validated paths, the batch is fulfilled
    with a tree that holds each contributing result at its path and nothing
    at the path of a result that does not contribute. *)
Lemma runFieldLevelValidations_lookup fields values :
  pairwise_independent (map toPath (fieldKeysWithValidation fields)) = true →
  forallb key_rooted (map toPath (fieldKeysWithValidation fields)) = true →
  ∃ t, runFieldLevelValidations fields values = Some (Fulfilled t)
       ∧ ∀ f v, In (f, v) (fieldResults fields values) →
                getIn t f = if contributes v then v else VUndefined.
Proof.
  intros Hind Hroot. rewrite runFieldLevelValidations_entries.
  set (entries := fieldResults fields values).
  assert (map (λ kv : string * value, toPath kv.1) entries
          = map toPath (fieldKeysWithValidation fields)) as Hpaths.
  { rewrite <- (fieldResults_keys fields values). fold entries.
    generalize entries. intros l.
    induction l as [|a l IH]; [done|]. cbn. f_equal. exact IH. }
  rewrite <- Hpaths in Hind, Hroot.
  assert (∀ kv, In kv entries → key_rooted (toPath kv.1) = true) as Hkey.
  { intros kv Hkv. rewrite forallb_forall in Hroot. apply Hroot.
    by apply (in_map (λ kv, toPath kv.1)). }
  destruct (writeAll_independent
              (List.filter (λ kv, contributes kv.2) entries) (VObject []))
    as (t & Hw & Hget & Hframe).
  { by apply pairwise_independent_filter. }
  { intros kv [Hkv _]%filter_In. specialize (Hkey kv Hkv).
    by destruct (toPath kv.1). }
  { intros kv [Hkv _]%filter_In. unfold setIn.
    specialize (Hkey kv Hkv). destruct (toPath kv.1) as [|[k|i] p]; try done.
    apply set_path_empty_object. }
  exists t. split; [by rewrite Hw|].
  intros f v Hfv. destruct (contributes v) eqn:Hc.
  - apply (Hget (f, v)). apply filter_In. by split.
  - unfold getIn. rewrite Hframe.
    + apply get_path_empty_object. specialize (Hkey (f, v) Hfv).
      simpl in Hkey. by destruct (toPath f).
    + intros kv [Hkv Hckv]%filter_In.
      destruct (pairwise_independent_elems (λ kv, toPath kv.1) entries kv (f, v))
        as [->|Hi]; try done.
      simpl in Hckv. congruence.
Qed.

Lemma obj_get_In {A} k (o : list (string * A)) v :
  obj_get k o = Some v → In (k, v) o.
Proof.
  induction o as [|[k' v'] o IH]; simpl; [done|].
  destruct (String.eqb k k') eqn:E.
  - apply String.eqb_eq in E. intros [= ->]. left. by subst.
  - intros H. right. by apply IH.
Qed.

Lemma fieldKeysWithValidation_In fields field fns f :
  obj_get field fields = Some fns → validate fns = Some f →
  In field (fieldKeysWithValidation fields).
Proof.
  intros Hget Hval. unfold fieldKeysWithValidation. apply filter_In. split.
  - apply obj_get_In in Hget. unfold keys.
    apply (in_map fst) in Hget. simpl in Hget.
    by apply list_elem_of_In, list_elem_of_In.
  - unfold hasValidate. by rewrite Hget, Hval.
Qed.

Lemma fieldResults_In fields values field fns f :
  obj_get field fields = Some fns → validate fns = Some f →
  In (field, settledValue (promise_of_call (f (getIn values field))))
     (fieldResults fields values).
Proof.
  intros Hget Hval. unfold fieldResults.
  pose proof (fieldKeysWithValidation_In _ _ _ _ Hget Hval) as Hin.
  apply (in_map (λ f, (f, settledValue
           (runSingleFieldLevelValidation fields f (getIn values f))))) in Hin.
  unfold runSingleFieldLevelValidation in Hin at 1. by rewrite Hget, Hval in Hin.
Qed.

Lemma no_validators_no_keys fields :
  (∀ name fns, In (name, fns) fields → validate fns = None) →
  fieldKeysWithValidation fields = [].
Proof.
  intros Hnone. unfold fieldKeysWithValidation.
  assert (∀ l, List.filter (hasValidate fields) l = []) as ->; [|done].
  induction l as [|k l IH]; simpl; [done|].
  unfold hasValidate at 1. destruct (obj_get k fields) as [fns|] eqn:Hget; [|done].
  by rewrite (Hnone k fns (obj_get_In _ _ _ Hget)).
Qed.

(** C4, the claim as written fails on two inputs.  A validator that throws
    the empty string leaves no entry for its field, so the entry is not the
    rejection value; and of two validated fields of which one lies under the
    other, the later write replaces the earlier entry. *)
Lemma field_rejection_value_not_always_entry :
  (let fields := [("email", {| validate := Some (λ _, Throws (VString "")) |})] in
   let values := VObject [("email", VString "jared")] in
   runFieldLevelValidations fields values = Some (Fulfilled (VObject []))
   ∧ getIn (VObject []) "email" ≠ VString "")
  ∧ (let fields :=
       [("user.name", {| validate := Some (λ _, Throws (VString "too short")) |});
        ("user", {| validate := Some (λ _, Throws (VString "unknown")) |})] in
     let values := VObject [] in
     runFieldLevelValidations fields values
     = Some (Fulfilled (VObject [("user", VString "unknown")]))
     ∧ getIn (VObject [("user", VString "unknown")]) "user.name"
       ≠ VString "too short").
Proof. split; (split; [reflexivity|discriminate]). Qed.

Lemma combinedErrors_fulfilled c values t s h :
  runFieldLevelValidations (fields c) values = Some (Fulfilled t) →
  schemaErrorsOf c values = Some (Fulfilled s) →
  handlerErrorsOf c values = Fulfilled h →
  combinedErrors c values = Some (Fulfilled (deepmerge_all [t; s; h])).
Proof. intros Ht Hs Hh. unfold combinedErrors. by rewrite Ht, Hs, Hh. Qed.

(** C4, as amended.  For every registry and every value tree: each promise
    of the batch is fulfilled, so [Promise.all] gets one result per
    validated field (the value the validator resolved, threw or rejected
    with) and no validator aborts the batch; without any validator the
    batch is fulfilled with the empty tree.  When the validated paths start
    with a mapping key and are pairwise independent (any two first differ
    at a position where both have a mapping key or both have a sequence
    index), every write of the reduction is specified and the batch is
    fulfilled with a tree in which a validator that throws or rejects with a
    truthy value other than the reserved placeholder has that value as its
    field's entry; the pipeline is then fulfilled as soon as the schema and
    the form-level validation are fulfilled with error trees, whatever the
    field validators threw or rejected with. *)
Theorem field_batch_isolated (registry : list (string * FieldFns)) (values : value) :
  Promise_all (fieldValidations registry values)
  = Fulfilled (match fieldKeysWithValidation registry with
               | [] => [VString sentinel]
               | _ :: _ => (fieldResults registry values).*2
               end)
  ∧ length (fieldResults registry values)
    = length (fieldKeysWithValidation registry)
  ∧ ((∀ name fns, In (name, fns) registry → validate fns = None) →
     runFieldLevelValidations registry values = Some (Fulfilled (VObject [])))
  ∧ (pairwise_independent (map toPath (fieldKeysWithValidation registry)) = true →
     forallb key_rooted (map toPath (fieldKeysWithValidation registry)) = true →
     ∃ t, runFieldLevelValidations registry values = Some (Fulfilled t)
          ∧ (∀ field fns f e,
               obj_get field registry = Some fns → validate fns = Some f →
               f (getIn values field) = Throws e
               ∨ f (getIn values field) = ReturnsPromise (Rejected e) →
               truthy e = true → is_string sentinel e = false →
               getIn t field = e)
          ∧ (∀ c schemaErrors handlerErrors,
               fields c = registry →
               schemaErrorsOf c values = Some (Fulfilled (VObject schemaErrors)) →
               handlerErrorsOf c values = Fulfilled (VObject handlerErrors) →
               combinedErrors c values
               = Some (Fulfilled (deepmerge_all [t; VObject schemaErrors;
                                                 VObject handlerErrors])))).
Proof.
  split; [apply Promise_all_fieldValidations|].
  split; [unfold fieldResults; by rewrite length_map|].
  split.
  { intros Hnone. rewrite runFieldLevelValidations_entries.
    unfold fieldResults. by rewrite (no_validators_no_keys registry Hnone). }
  intros Hind Hroot.
  destruct (runFieldLevelValidations_lookup registry values Hind Hroot)
    as (t & Ht & Hlook).
  exists t. split; [exact Ht|]. split.
  - intros field fns f e Hget Hval Hcall Htruthy Hsent.
    pose proof (fieldResults_In registry values field fns f Hget Hval) as Hin.
    assert (settledValue (promise_of_call (f (getIn values field))) = e) as He
      by (by destruct Hcall as [-> | ->]).
    rewrite He in Hin. rewrite (Hlook field e Hin).
    unfold contributes. by rewrite Htruthy, Hsent.
  - intros c schemaErrors handlerErrors Hc Hs Hh.
    apply combinedErrors_fulfilled; [|done..]. by rewrite Hc.
Qed.

Lemma field_batch_isolated_witness :
  let registry :=
    [("email", {| validate := Some (λ _, Throws (VString "required")) |});
     ("user.name", {| validate := Some (λ _,
        ReturnsPromise (Rejected (VString "too short"))) |});
     ("age", {| validate := Some (λ _, Returns VUndefined) |});
     ("note", {| validate := None |})] in
  let values := VObject [("email", VString "")] in
  ∃ t, runFieldLevelValidations registry values = Some (Fulfilled t)
       ∧ getIn t "email" = VString "required"
       ∧ getIn t "user.name" = VString "too short".
Proof.
  intros registry values.
  destruct (field_batch_isolated registry values) as (_ & _ & _ & Hentries).
  destruct (Hentries eq_refl eq_refl) as (t & Ht & Hentry & _).
  exists t. split; [exact Ht|]. split.
  - apply (Hentry "email" _ (λ _, Throws (VString "required")) _ eq_refl eq_refl);
      [by left|reflexivity|reflexivity].
  - apply (Hentry "user.name" _
             (λ _, ReturnsPromise (Rejected (VString "too short"))) _
             eq_refl eq_refl); [by right|reflexivity|reflexivity].
Defined.

(** C9 (the reserved placeholder and falsy results).  The callback of the
    reduction changes the accumulated tree only for a result that is truthy
    and is not the placeholder string; for any other result it returns the
    tree as it is.  So the batch writes the contributing results only, and,
    the validated paths being independent paths into a mapping, a field
    whose validator settles (resolves, throws or rejects) with the
    placeholder or a falsy value has no entry in the resulting tree. *)
Theorem field_error_entry_requires_truthy_non_sentinel :
  (∀ fieldKeys prev curr index t,
     collectFieldError fieldKeys prev curr index = Some t → t ≠ prev →
     truthy curr = true ∧ is_string sentinel curr = false)
  ∧ (∀ fieldKeys prev curr index,
       truthy curr = false ∨ is_string sentinel curr = true →
       collectFieldError fieldKeys prev curr index = Some prev)
  ∧ (∀ fields values,
       runFieldLevelValidations fields values
       = Fulfilled <$> writeAll (List.filter (λ kv, contributes kv.2)
                                   (fieldResults fields values)) (VObject []))
  ∧ (∀ fields values,
       pairwise_independent (map toPath (fieldKeysWithValidation fields)) = true →
       forallb key_rooted (map toPath (fieldKeysWithValidation fields)) = true →
       ∃ t, runFieldLevelValidations fields values = Some (Fulfilled t)
            ∧ ∀ field fns f r,
                obj_get field fields = Some fns → validate fns = Some f →
                settledValue (promise_of_call (f (getIn values field))) = r →
                truthy r = false ∨ is_string sentinel r = true →
                getIn t field = VUndefined).
Proof.
  split.
  { intros fieldKeys prev curr index t. unfold collectFieldError.
    destruct (is_string sentinel curr); [by intros [= ->]|].
    destruct (truthy curr); [done|]. by intros [= ->]. }
  split.
  { intros fieldKeys prev curr index [H|H]; unfold collectFieldError; rewrite H.
    - by destruct (is_string sentinel curr).
    - done. }
  split; [apply runFieldLevelValidations_entries|].
  intros fields values Hind Hroot.
  destruct (runFieldLevelValidations_lookup fields values Hind Hroot)
    as (t & Ht & Hlook).
  exists t. split; [exact Ht|].
  intros field fns f r Hget Hval Hr Hno.
  pose proof (fieldResults_In fields values field fns f Hget Hval) as Hin.
  rewrite Hr in Hin. rewrite (Hlook field r Hin).
  unfold contributes. destruct Hno as [-> | ->]; [done|].
  by rewrite andb_false_r.
Qed.

Lemma field_error_entry_requires_truthy_non_sentinel_witness :
  let fields :=
    [("email", {| validate := Some (λ _, Returns (VString "required")) |});
     ("token", {| validate := Some (λ _,
        ReturnsPromise (Rejected (VString "DO_NOT_DELETE_YOU_WILL_BE_FIRED"))) |});
     ("age", {| validate := Some (λ _, Throws (VNumber 0%float)) |})] in
  let values := VObject [] in
  collectFieldError ["email"] (VObject []) (VString "") 0 = Some (VObject [])
  ∧ ∃ t, runFieldLevelValidations fields values = Some (Fulfilled t)
         ∧ getIn t "token" = VUndefined
         ∧ getIn t "age" = VUndefined.
Proof.
  intros fields values.
  destruct field_error_entry_requires_truthy_non_sentinel
    as (_ & Hskip & _ & Hbatch).
  split; [apply Hskip; by left|].
  destruct (Hbatch fields values eq_refl eq_refl) as (t & Ht & Hnone).
  exists t. split; [exact Ht|]. split.
  - apply (Hnone "token" _ (λ _, ReturnsPromise (Rejected (VString sentinel)))
             (VString sentinel) eq_refl eq_refl eq_refl). by right.
  - apply (Hnone "age" _ (λ _, Throws (VNumber 0%float))
             (VNumber 0%float) eq_refl eq_refl eq_refl). by left.
Defined.

(** ** Schema failures *)

(** C3, at a nested path the code keeps the last message, not the first:
    the guard of [yupToFormErrors] reads [errors[err.path]], a property
    named by the whole path string, which a nested write never creates. *)
Theorem yupToFormErrors_nested_path_last_wins :
  let inner :=
    [{| path := "user.name"; message := VString "too short" |};
     {| path := "user.name"; message := VString "also bad" |}] in
  let errors := VObject [("user", VObject [("name", VString "also bad")])] in
  first_message "user.name" inner = Some (VString "too short")
  ∧ yupToFormErrors inner = Some errors
  ∧ getIn errors "user.name" = VString "also bad"
  ∧ prop (VObject [("user", VObject [("name", VString "too short")])]) "user.name"
    = VUndefined.
Proof. repeat split. Qed.

Lemma yupToFormErrors_loop_top_level (inner : list ValidationFailure) : ∀ ps,
  (∀ err, In err inner →
          toPath (path err) = [Key (path err)] ∧ truthy (message err) = true
          ∧ inherited Object_prototype (path err) = false) →
  (∀ k v, obj_get k ps = Some v → truthy v = true) →
  ∃ ps', yupToFormErrors_loop inner (VObject ps) = Some (VObject ps')
         ∧ ∀ k, obj_get k ps'
                = match obj_get k ps with
                  | Some v => Some v
                  | None => first_message k inner
                  end.
Proof.
  induction inner as [|err rest IH]; intros ps Hin Htruthy.
  - exists ps. split; [done|]. intros k. by destruct (obj_get k ps).
  - destruct (Hin err) as (Hpath & Hmsg & Hown); [by left|].
    assert (∀ e, In e rest →
              toPath (path e) = [Key (path e)] ∧ truthy (message e) = true
              ∧ inherited Object_prototype (path e) = false)
      as Hrest by (intros e He; apply Hin; by right).
    cbn [yupToFormErrors_loop prop]. rewrite Hown.
    destruct (obj_get (path err) ps) as [v|] eqn:Hget.
    + simpl. rewrite (Htruthy _ _ Hget). simpl.
      destruct (IH ps Hrest Htruthy) as (ps' & Hloop & Hlook).
      exists ps'. split; [done|]. intros k. rewrite Hlook. simpl.
      destruct (String.eqb (path err) k) eqn:E; [|done].
      apply String.eqb_eq in E. subst k. by rewrite Hget.
    + simpl. unfold setIn. rewrite Hpath. simpl.
      destruct (IH (obj_set (path err) (message err) ps) Hrest)
        as (ps' & Hloop & Hlook).
      { intros k v. destruct (decide (path err = k)) as [<-|Hne].
        - rewrite obj_get_set_eq. by intros [= <-].
        - rewrite obj_get_set_ne by done. apply Htruthy. }
      exists ps'. split; [done|]. intros k. rewrite Hlook. simpl.
      destruct (String.eqb (path err) k) eqn:E.
      * apply String.eqb_eq in E. subst k. by rewrite obj_get_set_eq, Hget.
      * apply String.eqb_neq in E. by rewrite obj_get_set_ne.
Qed.

(** Where every failure is addressed by a single mapping key that is not
    the name of an inherited property and carries a truthy message, the
    first message of each key is the one kept. *)
Lemma yupToFormErrors_top_level_first_wins (inner : list ValidationFailure) :
  (∀ err, In err inner →
          toPath (path err) = [Key (path err)] ∧ truthy (message err) = true
          ∧ inherited Object_prototype (path err) = false) →
  ∃ ps, yupToFormErrors inner = Some (VObject ps)
        ∧ ∀ k, obj_get k ps = first_message k inner.
Proof.
  intros Hin.
  destruct (yupToFormErrors_loop_top_level inner [] Hin) as (ps & Hloop & Hlook);
    [done|].
  exists ps. split; [exact Hloop|]. intros k. by rewrite Hlook.
Qed.

Example yupToFormErrors_name_first_wins :
  yupToFormErrors
    [{| path := "name"; message := VString "too short" |};
     {| path := "name"; message := VString "also bad" |}]
  = Some (VObject [("name", VString "too short")]).
Proof. reflexivity. Qed.

(** ** Reset *)

Lemma resetForm_state nextValues c :
  let chosen :=
    if truthy nextValues then nextValues else initialValues (state c) in
  state (resetForm nextValues c)
  = {| values := chosen; initialValues := initialValues (state c);
       errors := VObject []; touched := VObject []; isValidating := false;
       isSubmitting := false; status := VUndefined; submitCount := 0 |}.
Proof. done. Qed.

Lemma resetForm_idempotent nextValues c :
  resetForm nextValues (resetForm nextValues c) = resetForm nextValues c.
Proof. done. Qed.

(** [getDerivedStateFromProps], when it resets, replaces [initialValues]
    together with [values]. *)
Lemma getDerivedStateFromProps_replaces_initialValues nextProps prevState s :
  getDerivedStateFromProps nextProps prevState = Some s →
  values s = props_initialValues nextProps
  ∧ initialValues s = props_initialValues nextProps.
Proof.
  unfold getDerivedStateFromProps.
  destruct (_ && _); [|done]. by intros [= <-].
Qed.

Lemma obj_get_NoDup {A} (o : list (string * A)) k v :
  NoDup o.*1 → In (k, v) o → obj_get k o = Some v.
Proof.
  induction o as [|[k' v'] o IH]; simpl; [done|].
  intros Hnd [[= -> ->]|Hin].
  - by rewrite String.eqb_refl.
  - apply NoDup_cons in Hnd as [Hk' Hnd].
    destruct (String.eqb k k') eqn:E; [|by apply IH].
    apply String.eqb_eq in E. subst k'. exfalso. apply Hk'.
    apply list_elem_of_In. by apply (in_map fst _ (k, v)).
Qed.

Lemma isEqual_refl v : well_formed v → isEqual v v = true.
Proof.
  induction v as [| |b|n|s|ps IH|es IH|tag] using value_nested_ind;
    intros Hwf; simpl; try done.
  - by destruct b.
  - unfold isNaN. by destruct (PrimFloat.eqb n n).
  - apply String.eqb_refl.
  - destruct Hwf as [Hnd Hall]. rewrite Nat.eqb_refl. simpl.
    assert (∀ l, (∀ kv, In kv l → In kv ps) →
                 Forall (λ kv, well_formed kv.2 → isEqual kv.2 kv.2 = true) l →
                 (fix all (ps : list (string * value)) : Prop :=
                    match ps with
                    | [] => True
                    | (_, c) :: ps' => well_formed c ∧ all ps'
                    end) l →
                 (fix all (pa : list (string * value)) : bool :=
                    match pa with
                    | [] => true
                    | (k, va) :: pa' =>
                        match obj_get k ps with
                        | Some vb => isEqual va vb
                        | None => false
                        end && all pa'
                    end) l = true) as Hsuffix.
    { induction l as [|[k va] l IHl]; intros Hsub Hl Hwfl; [done|].
      apply Forall_cons in Hl as [Hva Hl]. destruct Hwfl as [Hwva Hwfl].
      rewrite (obj_get_NoDup ps k va Hnd) by (apply Hsub; by left).
      simpl in Hva. rewrite (Hva Hwva). simpl.
      apply IHl; [|done|done]. intros kv Hkv. apply Hsub. by right. }
    by apply Hsuffix.
  - induction es as [|x es IHes]; [done|].
    apply Forall_cons in IH as [Hx IH]. destruct Hwf as [Hwx Hwf].
    rewrite (Hx Hwx). simpl. by apply IHes.
  - apply String.eqb_refl.
Qed.

(** After [resetForm()] without an argument the form is not dirty. *)
Lemma resetForm_not_dirty c :
  well_formed (initialValues (state c)) → dirty (resetForm VUndefined c) = false.
Proof. intros Hwf. unfold dirty. simpl. by rewrite isEqual_refl. Qed.

(** C5, [resetForm(nextValues)] leaves [initialValues] as it was: after a
    reset to other values the two differ and the form is dirty. *)
Theorem resetForm_keeps_initialValues :
  (∀ nextValues c,
     initialValues (state (resetForm nextValues c)) = initialValues (state c))
  ∧ let c :=
      constructor
        {| props_initialValues := VObject [("name", VString "jared")];
           validateOnChange := true; validateOnBlur := true;
           validateOnLoad := false; enableReinitialize := false;
           props_validate := None; validationSchema := None;
           props_onSubmit := λ _, Returns VUndefined |} in
    let c' := resetForm (VObject [("name", VString "ian")]) c in
    values (state c') = VObject [("name", VString "ian")]
    ∧ initialValues (state c') = VObject [("name", VString "jared")]
    ∧ dirty c' = true.
Proof. split; [done|]. repeat split. Qed.

(** ** Settlement *)

(** [pose_some e c]: evaluate [e : option _] and name the content [c]. *)
Ltac pose_some e c :=
  let o := eval vm_compute in e in
  match o with
  | Some ?x => pose (c := x)
  end.

Lemma settle_inv i c c' r :
  settle i c = Some (c', r) →
  ∃ t, pending c !! i = Some t
       ∧ runTask t (with_pending (delete i (pending c)) c) = Some (c', r).
Proof.
  unfold settle. destruct (pending c !! i) as [t|]; [|done]. simpl. eauto.
Qed.

Lemma runTask_unmounted t c c' r :
  didMount c = false → runTask t c = Some (c', r) →
  errors (state c') = errors (state c)
  ∧ isValidating (state c') = isValidating (state c)
  ∧ didMount c' = false.
Proof.
  intros Hd. unfold runTask.
  destruct (result t) as [v|e]; [|by intros [= <- <-]].
  destruct (continuation t) as [| |field].
  - unfold afterValidations. rewrite Hd. by intros [= <- <-].
  - unfold afterValidations, afterSubmitValidations. rewrite Hd.
    destruct (Object_keys v) as [ks|]; [|by intros [= <- <-]].
    destruct (Nat.eqb (length ks) 0); by intros [= <- <-].
  - unfold afterValidateField. rewrite Hd. simpl. by intros [= <- <-].
Qed.

Section executions.
Variable parseFloat : value → float.
Variable production : bool.

Lemma run_settle_unmounted (l : list nat) : ∀ c c',
  didMount c = false →
  run parseFloat production (map Settle l) c = Some c' →
  errors (state c') = errors (state c)
  ∧ isValidating (state c') = isValidating (state c)
  ∧ didMount c' = false.
Proof.
  induction l as [|i l IH]; intros c c' Hd Hrun.
  - simpl in Hrun. injection Hrun as <-. done.
  - simpl in Hrun. destruct (settle i c) as [[c1 r]|] eqn:Hs; [|done].
    simpl in Hrun. apply settle_inv in Hs as (t & _ & Ht).
    apply runTask_unmounted in Ht as (He & Hv & Hd1); [|done].
    destruct (IH c1 c' Hd1 Hrun) as (He' & Hv' & Hd').
    simpl in He, Hv. rewrite He', Hv'. done.
Qed.

Lemma startValidations_didMount k v c c' :
  startValidations k v c = Some c' → didMount c' = didMount c.
Proof.
  unfold startValidations. destruct (combinedErrors _ _); [|done].
  simpl. by intros [= <-].
Qed.

Lemma warnIfMissing_didMount field handlerName c :
  didMount (warnIfMissing production field handlerName c) = didMount c.
Proof. unfold warnIfMissing. by destruct (_ && _). Qed.

(** Peel the binds off a hypothesis [H : ... = Some _]. *)
Ltac peel_binds H :=
  repeat (let x := fresh "x" in
          let Hx := fresh "Hx" in
          apply bind_Some in H as (x & Hx & H)).

Lemma executeChange_didMount e maybePath c c' :
  executeChange parseFloat production e maybePath c = Some c' →
  didMount c' = didMount c.
Proof.
  unfold executeChange, runValidations. intros H.
  repeat case_match; peel_binds H;
    try (apply startValidations_didMount in H; rewrite H);
    try (injection H as <-);
    simpl; by rewrite ?warnIfMissing_didMount.
Qed.

Lemma executeBlur_didMount target maybePath c c' :
  executeBlur production target maybePath c = Some c' →
  didMount c' = didMount c.
Proof.
  unfold executeBlur, runValidations. intros H. peel_binds H.
  repeat case_match;
    try (apply startValidations_didMount in H; rewrite H);
    try (injection H as <-);
    simpl; by rewrite ?warnIfMissing_didMount.
Qed.

(** No action but [Mount] mounts the instance. *)
Lemma step_stays_unmounted a c c' :
  a ≠ Mount → didMount c = false →
  step parseFloat production a c = Some c' → didMount c' = false.
Proof.
  intros Ha Hd. destruct a; simpl; try done;
    try (by intros [= <-]);
    try (by intros ->%executeChange_didMount);
    try (by intros ->%executeBlur_didMount);
    try (by intros ->%startValidations_didMount).
  - unfold receiveProps. intros [= <-].
    by destruct (getDerivedStateFromProps _ _).
  - unfold setFieldValue, runValidations. intros H. peel_binds H.
    repeat case_match;
      try (apply startValidations_didMount in H; rewrite H);
      try (injection H as <-); done.
  - unfold setFieldTouched, runValidations. intros H. peel_binds H.
    repeat case_match;
      try (apply startValidations_didMount in H; rewrite H);
      try (injection H as <-); done.
  - unfold setFieldError. intros H. peel_binds H. by injection H as <-.
  - unfold setTouched, runValidations. intros H.
    repeat case_match;
      try (apply startValidations_didMount in H; rewrite H);
      try (injection H as <-); done.
  - unfold setValues, runValidations. intros H.
    repeat case_match;
      try (apply startValidations_didMount in H; rewrite H);
      try (injection H as <-); done.
  - unfold setFormikState. intros H. peel_binds H. by injection H as <-.
  - destruct (settle i c) as [[c1 r]|] eqn:Hs; [|done]. simpl. intros [= <-].
    apply settle_inv in Hs as (t & _ & Ht).
    by apply runTask_unmounted in Ht as (_ & _ & ?).
Qed.

Lemma run_stays_unmounted (actions : list Action) : ∀ c c',
  didMount c = false → Forall (λ a, a ≠ Mount) actions →
  run parseFloat production actions c = Some c' → didMount c' = false.
Proof.
  induction actions as [|a actions IH]; intros c c' Hd Hall Hrun.
  - simpl in Hrun. by injection Hrun as <-.
  - apply Forall_cons in Hall as [Ha Hall]. cbn [run] in Hrun.
    destruct (step parseFloat production a c) as [c1|] eqn:Hstep; [|done].
    simpl in Hrun. eapply IH; [|done|done]. by eapply step_stays_unmounted.
Qed.

(** C7 (settlement after teardown).  When a validation promise settles
    while the instance is unmounted, [errors] and [isValidating] stay as
    they are.  This holds for every settlement; so it holds in every
    execution for each settlement that comes after [componentWillUnmount],
    whatever happens in between, and for the state reached by any sequence
    of settlements.  For the continuation of [runValidations] and of
    [validateField] with a fulfilled promise the step is defined, changes
    neither the state nor the trace, and the promise derived by [.then] is
    fulfilled: the write is skipped without raising anything. *)
Theorem settle_after_unmount_skips_write :
  (∀ c i c' r,
     didMount c = false → settle i c = Some (c', r) →
     errors (state c') = errors (state c)
     ∧ isValidating (state c') = isValidating (state c)
     ∧ didMount c' = false)
  ∧ (∀ c between i c1 c2,
       Forall (λ a, a ≠ Mount) between →
       run parseFloat production (Unmount :: between) c = Some c1 →
       step parseFloat production (Settle i) c1 = Some c2 →
       errors (state c2) = errors (state c1)
       ∧ isValidating (state c2) = isValidating (state c1))
  ∧ (∀ c l c',
       run parseFloat production (Unmount :: map Settle l) c = Some c' →
       errors (state c') = errors (state c)
       ∧ isValidating (state c') = isValidating (state c))
  ∧ (∀ c i t v,
       didMount c = false → pending c !! i = Some t →
       result t = Fulfilled v →
       continuation t = AfterRunValidations
       ∨ (∃ field, continuation t = AfterValidateField field) →
       ∃ c' r, settle i c = Some (c', Fulfilled r)
               ∧ state c' = state c ∧ trace c' = trace c).
Proof.
  assert (∀ c i c' r,
            didMount c = false → settle i c = Some (c', r) →
            errors (state c') = errors (state c)
            ∧ isValidating (state c') = isValidating (state c)
            ∧ didMount c' = false) as Hstep.
  { intros c i c' r Hd Hs. apply settle_inv in Hs as (t & _ & Ht).
    by apply runTask_unmounted in Ht. }
  split; [exact Hstep|]. split; [|split].
  - intros c between i c1 c2 Hall Hrun Hsettle.
    cbn [run step] in Hrun. simpl in Hrun.
    apply run_stays_unmounted in Hrun; [|done|done].
    simpl in Hsettle. destruct (settle i c1) as [[c' r]|] eqn:Hs; [|done].
    simpl in Hsettle. injection Hsettle as <-.
    by destruct (Hstep c1 i c' r Hrun Hs) as (? & ? & _).
  - intros c l c' Hrun. cbn [run step] in Hrun. simpl in Hrun.
    apply run_settle_unmounted in Hrun as (He & Hv & _); done.
  - intros c i t v Hd Hi Hres Hk. unfold settle. rewrite Hi. simpl.
    unfold runTask. rewrite Hres.
    destruct Hk as [-> | [field ->]].
    + unfold afterValidations. simpl. rewrite Hd. eauto.
    + unfold afterValidateField. simpl. rewrite Hd. simpl. eauto.
Qed.

End executions.

Lemma settle_after_unmount_skips_write_witness :
  let c0 :=
    registerField "email"
      {| validate := Some (λ v, if truthy v then Returns VUndefined
                                else Returns (VString "required")) |}
      (constructor
         {| props_initialValues := VObject [("email", VString "")];
            validateOnChange := true; validateOnBlur := true;
            validateOnLoad := true; enableReinitialize := false;
            props_validate := None; validationSchema := None;
            props_onSubmit := λ _, Returns VUndefined |}) in
  ∃ mounted c1 c2 c3 r,
    run (λ _, nan) false [Mount; ValidateField "email"] c0 = Some mounted
    ∧ run (λ _, nan) false [Unmount] mounted = Some c1
    ∧ length (pending c1) = 2
    ∧ settle 1 c1 = Some (c2, r)
    ∧ errors (state c2) = VObject []
    ∧ isValidating (state c2) = true
    ∧ run (λ _, nan) false [Unmount; Settle 1; Settle 0] mounted = Some c3
    ∧ pending c3 = []
    ∧ errors (state c3) = VObject []
    ∧ isValidating (state c3) = true.
Proof.
  intros c0.
  destruct (settle_after_unmount_skips_write (λ _, nan) false)
    as (Hstep & _ & Hrun & _).
  pose_some (run (λ _, nan) false [Mount; ValidateField "email"] c0) mounted.
  pose_some (run (λ _, nan) false [Unmount] mounted) c1.
  pose_some (settle 1 c1) cr.
  pose_some (run (λ _, nan) false [Unmount; Settle 1; Settle 0] mounted) c3.
  exists mounted, c1, cr.1, c3, cr.2.
  split; [reflexivity|]. split; [reflexivity|]. split; [reflexivity|].
  split; [reflexivity|].
  destruct (Hstep c1 1 cr.1 cr.2 eq_refl eq_refl) as (He & Hv & _).
  split; [exact He|]. split; [exact Hv|].
  split; [reflexivity|]. split; [reflexivity|].
  exact (Hrun mounted [1; 0] c3 eq_refl).
Defined.

(** The continuation of [runValidations], mounted: the merged errors
    replace [errors] and validation is over. *)
Lemma settle_runValidations_mounted c i combined :
  didMount c = true →
  pending c !! i
  = Some {| continuation := AfterRunValidations; result := Fulfilled combined |} →
  ∃ c', settle i c = Some (c', Fulfilled combined)
        ∧ errors (state c') = combined
        ∧ isValidating (state c') = false.
Proof.
  intros Hd Hi. unfold settle. rewrite Hi. simpl.
  unfold runTask, afterValidations. simpl. rewrite Hd. by eexists.
Qed.

(** ** Submission *)

Lemma delete_last {A} (l : list A) x : delete (length l) (l ++ [x]) = l.
Proof. induction l as [|a l IH]; simpl; [done|]. by rewrite IH. Qed.

Lemma combinedErrors_setState updater c values :
  combinedErrors (setState updater c) values = combinedErrors c values.
Proof. done. Qed.

Lemma submitForm_inv c c1 :
  submitForm c = Some c1 →
  touched (state c1) = setNestedObjectValues (values (state c)) (VBool true)
  ∧ isSubmitting (state c1) = true
  ∧ submitCount (state c1) = submitCount (state c) + 1
  ∧ values (state c1) = values (state c)
  ∧ trace c1 = trace c
  ∧ ∃ r, combinedErrors c (values (state c)) = Some r
         ∧ pending c1
           = pending c ++ [{| continuation := AfterSubmitForm; result := r |}].
Proof.
  unfold submitForm, startValidations.
  rewrite !combinedErrors_setState.
  destruct (combinedErrors c _) as [r|] eqn:Hr; [|done].
  simpl. intros [= <-]. simpl. repeat split; eauto.
Qed.

Lemma submitForm_defined c r :
  combinedErrors c (values (state c)) = Some r → is_Some (submitForm c).
Proof.
  intros Hr. unfold submitForm, startValidations.
  rewrite !combinedErrors_setState. cbn [values state setState with_state
    set_submitCount set_isSubmitting set_touched set_isValidating].
  rewrite Hr. simpl. eauto.
Qed.

Lemma settle_submit c i combined ks :
  pending c !! i
  = Some {| continuation := AfterSubmitForm; result := Fulfilled combined |} →
  Object_keys combined = Some ks →
  ∃ c', settle i c
        = Some (c', match ks with
                    | [] => callbackResult
                              (props_onSubmit (props c) (values (state c)))
                    | _ :: _ => Fulfilled VUndefined
                    end)
        ∧ values (state c') = values (state c)
        ∧ pending c' = delete i (pending c)
        ∧ (didMount c = true →
           errors (state c') = combined ∧ isValidating (state c') = false)
        ∧ (ks = [] →
           trace c' = trace c ++ [OnSubmit (values (state c))]
           ∧ isSubmitting (state c') = isSubmitting (state c))
        ∧ (ks ≠ [] →
           isSubmitting (state c') = false ∧ trace c' = trace c).
Proof.
  intros Hi Hks. unfold settle. rewrite Hi. simpl.
  unfold runTask. simpl. unfold afterSubmitValidations. rewrite Hks.
  destruct ks as [|k ks]; simpl.
  - unfold afterValidations. simpl.
    destruct (didMount c) eqn:Hd; simpl;
      (eexists; split; [reflexivity|]); simpl; rewrite ?Hd; by repeat split.
  - unfold afterValidations. simpl.
    destruct (didMount c) eqn:Hd; simpl;
      (eexists; split; [reflexivity|]); simpl; rewrite ?Hd; by repeat split.
Qed.

(** A merged result that has no keys to enumerate ([undefined] or [null]):
    [Object.keys] throws in the continuation, after the guarded write of
    [runValidations]. *)
Lemma settle_submit_keyless c i combined :
  pending c !! i
  = Some {| continuation := AfterSubmitForm; result := Fulfilled combined |} →
  Object_keys combined = None →
  ∃ c', settle i c = Some (c', Rejected TypeError)
        ∧ pending c' = delete i (pending c)
        ∧ isSubmitting (state c') = isSubmitting (state c)
        ∧ trace c' = trace c.
Proof.
  intros Hi Hks. unfold settle. rewrite Hi. simpl.
  unfold runTask. simpl. unfold afterSubmitValidations. rewrite Hks.
  unfold afterValidations. simpl.
  destruct (didMount c) eqn:Hd; simpl;
    (eexists; split; [reflexivity|]); by repeat split.
Qed.

(** A pipeline that is rejected (the form-level handler or the schema
    threw) leaves the decision untaken: the rejection passes through both
    callbacks. *)
Lemma settle_submit_rejected c i e :
  pending c !! i
  = Some {| continuation := AfterSubmitForm; result := Rejected e |} →
  ∃ c', settle i c = Some (c', Rejected e)
        ∧ state c' = state c ∧ trace c' = trace c
        ∧ pending c' = delete i (pending c).
Proof. intros Hi. unfold settle. rewrite Hi. simpl. eauto. Qed.

(** C1, the claim as written fails on two inputs.  With a form-level
    [validate] that throws, the pipeline is rejected and no decision is
    taken: the callback is not called, [isSubmitting] stays [true], and the
    promise returned by [submitForm] is rejected.  With a valid form and a
    callback that throws, the callback is called once and the promise is
    rejected with what it threw. *)
Lemma submitForm_promise_can_reject :
  (let c :=
     with_didMount true
       (constructor
          {| props_initialValues := VObject [("name", VString "jared")];
             validateOnChange := true; validateOnBlur := true;
             validateOnLoad := false; enableReinitialize := false;
             props_validate := Some (λ _, Throws (VString "boom"));
             validationSchema := None;
             props_onSubmit := λ _, Returns VUndefined |}) in
   ∃ c1 c2,
     submitForm c = Some c1
     ∧ settle 0 c1 = Some (c2, Rejected (VString "boom"))
     ∧ isSubmitting (state c2) = true
     ∧ trace c2 = [])
  ∧ (let c :=
       with_didMount true
         (constructor
            {| props_initialValues := VObject [("name", VString "jared")];
               validateOnChange := true; validateOnBlur := true;
               validateOnLoad := false; enableReinitialize := false;
               props_validate := None; validationSchema := None;
               props_onSubmit := λ _, Throws (VString "offline") |}) in
     ∃ c1 c2,
       submitForm c = Some c1
       ∧ settle 0 c1 = Some (c2, Rejected (VString "offline"))
       ∧ errors (state c2) = VObject []
       ∧ trace c2 = [OnSubmit (VObject [("name", VString "jared")])]).
Proof. split; (eexists _, _; repeat split). Qed.

(** C1, as amended (submit gating).  [submitForm()] marks every leaf of the
    values touched, sets [isSubmitting], counts the attempt and starts the
    full validation pipeline on the current values; its continuation waits
    for the promise of the pipeline.  When that promise is fulfilled with a
    tree [combined], the continuation takes the decision: with no key in
    [combined] the submit callback is called exactly once, with the values
    the state then holds, and the promise returned by [submitForm] is
    fulfilled when the callback returns and rejected with what the callback
    throws; with some key, [isSubmitting] becomes [false], the callback is
    not called and the promise is fulfilled.  When the promise of the
    pipeline is rejected, or fulfilled with a value without keys to
    enumerate, no decision is taken: the callback is not called,
    [isSubmitting] stays as [submitForm] set it, and the promise returned by
    [submitForm] is rejected.  The last part puts call and settlement
    together, for every state in which the pipeline is specified. *)
Theorem submitForm_gates_submit :
  (∀ c c1,
     submitForm c = Some c1 →
     touched (state c1) = setNestedObjectValues (values (state c)) (VBool true)
     ∧ isSubmitting (state c1) = true
     ∧ submitCount (state c1) = submitCount (state c) + 1
     ∧ values (state c1) = values (state c)
     ∧ trace c1 = trace c
     ∧ ∃ r, combinedErrors c (values (state c)) = Some r
            ∧ pending c1
              = pending c ++ [{| continuation := AfterSubmitForm; result := r |}])
  ∧ (∀ c i combined ks,
       pending c !! i
       = Some {| continuation := AfterSubmitForm; result := Fulfilled combined |} →
       Object_keys combined = Some ks →
       ∃ c', settle i c
             = Some (c', match ks with
                         | [] => callbackResult
                                   (props_onSubmit (props c) (values (state c)))
                         | _ :: _ => Fulfilled VUndefined
                         end)
             ∧ values (state c') = values (state c)
             ∧ (didMount c = true →
                errors (state c') = combined ∧ isValidating (state c') = false)
             ∧ (ks = [] →
                trace c' = trace c ++ [OnSubmit (values (state c))]
                ∧ isSubmitting (state c') = isSubmitting (state c))
             ∧ (ks ≠ [] →
                isSubmitting (state c') = false ∧ trace c' = trace c))
  ∧ (∀ c i r,
       pending c !! i
       = Some {| continuation := AfterSubmitForm; result := r |} →
       (∃ e, r = Rejected e)
       ∨ (∃ combined, r = Fulfilled combined ∧ Object_keys combined = None) →
       ∃ c' e, settle i c = Some (c', Rejected e)
               ∧ (r = Rejected e ∨ e = TypeError)
               ∧ isSubmitting (state c') = isSubmitting (state c)
               ∧ trace c' = trace c)
  ∧ (∀ c r,
       combinedErrors c (values (state c)) = Some r →
       ∃ c1 c2 p,
         submitForm c = Some c1
         ∧ settle (length (pending c)) c1 = Some (c2, p)
         ∧ pending c2 = pending c
         ∧ match r with
           | Rejected e =>
               p = Rejected e
               ∧ isSubmitting (state c2) = true ∧ trace c2 = trace c
           | Fulfilled combined =>
               match Object_keys combined with
               | Some [] =>
                   p = callbackResult
                         (props_onSubmit (props c) (values (state c)))
                   ∧ trace c2 = trace c ++ [OnSubmit (values (state c))]
                   ∧ isSubmitting (state c2) = true
               | Some (_ :: _) =>
                   p = Fulfilled VUndefined
                   ∧ isSubmitting (state c2) = false ∧ trace c2 = trace c
               | None =>
                   p = Rejected TypeError
                   ∧ isSubmitting (state c2) = true ∧ trace c2 = trace c
               end
           end).
Proof.
  split; [exact submitForm_inv|]. split.
  { intros c i combined ks Hi Hks.
    destruct (settle_submit c i combined ks Hi Hks)
      as (c' & Hs & Hv & _ & Hrest).
    exists c'. by split. }
  split.
  { intros c i r Hi [[e ->]|(combined & -> & Hks)].
    - destruct (settle_submit_rejected c i e Hi) as (c' & Hs & Hst & Ht & _).
      exists c', e. split; [exact Hs|]. split; [by left|]. by rewrite Hst.
    - destruct (settle_submit_keyless c i combined Hi Hks)
        as (c' & Hs & _ & Hsub & Ht).
      exists c', TypeError. split; [exact Hs|]. split; [by right|]. done. }
  intros c r Hc.
  destruct (submitForm_defined c _ Hc) as [c1 Hc1].
  destruct (submitForm_inv c c1 Hc1)
    as (_ & Hsub & _ & Hvalues & Htrace & r' & Hr & Hpending).
  rewrite Hc in Hr. injection Hr as <-.
  assert (pending c1 !! length (pending c)
          = Some {| continuation := AfterSubmitForm; result := r |}) as Hi
    by (rewrite Hpending, lookup_app_r, Nat.sub_diag by done; done).
  assert (props c1 = props c) as Hprops.
  { revert Hc1. unfold submitForm, startValidations.
    destruct (combinedErrors _ _); [|done]. simpl. by intros [= <-]. }
  assert (delete (length (pending c)) (pending c1) = pending c) as Hdel
    by (rewrite Hpending; apply delete_last).
  destruct r as [combined|e].
  - destruct (Object_keys combined) as [ks|] eqn:Hks.
    + destruct (settle_submit c1 _ combined ks Hi Hks)
        as (c2 & Hs & _ & Hq & _ & Hempty & Hnonempty).
      exists c1, c2. eexists. split; [done|]. split; [exact Hs|].
      split; [by rewrite Hq|]. rewrite Hprops, Hvalues. destruct ks as [|k ks].
      * destruct (Hempty eq_refl) as [Ht Hsame].
        by rewrite Ht, Hsame, Htrace, Hvalues, Hsub.
      * destruct (Hnonempty ltac:(done)) as [Hfalse Ht].
        by rewrite Ht, Htrace.
    + destruct (settle_submit_keyless c1 _ combined Hi Hks)
        as (c2 & Hs & Hq & Hsame & Ht).
      exists c1, c2. eexists. split; [done|]. split; [exact Hs|].
      split; [by rewrite Hq|]. by rewrite Hsame, Ht, Hsub, Htrace.
  - destruct (settle_submit_rejected c1 _ e Hi) as (c2 & Hs & Hst & Ht & Hq).
    exists c1, c2. eexists. split; [done|]. split; [exact Hs|].
    split; [by rewrite Hq|]. by rewrite Hst, Ht, Hsub, Htrace.
Qed.

Lemma submitForm_gates_submit_witness :
  let config :=
    {| props_initialValues := VObject [("name", VString "jared")];
       validateOnChange := true; validateOnBlur := true;
       validateOnLoad := false; enableReinitialize := false;
       props_validate := None; validationSchema := None;
       props_onSubmit := λ _, Returns VUndefined |} in
  let valid := with_didMount true (constructor config) in
  let invalid :=
    registerField "name"
      {| validate := Some (λ _, Returns (VString "taken")) |} valid in
  (∃ c1 c2,
     submitForm valid = Some c1
     ∧ settle 0 c1 = Some (c2, Fulfilled VUndefined)
     ∧ trace c2 = [OnSubmit (VObject [("name", VString "jared")])]
     ∧ isSubmitting (state c2) = true)
  ∧ (∃ c1 c2,
       submitForm invalid = Some c1
       ∧ settle 0 c1 = Some (c2, Fulfilled VUndefined)
       ∧ trace c2 = []
       ∧ isSubmitting (state c2) = false).
Proof.
  intros config valid invalid.
  destruct submitForm_gates_submit as (_ & _ & _ & Hboth).
  split.
  - destruct (Hboth valid (Fulfilled (VObject [])) eq_refl)
      as (c1 & c2 & p & Hc1 & Hs & _ & Hp & Htrace & Hsub).
    cbn in Hp. subst p.
    exists c1, c2. split; [exact Hc1|]. split; [exact Hs|].
    split; [exact Htrace|exact Hsub].
  - destruct (Hboth invalid (Fulfilled (VObject [("name", VString "taken")]))
                eq_refl)
      as (c1 & c2 & p & Hc1 & Hs & _ & Hp & Hsub & Htrace).
    subst p.
    exists c1, c2. split; [exact Hc1|]. split; [exact Hs|].
    split; [exact Htrace|exact Hsub].
Defined.

(** ** Change events *)

Example input_type_tests :
  test_number_range (Some "number") = true
  ∧ test_number_range (Some "range") = true
  ∧ test_number_range (Some "text") = false
  ∧ test_number_range None = false
  ∧ test_checkbox (Some "checkbox") = true
  ∧ test_checkbox None = false.
Proof. repeat split. Qed.

Section change.
Variable parseFloat : value → float.
Variable production : bool.

Lemma runValidations_values v c c' :
  runValidations v c = Some c' →
  values (state c') = values (state c) ∧ trace c' = trace c.
Proof.
  unfold runValidations, startValidations.
  destruct (combinedErrors _ _); [|done]. simpl. by intros [= <-].
Qed.

(** C8 (coercion of a change event).  For a change event whose target has
    a name, or else an id, [handleChange] replaces [values] by the result
    of writing, at that path, the float parse of the target's value when
    its type matches [number] or [range] (the empty string when the parse
    is [NaN]), the [checked] flag when the type matches [checkbox], and the
    raw value otherwise; and it does so whenever that write is specified
    and the validation it may start is. *)
Theorem handleChange_writes_coerced (target : Target) (c : Formik) :
  let field := if String.eqb (name target) "" then id target else name target in
  let val :=
    if test_number_range (type target) then
      if isNaN (parseFloat (value_ target)) then VString ""
      else VNumber (parseFloat (value_ target))
    else if test_checkbox (type target) then checked target
    else value_ target in
  field ≠ "" →
  (∀ c', handleChange parseFloat production (inr target) c = inr (Some c') →
         setIn (values (state c)) field val = Some (values (state c')))
  ∧ (∀ written,
       setIn (values (state c)) field val = Some written →
       (validateOnChange (props c) = true → is_Some (combinedErrors c written)) →
       ∃ c', handleChange parseFloat production (inr target) c = inr (Some c')
             ∧ values (state c') = written).
Proof.
  intros field val Hfield.
  assert (executeChange parseFloat production (inr target) None c
          = (values' ← setIn (values (state c)) field val;
             let c2 := setState (set_values values') c in
             if validateOnChange (props c) then
               validated ← setIn (values (state c)) field val;
               runValidations validated c2
             else Some c2)) as Hexec.
  { unfold executeChange, fieldOf, coerce. fold val.
    replace (if negb (String.eqb (name target) "") then name target else id target)
      with field by (unfold field; by destruct (String.eqb (name target) "")).
    apply String.eqb_neq in Hfield. unfold warnIfMissing. by rewrite Hfield. }
  split.
  - intros c' [= Hchange]. rewrite Hexec in Hchange. revert Hchange.
    destruct (setIn (values (state c)) field val) as [v'|]; [|done]. simpl.
    destruct (validateOnChange (props c)).
    + intros Hrun. by apply runValidations_values in Hrun as [-> _].
    + by intros [= <-].
  - intros written Hset Hpipeline. unfold handleChange.
    rewrite Hexec, Hset. simpl.
    destruct (validateOnChange (props c)); [|by eexists].
    destruct Hpipeline as [r Hr]; [done|].
    unfold runValidations, startValidations.
    rewrite combinedErrors_setState, combinedErrors_setState, Hr. simpl.
    by eexists.
Qed.

End change.

Lemma handleChange_writes_coerced_witness :
  let parse := λ v, match v with
                    | VString "42" => 42%float
                    | _ => nan
                    end in
  let c :=
    with_didMount true
      (constructor
         {| props_initialValues := VObject [("age", VString "")];
            validateOnChange := true; validateOnBlur := true;
            validateOnLoad := false; enableReinitialize := false;
            props_validate := None; validationSchema := None;
            props_onSubmit := λ _, Returns VUndefined |}) in
  let number := {| type := Some "number"; name := "age"; id := "";
                   value_ := VString "42"; checked := VUndefined;
                   outerHTML := "" |} in
  let cleared := {| type := Some "number"; name := ""; id := "age";
                    value_ := VString "abc"; checked := VUndefined;
                    outerHTML := "" |} in
  (∃ c', handleChange parse false (inr number) c = inr (Some c')
         ∧ Some (values (state c')) = Some (VObject [("age", VNumber 42%float)]))
  ∧ (∃ c', handleChange parse false (inr cleared) c = inr (Some c')
           ∧ Some (values (state c')) = Some (VObject [("age", VString "")])).
Proof.
  intros parse c number cleared. split.
  - pose_some (executeChange parse false (inr number) None c) c1.
    exists c1. split; [reflexivity|].
    destruct (handleChange_writes_coerced parse false number c) as [Hwrite _];
      [discriminate|].
    rewrite <- (Hwrite c1 eq_refl). reflexivity.
  - pose_some (executeChange parse false (inr cleared) None c) c1.
    exists c1. split; [reflexivity|].
    destruct (handleChange_writes_coerced parse false cleared c) as [Hwrite _];
      [discriminate|].
    rewrite <- (Hwrite c1 eq_refl). reflexivity.
Defined.

(** ** Single-field validation *)

(** C10 (precondition of [validateField]).  With a registration that has a
    validator at the path, the lookup in [runSingleFieldLevelValidation]
    does not fault: the promise settles as the validator's call does.
    Without a registration, or with one that has no validator, nothing
    guards the lookup: the promise is rejected with a [TypeError], and the
    continuation of [validateField] writes no error tree; [isValidating]
    stays set and the rejection is passed on unhandled. *)
Theorem validateField_requires_registration :
  (∀ fields field fns f v,
     obj_get field fields = Some fns → validate fns = Some f →
     runSingleFieldLevelValidation fields field v = promise_of_call (f v))
  ∧ (∀ fields field v,
       obj_get field fields = None
       ∨ (∃ fns, obj_get field fields = Some fns ∧ validate fns = None) →
       runSingleFieldLevelValidation fields field v = Rejected TypeError)
  ∧ (∀ c field,
       obj_get field (fields c) = None
       ∨ (∃ fns, obj_get field (fields c) = Some fns ∧ validate fns = None) →
       let c1 := validateField field c in
       pending c1
       = pending c ++ [{| continuation := AfterValidateField field;
                          result := Rejected TypeError |}]
       ∧ ∃ c2, settle (length (pending c)) c1 = Some (c2, Rejected TypeError)
               ∧ errors (state c2) = errors (state c)
               ∧ isValidating (state c2) = true
               ∧ pending c2 = pending c).
Proof.
  assert (∀ fields field v,
            obj_get field fields = None
            ∨ (∃ fns, obj_get field fields = Some fns ∧ validate fns = None) →
            runSingleFieldLevelValidation fields field v = Rejected TypeError)
    as Hfault.
  { intros fields field v [Hnone|(fns & Hsome & Hval)];
      unfold runSingleFieldLevelValidation.
    - by rewrite Hnone.
    - by rewrite Hsome, Hval. }
  split; [|split; [exact Hfault|]].
  - intros fields field fns f v Hget Hval.
    unfold runSingleFieldLevelValidation. by rewrite Hget, Hval.
  - intros c field Hno c1. subst c1. unfold validateField. simpl.
    rewrite (Hfault (fields c) field _ Hno). split; [done|].
    unfold settle. simpl.
    rewrite lookup_app_r, Nat.sub_diag by done. simpl.
    eexists. split; [reflexivity|]. simpl. repeat split.
    apply delete_last.
Qed.

Lemma validateField_requires_registration_witness :
  let c :=
    registerField "note" {| validate := None |}
      (registerField "email"
         {| validate := Some (λ _, Returns (VString "required")) |}
         (with_didMount true
            (constructor
               {| props_initialValues := VObject [("email", VString "")];
                  validateOnChange := true; validateOnBlur := true;
                  validateOnLoad := false; enableReinitialize := false;
                  props_validate := None; validationSchema := None;
                  props_onSubmit := λ _, Returns VUndefined |}))) in
  runSingleFieldLevelValidation (fields c) "email" (VString "")
  = Fulfilled (VString "required")
  ∧ runSingleFieldLevelValidation (fields c) "note" (VString "")
    = Rejected TypeError
  ∧ runSingleFieldLevelValidation (fields c) "phone" (VString "")
    = Rejected TypeError
  ∧ ∃ c2, settle 0 (validateField "phone" c) = Some (c2, Rejected TypeError)
          ∧ errors (state c2) = VObject []
          ∧ isValidating (state c2) = true.
Proof.
  intros c.
  destruct validateField_requires_registration as (Hok & Hfault & Hrun).
  split; [|split; [|split]].
  - exact (Hok (fields c) "email" _ (λ _, Returns (VString "required"))
             (VString "") eq_refl eq_refl).
  - apply Hfault. right. by eexists.
  - apply Hfault. by left.
  - destruct (Hrun c "phone") as (_ & c2 & Hs & He & Hv & _); [by left|].
    exists c2. split; [exact Hs|]. split; [exact He|exact Hv].
Defined.

(** * Further properties of the controller and the field bindings *)

(** ** The registry of fields *)

Lemma has_key_keys {A} k (o : list (string * A)) :
  has_key k o = true ↔ In k (keys o).
Proof.
  unfold has_key, keys. induction o as [|[k' v'] o IH]; simpl; [done|].
  destruct (String.eqb k k') eqn:E.
  - apply String.eqb_eq in E. subst. split; [by left|done].
  - apply String.eqb_neq in E. rewrite IH. split; [by right|].
    intros [?|?]; [congruence|done].
Qed.

Lemma keys_obj_set {A} k (v : A) o :
  keys (obj_set k v o) = if has_key k o then keys o else keys o ++ [k].
Proof.
  unfold has_key, keys. induction o as [|[k' v'] o IH]; simpl; [done|].
  destruct (String.eqb k k') eqn:E; simpl.
  - apply String.eqb_eq in E. by subst.
  - fold (fmap (M:=list) (@fst string A) (obj_set k v o)). rewrite IH.
    by destruct (obj_get k o).
Qed.

Lemma keys_obj_delete {A} k (o : list (string * A)) :
  keys (obj_delete k o) = List.filter (λ k', negb (String.eqb k k')) (keys o).
Proof.
  unfold keys. induction o as [|[k' v'] o IH]; [done|].
  cbn [obj_delete]. rewrite fmap_cons. cbn [List.filter fst].
  destruct (String.eqb k k'); cbn [negb]; rewrite ?fmap_cons, IH; done.
Qed.

Lemma NoDup_keys_obj_set {A} k (v : A) o :
  NoDup (keys o) → NoDup (keys (obj_set k v o)).
Proof.
  intros Hnd. rewrite keys_obj_set.
  destruct (has_key k o) eqn:Hk; [done|].
  apply NoDup_app. split; [done|]. split; [|apply NoDup_singleton].
  intros x Hx ->%list_elem_of_singleton.
  apply list_elem_of_In, has_key_keys in Hx. congruence.
Qed.

Lemma NoDup_List_filter {A} (f : A → bool) (l : list A) :
  NoDup l → NoDup (List.filter f l).
Proof.
  induction l as [|x l IH]; simpl; [done|].
  intros [Hx Hl]%NoDup_cons. destruct (f x); [|by apply IH].
  apply NoDup_cons. split; [|by apply IH].
  intros Hin%list_elem_of_In%filter_In. apply Hx, list_elem_of_In. tauto.
Qed.

Lemma NoDup_keys_obj_delete {A} k (o : list (string * A)) :
  NoDup (keys o) → NoDup (keys (obj_delete k o)).
Proof. intros Hnd. rewrite keys_obj_delete. by apply NoDup_List_filter. Qed.

(** ** What one action can change *)

(** [split_bind H]: take the first bind off [H : _ ≫= _ = Some _]. *)
Ltac split_bind H :=
  let x := fresh "x" in
  let Hx := fresh "Hx" in
  apply bind_Some in H as (x & Hx & H).

Lemma advances_refl c : advances 0 c c.
Proof.
  split; [done|]. exists [], []. by rewrite !app_nil_r.
Qed.

Lemma advances_trans n m c c1 c2 :
  advances n c c1 → advances m c1 c2 → advances (n + m) c c2.
Proof.
  intros (Hf & log & new & Ht & Hlog & Hq & Hn)
         (Hf' & log' & new' & Ht' & Hlog' & Hq' & Hn').
  split; [congruence|].
  exists (log ++ log'), (new ++ new').
  rewrite Ht', Ht, Hq', Hq, !app_assoc, !List.filter_app, Hlog, Hlog', length_app.
  by rewrite Hn, Hn'.
Qed.

Lemma advances_quiet c c' :
  fields c' = fields c → trace c' = trace c → pending c' = pending c →
  advances 0 c c'.
Proof.
  intros Hf Ht Hq. split; [exact Hf|]. exists [], [].
  by rewrite !app_nil_r.
Qed.

Lemma advances_setState updater c : advances 0 c (setState updater c).
Proof. by apply advances_quiet. Qed.

Lemma advances_with_didMount b c : advances 0 c (with_didMount b c).
Proof. by apply advances_quiet. Qed.

Lemma advances_receiveProps nextProps c :
  advances 0 c (receiveProps nextProps c).
Proof.
  unfold receiveProps.
  by destruct (getDerivedStateFromProps _ _); apply advances_quiet.
Qed.

Lemma advances_warnIfMissing production field handlerName c :
  advances 0 c (warnIfMissing production field handlerName c).
Proof.
  unfold warnIfMissing. destruct (_ && _); [|apply advances_refl].
  split; [done|]. exists [ConsoleError handlerName], []. by rewrite app_nil_r.
Qed.

Lemma startValidations_inv k v c c' :
  startValidations k v c = Some c' →
  ∃ r, combinedErrors c v = Some r
       ∧ c' = with_pending
                (pending c ++ [{| continuation := k; result := r |}])
                (setState (set_isValidating true) c).
Proof.
  unfold startValidations. rewrite combinedErrors_setState.
  destruct (combinedErrors c v) as [r|]; [|done]. simpl. intros [= <-]. eauto.
Qed.

Lemma advances_startValidations k v c c' :
  startValidations k v c = Some c' →
  advances (match k with AfterSubmitForm => 1 | _ => 0 end) c c'.
Proof.
  intros (r & _ & ->)%startValidations_inv. split; [done|].
  exists [], [{| continuation := k; result := r |}].
  rewrite app_nil_r. repeat split. by destruct k.
Qed.

Lemma advances_then_validate updater v c c' :
  startValidations AfterRunValidations v (setState updater c) = Some c' →
  advances 0 c c'.
Proof.
  intros H%advances_startValidations.
  eapply (advances_trans 0 0); [apply advances_setState|exact H].
Qed.

Section steps.
Variable parseFloat : value → float.
Variable production : bool.

Lemma advances_executeChange e maybePath c c' :
  executeChange parseFloat production e maybePath c = Some c' → advances 0 c c'.
Proof.
  unfold executeChange, runValidations. intros H.
  assert (∀ f h, advances 0 c
            (match e with
             | inl _ => c
             | inr _ => warnIfMissing production f h c
             end)) as Hwarn.
  { intros f h. destruct e; [apply advances_refl|apply advances_warnIfMissing]. }
  destruct (negb _); [|injection H as <-; apply Hwarn].
  split_bind H. destruct (validateOnChange (props c)).
  - split_bind H. apply advances_then_validate in H.
    eapply (advances_trans 0 0); [apply Hwarn|exact H].
  - injection H as <-.
    eapply (advances_trans 0 0); [apply Hwarn|]. apply advances_setState.
Qed.

Lemma advances_executeBlur target maybePath c c' :
  executeBlur production target maybePath c = Some c' → advances 0 c c'.
Proof.
  unfold executeBlur, runValidations. intros H. split_bind H.
  pose proof (advances_warnIfMissing production
                (fieldOf maybePath target) "handleBlur" c) as Hwarn.
  destruct (validateOnBlur (props c)).
  - apply advances_then_validate in H.
    eapply (advances_trans 0 0); [exact Hwarn|exact H].
  - injection H as <-.
    eapply (advances_trans 0 0); [exact Hwarn|]. apply advances_setState.
Qed.

Lemma advances_setFieldValue field v shouldValidate c c' :
  setFieldValue field v shouldValidate c = Some c' → advances 0 c c'.
Proof.
  unfold setFieldValue, runValidations. intros H. split_bind H.
  destruct (_ && _); [by apply advances_then_validate in H|].
  injection H as <-. apply advances_setState.
Qed.

Lemma advances_setFieldTouched field isTouched shouldValidate c c' :
  setFieldTouched field isTouched shouldValidate c = Some c' → advances 0 c c'.
Proof.
  unfold setFieldTouched, runValidations. intros H. split_bind H.
  destruct (_ && _); [by apply advances_then_validate in H|].
  injection H as <-. apply advances_setState.
Qed.

Lemma advances_setTouched touched c c' :
  setTouched touched c = Some c' → advances 0 c c'.
Proof.
  unfold setTouched, runValidations. intros H.
  destruct (validateOnBlur _); [by apply advances_then_validate in H|].
  injection H as <-. apply advances_setState.
Qed.

Lemma advances_setValues values c c' :
  setValues values c = Some c' → advances 0 c c'.
Proof.
  unfold setValues, runValidations. intros H.
  destruct (validateOnChange _); [by apply advances_then_validate in H|].
  injection H as <-. apply advances_setState.
Qed.

Lemma advances_setFieldError field message c c' :
  setFieldError field message c = Some c' → advances 0 c c'.
Proof.
  unfold setFieldError. intros H. split_bind H. injection H as <-.
  apply advances_setState.
Qed.

Lemma advances_setFormikState updater c c' :
  setFormikState updater c = Some c' → advances 0 c c'.
Proof.
  unfold setFormikState. intros H. split_bind H. injection H as <-.
  by apply advances_quiet.
Qed.

Lemma advances_submitForm c c' : submitForm c = Some c' → advances 1 c c'.
Proof.
  unfold submitForm. intros H%advances_startValidations.
  eapply (advances_trans 0 1); [apply advances_setState|exact H].
Qed.

Lemma advances_componentDidMount c c' :
  componentDidMount c = Some c' → advances 0 c c'.
Proof.
  unfold componentDidMount, runValidations. cbn [props with_didMount].
  destruct (validateOnLoad (props c)).
  - intros H%advances_startValidations.
    eapply (advances_trans 0 0); [|exact H]. apply advances_with_didMount.
  - intros [= <-]. apply advances_with_didMount.
Qed.

(** Every action but a settlement and a change of the registry advances
    the controller; only [submitForm] queues a task that waits for a
    submission. *)
Lemma step_advances a c c' :
  step parseFloat production a c = Some c' →
  match a with
  | Settle _ => True
  | RegisterField name fns => c' = registerField name fns c
  | UnregisterField name => c' = unregisterField name c
  | _ => advances (if is_SubmitForm a then 1 else 0) c c'
  end.
Proof.
  destruct a; cbn [step is_SubmitForm]; try done.
  - apply advances_componentDidMount.
  - intros [= <-]. apply advances_with_didMount.
  - intros [= <-]. apply advances_receiveProps.
  - by intros [= <-].
  - by intros [= <-].
  - apply advances_executeChange.
  - apply advances_executeBlur.
  - apply advances_setFieldValue.
  - apply advances_setFieldTouched.
  - apply advances_setFieldError.
  - intros [= <-]. apply advances_setState.
  - apply advances_setTouched.
  - apply advances_setValues.
  - intros [= <-]. apply advances_setState.
  - intros [= <-]. apply advances_setState.
  - apply advances_setFormikState.
  - apply (advances_startValidations AfterRunValidations).
  - intros [= <-]. unfold validateField.
    eapply (advances_trans 0 0); [apply (advances_setState (set_isValidating true))|].
    split; [done|]. eexists [], [_]. rewrite app_nil_r. by repeat split.
  - apply advances_submitForm.
  - intros [= <-]. apply advances_setState.
Qed.

End steps.

(** ** Settlements *)

Lemma runTask_frame t c c' r :
  runTask t c = Some (c', r) →
  pending c' = pending c
  ∧ props c' = props c
  ∧ fields c' = fields c
  ∧ didMount c' = didMount c
  ∧ values (state c') = values (state c)
  ∧ initialValues (state c') = initialValues (state c)
  ∧ touched (state c') = touched (state c)
  ∧ status (state c') = status (state c)
  ∧ submitCount (state c') = submitCount (state c)
  ∧ (trace c' = trace c
     ∨ (awaitsSubmit t = true
        ∧ trace c' = trace c ++ [OnSubmit (values (state c))])).
Proof.
  unfold runTask, awaitsSubmit.
  destruct (result t) as [v|e];
    [|intros [= <- <-]; repeat split; first [done|by left]].
  destruct (continuation t) as [| |field].
  - unfold afterValidations. intros [= <- <-].
    destruct (didMount c) eqn:Hd; simpl; rewrite ?Hd;
      repeat split; first [done|by left].
  - unfold afterValidations, afterSubmitValidations.
    destruct (didMount c) eqn:Hd; simpl;
      (destruct (Object_keys v) as [ks|];
       [destruct (Nat.eqb (length ks) 0)|]);
      intros [= <- <-]; simpl; rewrite ?Hd;
      repeat split; first [done|by left|by right].
  - unfold afterValidateField.
    destruct (didMount c) eqn:Hd; simpl.
    + intros H. split_bind H. split_bind Hx. injection Hx as <-.
      injection H as <- <-. simpl. rewrite ?Hd.
      repeat split; first [done|by left].
    + intros [= <- <-]. simpl. rewrite ?Hd. repeat split; first [done|by left].
Qed.

Lemma filter_delete_length {A} (f : A → bool) (l : list A) : ∀ i t,
  l !! i = Some t →
  length (List.filter f l)
  = length (List.filter f (delete i l)) + (if f t then 1 else 0).
Proof.
  induction l as [|x l IH]; intros [|i] t Hi; try done.
  - injection Hi as ->. cbn [List.filter]. change (delete 0 (t :: l)) with l.
    destruct (f t); cbn [length]; lia.
  - change (delete (S i) (x :: l)) with (x :: delete i l).
    cbn [List.filter]. specialize (IH i t Hi).
    destruct (f x); cbn [length]; lia.
Qed.

Section runs.
Variable parseFloat : value → float.
Variable production : bool.

(** The potential that no action can raise but [submitForm]: calls of
    [onSubmit] made plus submissions in flight. *)
Lemma step_potential a c c' :
  step parseFloat production a c = Some c' →
  (submitCalls c ≤ submitCalls c')%nat
  ∧ (submitCalls c' + submitsInFlight c'
     ≤ submitCalls c + submitsInFlight c
       + (if is_SubmitForm a then 1 else 0))%nat.
Proof.
  intros Hstep. pose proof (step_advances _ _ _ _ _ Hstep) as Hadv.
  assert (∀ n, advances n c c' →
            (submitCalls c ≤ submitCalls c')%nat
            ∧ (submitCalls c' + submitsInFlight c'
               ≤ submitCalls c + submitsInFlight c + n)%nat) as Hgen.
  { intros n (_ & log & new & Ht & Hlog & Hq & Hn).
    unfold submitCalls, submitsInFlight.
    rewrite Ht, Hq, !List.filter_app, !length_app, Hlog, Hn. simpl. lia. }
  destruct a; try exact (Hgen _ Hadv).
  - subst c'. unfold submitCalls, submitsInFlight; simpl; lia.
  - subst c'. unfold submitCalls, submitsInFlight; simpl; lia.
  - simpl in Hstep. destruct (settle i c) as [[c2 r]|] eqn:Hs; [|done].
    injection Hstep as ->.
    apply settle_inv in Hs as (t & Hi & Ht).
    apply runTask_frame in Ht
      as (Hq & _ & _ & _ & _ & _ & _ & _ & _ & Htrace).
    simpl in Hq, Htrace.
    unfold submitCalls, submitsInFlight. rewrite Hq. simpl.
    rewrite (filter_delete_length awaitsSubmit _ _ _ Hi).
    destruct Htrace as [->|[Ha ->]].
    + destruct (awaitsSubmit t); lia.
    + rewrite Ha, List.filter_app, length_app. simpl. lia.
Qed.

Lemma step_fields a c c' :
  step parseFloat production a c = Some c' →
  fields c'
  = match a with
    | RegisterField name fns => obj_set name fns (fields c)
    | UnregisterField name => obj_delete name (fields c)
    | _ => fields c
    end.
Proof.
  intros Hstep. pose proof (step_advances _ _ _ _ _ Hstep) as Hadv.
  destruct a; try (by destruct Hadv as (Hf & _)); try (by subst c').
  simpl in Hstep. destruct (settle i c) as [[c2 r]|] eqn:Hs; [|done].
  injection Hstep as ->.
  apply settle_inv in Hs as (t & _ & Ht).
  by apply runTask_frame in Ht as (_ & _ & Hf & _).
Qed.

Lemma startValidations_state k v c c' :
  startValidations k v c = Some c' →
  state c' = set_isValidating true (state c)
  ∧ props c' = props c
  ∧ trace c' = trace c ∧ fields c' = fields c
  ∧ ∃ r, combinedErrors c v = Some r
         ∧ pending c' = pending c ++ [{| continuation := k; result := r |}].
Proof.
  intros (r & Hr & ->)%startValidations_inv. repeat split. by exists r.
Qed.

Lemma warnIfMissing_state field handlerName c :
  state (warnIfMissing production field handlerName c) = state c
  ∧ props (warnIfMissing production field handlerName c) = props c.
Proof. unfold warnIfMissing. by destruct (_ && _). Qed.

(** What the actions other than a caller's own state update, a reset and a
    reinitialising render do to [initialValues] and to [submitCount]. *)
Lemma step_baseline a c c' :
  keepsBaseline a = true →
  step parseFloat production a c = Some c' →
  initialValues (state c') = initialValues (state c)
  ∧ submitCount (state c')
    = submitCount (state c) + (if is_SubmitForm a then 1 else 0).
Proof.
  assert (∀ updater k v c1,
            (∀ s, initialValues (updater s) = initialValues s
                  ∧ submitCount (updater s) = submitCount s) →
            startValidations k v (setState updater c) = Some c1 →
            initialValues (state c1) = initialValues (state c)
            ∧ submitCount (state c1) = submitCount (state c) + 0) as Hval.
  { intros updater k v c1 Hu (Hs & _)%startValidations_state.
    rewrite Hs. cbn [state setState with_state initialValues
                     submitCount set_isValidating].
    destruct (Hu (state c)) as [-> ->]. split; [done|lia]. }
  assert (∀ updater,
            (∀ s, initialValues (updater s) = initialValues s
                  ∧ submitCount (updater s) = submitCount s) →
            initialValues (state (setState updater c))
            = initialValues (state c)
            ∧ submitCount (state (setState updater c))
              = submitCount (state c) + 0) as Hset.
  { intros updater Hu. cbn [state setState with_state].
    destruct (Hu (state c)) as [-> ->]. split; [done|lia]. }
  intros Hkeep. destruct a; try done; cbn [step is_SubmitForm]; intros H.
  - unfold componentDidMount, runValidations in H.
    destruct (validateOnLoad _).
    + apply startValidations_state in H as (-> & _). simpl. split; [done|lia].
    + injection H as <-. simpl. split; [done|lia].
  - injection H as <-. simpl. split; [done|lia].
  - injection H as <-. unfold receiveProps, getDerivedStateFromProps.
    cbn [keepsBaseline] in Hkeep. apply negb_true_iff in Hkeep.
    rewrite Hkeep. simpl. split; [done|lia].
  - injection H as <-. simpl. split; [done|lia].
  - injection H as <-. simpl. split; [done|lia].
  - unfold executeChange, runValidations in H.
    destruct (negb _).
    + split_bind H. destruct (validateOnChange (props c)).
      * split_bind H. apply startValidations_state in H as (-> & _).
        cbn [state setState with_state initialValues submitCount
             set_isValidating set_values].
        rewrite !(proj1 (warnIfMissing_state _ _ _)). split; [done|lia].
      * injection H as <-.
        cbn [state setState with_state initialValues submitCount set_values].
        rewrite !(proj1 (warnIfMissing_state _ _ _)). split; [done|lia].
    + injection H as <-.
      rewrite !(proj1 (warnIfMissing_state _ _ _)). split; [done|lia].
  - unfold executeBlur, runValidations in H. split_bind H.
    destruct (validateOnBlur (props c)).
    + apply startValidations_state in H as (-> & _).
      cbn [state setState with_state initialValues submitCount
           set_isValidating set_touched].
      rewrite !(proj1 (warnIfMissing_state _ _ _)). split; [done|lia].
    + injection H as <-.
      cbn [state setState with_state initialValues submitCount set_touched].
      rewrite !(proj1 (warnIfMissing_state _ _ _)). split; [done|lia].
  - unfold setFieldValue, runValidations in H. split_bind H.
    destruct (_ && _); [by apply Hval in H|].
    injection H as <-. by apply Hset.
  - unfold setFieldTouched, runValidations in H. split_bind H.
    destruct (_ && _); [by apply Hval in H|].
    injection H as <-. by apply Hset.
  - unfold setFieldError in H. split_bind H. injection H as <-. by apply Hset.
  - injection H as <-. by apply Hset.
  - unfold setTouched, runValidations in H.
    destruct (validateOnBlur _); [by apply Hval in H|].
    injection H as <-. by apply Hset.
  - unfold setValues, runValidations in H.
    destruct (validateOnChange _); [by apply Hval in H|].
    injection H as <-. by apply Hset.
  - injection H as <-. by apply Hset.
  - injection H as <-. by apply Hset.
  - apply startValidations_state in H as (-> & _). simpl. split; [done|lia].
  - injection H as <-. simpl. split; [done|lia].
  - unfold submitForm in H.
    apply startValidations_state in H as (-> & _). by simpl.
  - destruct (settle i c) as [[c2 r]|] eqn:Hs; [|done]. injection H as ->.
    apply settle_inv in Hs as (t & _ & Ht).
    apply runTask_frame in Ht as (_ & _ & _ & _ & _ & Hi & _ & _ & Hn & _).
    simpl in Hi, Hn. split; [done|lia].
Qed.

End runs.

(** X1 (what a settlement touches).  Settling a promise removes exactly
    that task from the promises in flight and queues none; it leaves the
    configuration, the registry, the mount flag, [values], [initialValues],
    [touched], [status] and [submitCount] as they are; and it calls
    [onSubmit] at most once, with the current values, and only for a task
    queued by [submitForm]. *)
Theorem settle_frame (i : nat) (c c' : Formik) (r : settled value) :
  settle i c = Some (c', r) →
  ∃ t, pending c !! i = Some t
       ∧ pending c' = delete i (pending c)
       ∧ props c' = props c
       ∧ fields c' = fields c
       ∧ didMount c' = didMount c
       ∧ values (state c') = values (state c)
       ∧ initialValues (state c') = initialValues (state c)
       ∧ touched (state c') = touched (state c)
       ∧ status (state c') = status (state c)
       ∧ submitCount (state c') = submitCount (state c)
       ∧ (trace c' = trace c
          ∨ (awaitsSubmit t = true
             ∧ trace c' = trace c ++ [OnSubmit (values (state c))])).
Proof.
  intros (t & Hi & Ht)%settle_inv. apply runTask_frame in Ht.
  exists t. split; [exact Hi|]. exact Ht.
Qed.

Lemma settle_frame_witness :
  let c :=
    with_didMount true
      (constructor
         {| props_initialValues := VObject [("name", VString "jared")];
            validateOnChange := true; validateOnBlur := true;
            validateOnLoad := false; enableReinitialize := false;
            props_validate := None; validationSchema := None;
            props_onSubmit := λ _, Returns VUndefined |}) in
  ∃ c1 c2 r,
    submitForm c = Some c1
    ∧ settle 0 c1 = Some (c2, r)
    ∧ pending c2 = []
    ∧ values (state c2) = VObject [("name", VString "jared")]
    ∧ submitCount (state c2) = 1.
Proof.
  intros c.
  pose_some (submitForm c) c1. pose_some (settle 0 c1) cr.
  exists c1, cr.1, cr.2. split; [reflexivity|]. split; [reflexivity|].
  destruct (settle_frame 0 c1 cr.1 cr.2 eq_refl)
    as (t & _ & Hp & _ & _ & _ & Hv & _ & _ & _ & Hn & _).
  split; [exact Hp|]. split; [exact Hv|exact Hn].
Defined.

(** ** Whole executions *)

(** X2 (one call of [onSubmit] per submission at most).  Over any
    execution the calls of [onSubmit] made so far plus the submissions
    whose validation is still in flight grow by at most the number of
    [submitForm] calls; the calls made are never taken back. *)
Theorem run_submits_at_most_once_per_submitForm
    (parseFloat : value → float) (production : bool)
    (actions : list Action) (c c' : Formik) :
  run parseFloat production actions c = Some c' →
  (submitCalls c ≤ submitCalls c')%nat
  ∧ (submitCalls c' + submitsInFlight c'
     ≤ submitCalls c + submitsInFlight c
       + length (List.filter is_SubmitForm actions))%nat.
Proof.
  revert c. induction actions as [|a actions IH]; intros c Hrun.
  - injection Hrun as <-. simpl. lia.
  - cbn [run] in Hrun. split_bind Hrun.
    apply step_potential in Hx as (Hmono & Hpot).
    destruct (IH _ Hrun) as [Hmono' Hpot'].
    cbn [List.filter]. destruct (is_SubmitForm a); cbn [length] in *; lia.
Qed.

Lemma run_submits_at_most_once_per_submitForm_witness :
  let c :=
    constructor
      {| props_initialValues := VObject [("name", VString "jared")];
         validateOnChange := true; validateOnBlur := true;
         validateOnLoad := false; enableReinitialize := false;
         props_validate := None; validationSchema := None;
         props_onSubmit := λ _, Returns VUndefined |} in
  ∃ c',
    run (λ _, nan) false
      [Mount; SubmitForm; SubmitForm; Settle 0; ResetForm VUndefined; Settle 0] c
    = Some c'
    ∧ (submitCalls c' + submitsInFlight c' ≤ 2)%nat.
Proof.
  intros c.
  pose_some (run (λ _, nan) false
               [Mount; SubmitForm; SubmitForm; Settle 0; ResetForm VUndefined;
                Settle 0] c) c'.
  exists c'. split; [reflexivity|].
  exact (proj2 (run_submits_at_most_once_per_submitForm (λ _, nan) false
                  [Mount; SubmitForm; SubmitForm; Settle 0;
                   ResetForm VUndefined; Settle 0] c c' eq_refl)).
Defined.

(** X3 (what leaves [initialValues] alone).  The life cycle, the
    registrations, the two event handlers, the setters, validation,
    submission, the settlement of promises and a render under props that do
    not enable reinitialisation leave [initialValues] as it is: over an
    execution made of these, [dirty] compares the values with the same
    initial values throughout.  (A caller's own update through
    [setFormikState], a render under props that enable reinitialisation and
    a reset are not among them.) *)
Theorem run_keeps_initialValues
    (parseFloat : value → float) (production : bool)
    (actions : list Action) (c c' : Formik) :
  forallb keepsBaseline actions = true →
  run parseFloat production actions c = Some c' →
  initialValues (state c') = initialValues (state c)
  ∧ dirty c' = negb (isEqual (initialValues (state c)) (values (state c'))).
Proof.
  revert c. induction actions as [|a actions IH]; intros c Hkeep Hrun.
  - by injection Hrun as <-.
  - cbn [run] in Hrun. split_bind Hrun.
    cbn [forallb] in Hkeep. apply andb_prop in Hkeep as [Ha Hkeep].
    apply step_baseline in Hx as (Hi & _); [|exact Ha].
    destruct (IH _ Hkeep Hrun) as (Hi' & Hd).
    unfold dirty in *. rewrite Hd, Hi', Hi. done.
Qed.

Lemma run_keeps_initialValues_witness :
  let p :=
    {| props_initialValues := VObject [("name", VString "jared")];
       validateOnChange := true; validateOnBlur := true;
       validateOnLoad := false; enableReinitialize := false;
       props_validate := None; validationSchema := None;
       props_onSubmit := λ _, Returns VUndefined |} in
  ∃ c',
    run (λ _, nan) false
      [Render p; Mount; SetFieldValue "name" (VString "ian") true; Render p;
       SubmitForm; Settle 0; Settle 0] (constructor p)
    = Some c'
    ∧ initialValues (state c') = VObject [("name", VString "jared")]
    ∧ dirty c' = true.
Proof.
  intros p.
  pose_some (run (λ _, nan) false
               [Render p; Mount; SetFieldValue "name" (VString "ian") true;
                Render p; SubmitForm; Settle 0; Settle 0] (constructor p)) c'.
  exists c'. split; [reflexivity|]. split; [|reflexivity].
  exact (proj1 (run_keeps_initialValues (λ _, nan) false
                  [Render p; Mount; SetFieldValue "name" (VString "ian") true;
                   Render p; SubmitForm; Settle 0; Settle 0]
                  (constructor p) c' eq_refl eq_refl)).
Defined.

(** X4 (the registry is keyed by name, last registration wins).  After any
    execution the registry holds for a name what the last [registerField]
    or [unregisterField] of that name left; validation, submission and
    reset leave the registry alone, and no name is registered twice. *)
Theorem run_registry_last_registration
    (parseFloat : value → float) (production : bool)
    (actions : list Action) (c c' : Formik) :
  run parseFloat production actions c = Some c' →
  (∀ name,
     obj_get name (fields c')
     = match lastRegistration name actions with
       | Some r => r
       | None => obj_get name (fields c)
       end)
  ∧ (NoDup (keys (fields c)) → NoDup (keys (fields c'))).
Proof.
  revert c. induction actions as [|a actions IH]; intros c Hrun.
  - by injection Hrun as <-.
  - cbn [run] in Hrun. split_bind Hrun.
    apply step_fields in Hx. destruct (IH _ Hrun) as [Hget Hnd]. split.
    + intros name. rewrite Hget. cbn [lastRegistration].
      destruct (lastRegistration name actions) as [r|]; [done|].
      rewrite Hx. destruct a; try done.
      * destruct (String.eqb name0 name) eqn:E.
        -- apply String.eqb_eq in E. subst. apply obj_get_set_eq.
        -- apply String.eqb_neq in E. by apply obj_get_set_ne.
      * destruct (String.eqb name0 name) eqn:E.
        -- apply String.eqb_eq in E. subst. apply obj_get_delete_eq.
        -- apply String.eqb_neq in E. by apply obj_get_delete_ne.
    + intros Hc. apply Hnd. rewrite Hx. destruct a; try done.
      * by apply NoDup_keys_obj_set.
      * by apply NoDup_keys_obj_delete.
Qed.

Lemma run_registry_last_registration_witness :
  let c :=
    constructor
      {| props_initialValues := VObject [("name", VString "jared")];
         validateOnChange := true; validateOnBlur := true;
         validateOnLoad := false; enableReinitialize := false;
         props_validate := None; validationSchema := None;
         props_onSubmit := λ _, Returns VUndefined |} in
  ∃ c',
    run (λ _, nan) false
      [RegisterField "name" {| validate := None |}; Mount;
       RegisterField "email" {| validate := None |};
       UnregisterField "name"; ResetForm VUndefined] c
    = Some c'
    ∧ obj_get "name" (fields c') = None
    ∧ obj_get "email" (fields c') = Some {| validate := None |}.
Proof.
  intros c.
  pose_some (run (λ _, nan) false
               [RegisterField "name" {| validate := None |}; Mount;
                RegisterField "email" {| validate := None |};
                UnregisterField "name"; ResetForm VUndefined] c) c'.
  exists c'. split; [reflexivity|].
  pose proof (proj1 (run_registry_last_registration (λ _, nan) false
                  [RegisterField "name" {| validate := None |}; Mount;
                   RegisterField "email" {| validate := None |};
                   UnregisterField "name"; ResetForm VUndefined]
                  c c' eq_refl)) as H.
  split; [exact (H "name")|exact (H "email")].
Defined.

(** ** Field registrations *)

(** X5 (a field keeps its registration current).  If the registry holds
    the previous name with the previous validator, then after
    [componentDidUpdate] it holds the current name with the current
    validator, the previous name is gone when the name changed, every other
    registration is untouched, and nothing else of the controller moved. *)
Theorem Field_componentDidUpdate_registration
    (prevName name : string) (validateChanged : bool)
    (prevValidator validator : option (value → outcome)) (c : Formik) :
  obj_get prevName (fields c) = Some {| validate := prevValidator |} →
  (validateChanged = false → validator = prevValidator) →
  let c' := Field_componentDidUpdate prevName name validateChanged validator c in
  obj_get name (fields c') = Some {| validate := validator |}
  ∧ (name ≠ prevName → obj_get prevName (fields c') = None)
  ∧ (∀ other, other ≠ name → other ≠ prevName →
              obj_get other (fields c') = obj_get other (fields c))
  ∧ state c' = state c ∧ pending c' = pending c ∧ trace c' = trace c.
Proof.
  intros Hprev Hsame c'. subst c'. unfold Field_componentDidUpdate.
  destruct (String.eqb name prevName) eqn:E; cbn [negb].
  - apply String.eqb_eq in E. subst prevName.
    destruct validateChanged; cbn [registerField with_fields fields].
    + split; [apply obj_get_set_eq|]. split; [done|].
      split; [|done]. intros other Hne _. by apply obj_get_set_ne.
    + rewrite Hsame by done. split; [exact Hprev|]. by repeat split.
  - apply String.eqb_neq in E.
    assert (∀ fs,
              obj_get prevName (obj_set name {| validate := validator |}
                                  (obj_delete prevName fs)) = None) as Hgone.
    { intros fs. rewrite obj_get_set_ne by done. apply obj_get_delete_eq. }
    assert (∀ fs other, other ≠ name → other ≠ prevName →
              obj_get other (obj_set name {| validate := validator |}
                               (obj_delete prevName fs)) = obj_get other fs)
      as Hother.
    { intros fs other Hn Hp. rewrite obj_get_set_ne by done.
      by apply obj_get_delete_ne. }
    destruct validateChanged;
      cbn [registerField unregisterField with_fields fields state pending trace].
    + split; [apply obj_get_set_eq|]. split.
      * intros _. rewrite obj_get_set_ne by done. apply Hgone.
      * split; [|done]. intros other Hn Hp.
        rewrite obj_get_set_ne by done. by apply Hother.
    + split; [apply obj_get_set_eq|]. split; [intros _; apply Hgone|].
      split; [|done]. intros other Hn Hp. by apply Hother.
Qed.

Lemma Field_componentDidUpdate_registration_witness :
  let required := Some (λ v, if truthy v then Returns VUndefined
                             else Returns (VString "required")) in
  let c :=
    Field_constructor "email" None
      (Field_constructor "name" required
         (constructor
            {| props_initialValues := VObject [("name", VString "jared")];
               validateOnChange := true; validateOnBlur := true;
               validateOnLoad := false; enableReinitialize := false;
               props_validate := None; validationSchema := None;
               props_onSubmit := λ _, Returns VUndefined |})) in
  let c' := Field_componentDidUpdate "name" "user.name" false required c in
  obj_get "user.name" (fields c') = Some {| validate := required |}
  ∧ obj_get "name" (fields c') = None
  ∧ obj_get "email" (fields c') = Some {| validate := None |}.
Proof.
  intros required c c'.
  destruct (Field_componentDidUpdate_registration
              "name" "user.name" false required required c eq_refl (λ _, eq_refl))
    as (Hname & Hprev & Hother & _).
  split; [exact Hname|]. split; [by apply Hprev|].
  etrans; [apply (Hother "email"); done|reflexivity].
Defined.

(** X6 (fields that share a name share one registration).  The second
    field registered under a name replaces the validator of the first, and
    when either of them unmounts the name is unregistered for both: the
    validator of the field that stays is no longer part of the batch, and
    [validateField] of that name rejects. *)
Theorem Field_unmount_unregisters_sibling
    (name : string) (first second : option (value → outcome)) (c : Formik) :
  let both := Field_constructor name second (Field_constructor name first c) in
  let one := Field_componentWillUnmount name both in
  obj_get name (fields both) = Some {| validate := second |}
  ∧ obj_get name (fields one) = None
  ∧ ¬ In name (fieldKeysWithValidation (fields one))
  ∧ (∀ v, runSingleFieldLevelValidation (fields one) name v = Rejected TypeError)
  ∧ (∀ other, other ≠ name →
              obj_get other (fields one) = obj_get other (fields c)).
Proof.
  intros both one. subst both one.
  unfold Field_componentWillUnmount, Field_constructor, registerField,
    unregisterField. cbn [with_fields fields].
  split; [apply obj_get_set_eq|].
  assert (∀ fs : list (string * FieldFns), obj_get name (obj_delete name fs) = None)
    as Hgone by (intros fs; apply obj_get_delete_eq).
  split; [apply Hgone|]. split; [|split].
  - unfold fieldKeysWithValidation. rewrite filter_In.
    intros [_ Hv]. unfold hasValidate in Hv. by rewrite Hgone in Hv.
  - intros v. unfold runSingleFieldLevelValidation. by rewrite Hgone.
  - intros other Hne.
    rewrite obj_get_delete_ne, !obj_get_set_ne by done. done.
Qed.

(** ** Field-level validation *)

Lemma filter_fmap_fst {A} (g : string → bool) (l : list (string * A)) :
  List.filter g (keys l) = keys (List.filter (λ kv, g kv.1) l).
Proof.
  unfold keys. induction l as [|[k v] l IH]; [done|].
  rewrite fmap_cons. cbn [List.filter fst].
  destruct (g k); rewrite ?fmap_cons, IH; done.
Qed.

Lemma filter_ext_In {A} (f g : A → bool) (l : list A) :
  (∀ x, In x l → f x = g x) → List.filter f l = List.filter g l.
Proof.
  induction l as [|x l IH]; [done|]. intros H. cbn [List.filter].
  rewrite (H x) by by left. rewrite IH; [done|].
  intros y Hy. apply H. by right.
Qed.

Lemma hasValidate_entry fields k fns :
  NoDup (keys fields) → In (k, fns) fields →
  hasValidate fields k = entryHasValidate (k, fns).
Proof.
  intros Hnd Hin. unfold hasValidate, entryHasValidate.
  by rewrite (obj_get_NoDup fields k fns Hnd Hin).
Qed.

Lemma fieldKeysWithValidation_entries fields :
  NoDup (keys fields) →
  fieldKeysWithValidation fields = keys (List.filter entryHasValidate fields).
Proof.
  intros Hnd. unfold fieldKeysWithValidation. rewrite filter_fmap_fst.
  f_equal. apply filter_ext_In. intros [k fns] Hin.
  by apply hasValidate_entry.
Qed.

Lemma NoDup_keys_filter {A} (f : string * A → bool) (l : list (string * A)) :
  NoDup (keys l) → NoDup (keys (List.filter f l)).
Proof.
  unfold keys. induction l as [|[k v] l IH]; [done|].
  rewrite fmap_cons. intros [Hk Hl]%NoDup_cons. cbn [List.filter].
  destruct (f (k, v)); [|by apply IH].
  rewrite fmap_cons. apply NoDup_cons. split; [|by apply IH].
  intros Hin. apply Hk. apply list_elem_of_fmap in Hin as ([k' v'] & -> & Hin).
  apply list_elem_of_In, filter_In in Hin as [Hin _].
  apply list_elem_of_fmap. exists (k', v'). split; [done|].
  by apply list_elem_of_In.
Qed.

(** X7 (registrations without a validator take no part in the batch).
    The batch of field-level validations is the batch of the registrations
    that have a validator: the other registrations neither run nor
    contribute an entry. *)
Theorem runFieldLevelValidations_skips_unvalidated
    (fields : list (string * FieldFns)) (values : value) :
  NoDup (keys fields) →
  fieldKeysWithValidation fields = keys (List.filter entryHasValidate fields)
  ∧ fieldValidations fields values
    = fieldValidations (List.filter entryHasValidate fields) values
  ∧ runFieldLevelValidations fields values
    = runFieldLevelValidations (List.filter entryHasValidate fields) values.
Proof.
  intros Hnd.
  pose proof (fieldKeysWithValidation_entries fields Hnd) as Hkeys.
  pose proof (NoDup_keys_filter entryHasValidate fields Hnd) as Hnd'.
  assert (fieldKeysWithValidation (List.filter entryHasValidate fields)
          = fieldKeysWithValidation fields) as Hsame.
  { rewrite (fieldKeysWithValidation_entries _ Hnd'), Hkeys. f_equal.
    clear. induction fields as [|kv l IH]; [done|]. cbn [List.filter].
    destruct (entryHasValidate kv) eqn:E; [|done].
    cbn [List.filter]. by rewrite E, IH. }
  assert (fieldValidations fields values
          = fieldValidations (List.filter entryHasValidate fields) values)
    as Hvalidations.
  { unfold fieldValidations. rewrite Hsame.
    destruct (Nat.ltb 0 (length (fieldKeysWithValidation fields))); [|done].
    apply map_ext_in. intros k Hk. f_equal.
    unfold runSingleFieldLevelValidation. rewrite Hkeys in Hk.
    apply list_elem_of_In, list_elem_of_fmap in Hk as ([k' fns] & -> & Hin).
    apply list_elem_of_In in Hin. cbn [fst].
    rewrite (obj_get_NoDup _ k' fns Hnd' Hin).
    apply filter_In in Hin as [Hin _].
    by rewrite (obj_get_NoDup _ k' fns Hnd Hin). }
  split; [exact Hkeys|]. split; [exact Hvalidations|].
  unfold runFieldLevelValidations. by rewrite Hvalidations, Hsame.
Qed.

Lemma runFieldLevelValidations_skips_unvalidated_witness :
  let fields :=
    [("email", {| validate := Some (λ _, Returns (VString "required")) |});
     ("note", {| validate := None |});
     ("age", {| validate := Some (λ _, Throws (VString "too young")) |})] in
  runFieldLevelValidations fields (VObject [])
  = runFieldLevelValidations
      [("email", {| validate := Some (λ _, Returns (VString "required")) |});
       ("age", {| validate := Some (λ _, Throws (VString "too young")) |})]
      (VObject []).
Proof.
  intros fields.
  assert (NoDup (keys fields)) as Hnd.
  { apply (bool_decide_unpack _). reflexivity. }
  exact (proj2 (proj2 (runFieldLevelValidations_skips_unvalidated
                         fields (VObject []) Hnd))).
Defined.

(** ** The validation pipeline *)

Lemma combinedErrors_ext c c' values :
  fields c' = fields c → props c' = props c →
  combinedErrors c' values = combinedErrors c values.
Proof.
  intros Hf Hp. unfold combinedErrors, schemaErrorsOf, handlerErrorsOf.
  by rewrite Hf, Hp.
Qed.

Lemma runFieldLevelValidations_not_rejected fields values e :
  runFieldLevelValidations fields values ≠ Some (Rejected e).
Proof.
  rewrite runFieldLevelValidations_entries. by destruct (writeAll _ _).
Qed.

Lemma handlerErrorsOf_throws c values validate e :
  props_validate (props c) = Some validate → validate values = Throws e →
  handlerErrorsOf c values = Rejected e.
Proof.
  intros Hv Ht. unfold handlerErrorsOf, runValidateHandler. by rewrite Hv, Ht.
Qed.

(** The rejection of [Promise.all] when the form-level [validate] throws:
    the promise of the schema comes first. *)
Lemma combinedErrors_validate_throws c values validate e :
  props_validate (props c) = Some validate → validate values = Throws e →
  is_Some (runFieldLevelValidations (fields c) values) →
  is_Some (schemaErrorsOf c values) →
  combinedErrors c values
  = Some (Rejected (match schemaErrorsOf c values with
                    | Some (Rejected e') => e'
                    | _ => e
                    end)).
Proof.
  intros Hv Ht [f Hf] [s Hs]. unfold combinedErrors.
  rewrite Hf, Hs, (handlerErrorsOf_throws c values validate e Hv Ht). simpl.
  destruct f as [f|e']; [|by apply runFieldLevelValidations_not_rejected in Hf].
  by destruct s.
Qed.

Lemma settle_middle c l1 t l2 :
  pending c = l1 ++ t :: l2 →
  settle (length l1) c = runTask t (with_pending (l1 ++ l2) c).
Proof.
  intros H. unfold settle. rewrite H, list_lookup_middle by done. simpl.
  by rewrite delete_middle.
Qed.

Lemma startValidations_eq k v c r :
  combinedErrors c v = Some r →
  startValidations k v c
  = Some (with_pending (pending c ++ [{| continuation := k; result := r |}])
            (setState (set_isValidating true) c)).
Proof.
  intros Hc. unfold startValidations. rewrite combinedErrors_setState, Hc. done.
Qed.

(** X9 (a throwing [validate] leaves the submission undecided).  When the
    form-level [validate] throws, the promise of [submitForm] is rejected,
    with what [validate] threw unless the schema has rejected the pipeline
    before, and its continuation does not run: [onSubmit] is not called,
    the errors are not written, and [isSubmitting] and [isValidating] stay
    [true]. *)
Theorem submitForm_validate_throws_stays_submitting
    (c : Formik) (validate : value → outcome) (e : value) :
  props_validate (props c) = Some validate →
  validate (values (state c)) = Throws e →
  is_Some (runFieldLevelValidations (fields c) (values (state c))) →
  is_Some (schemaErrorsOf c (values (state c))) →
  ∃ c1 c2,
    submitForm c = Some c1
    ∧ settle (length (pending c)) c1
      = Some (c2, Rejected (match schemaErrorsOf c (values (state c)) with
                            | Some (Rejected e') => e'
                            | _ => e
                            end))
    ∧ isSubmitting (state c2) = true
    ∧ isValidating (state c2) = true
    ∧ errors (state c2) = errors (state c)
    ∧ trace c2 = trace c
    ∧ pending c2 = pending c.
Proof.
  intros Hv Ht Hf Hs.
  pose proof (combinedErrors_validate_throws c _ validate e Hv Ht Hf Hs) as Hc.
  unfold submitForm. cbn [values state setState with_state set_submitCount
                           set_isSubmitting set_touched].
  erewrite startValidations_eq by (rewrite combinedErrors_setState; exact Hc).
  eexists _, _. split; [reflexivity|].
  erewrite (settle_middle _ (pending c) _ []) by reflexivity.
  cbn [runTask result]. split; [reflexivity|]. simpl.
  by rewrite app_nil_r.
Qed.

Lemma submitForm_validate_throws_stays_submitting_witness :
  let c :=
    with_didMount true
      (constructor
         {| props_initialValues := VObject [("name", VString "jared")];
            validateOnChange := true; validateOnBlur := true;
            validateOnLoad := false; enableReinitialize := false;
            props_validate := Some (λ _, Throws (VString "boom"));
            validationSchema := None;
            props_onSubmit := λ _, Returns VUndefined |}) in
  ∃ c1 c2,
    submitForm c = Some c1
    ∧ settle 0 c1 = Some (c2, Rejected (VString "boom"))
    ∧ isSubmitting (state c2) = true
    ∧ isValidating (state c2) = true
    ∧ trace c2 = [].
Proof.
  intros c.
  destruct (submitForm_validate_throws_stays_submitting
              c (λ _, Throws (VString "boom")) (VString "boom")
              eq_refl eq_refl (mk_is_Some _ _ eq_refl) (mk_is_Some _ _ eq_refl))
    as (c1 & c2 & H1 & H2 & Hs & Hv & _ & Ht & _).
  exists c1, c2. split; [exact H1|]. split; [exact H2|].
  split; [exact Hs|]. split; [exact Hv|exact Ht].
Defined.

(** X10 (what a promise returned by [validate] reports).  A form-level
    [validate] that returns a promise reports errors only by rejecting: the
    reason of a rejection is what the promise of the handler is fulfilled
    with, the form-level error tree, and the value of a fulfilled promise is
    dropped, so that the pipeline settles as if no [validate] were
    configured. *)
Theorem validate_promise_reports_by_rejection
    (c : Formik) (values : value) (validate : value → outcome)
    (p : settled value) :
  props_validate (props c) = Some validate →
  validate values = ReturnsPromise p →
  match p with
  | Fulfilled _ =>
      handlerErrorsOf c values = Fulfilled (VObject [])
      ∧ combinedErrors c values
        = combinedErrors (with_props (without_validate (props c)) c) values
  | Rejected errors => handlerErrorsOf c values = Fulfilled errors
  end.
Proof.
  intros Hv Ht.
  assert (handlerErrorsOf c values
          = match p with
            | Fulfilled _ => Fulfilled (VObject [])
            | Rejected errors => Fulfilled errors
            end) as Hh.
  { unfold handlerErrorsOf, runValidateHandler. rewrite Hv, Ht. by destruct p. }
  destruct p as [x|errors]; [|exact Hh].
  split; [exact Hh|]. unfold combinedErrors, schemaErrorsOf. by rewrite Hh.
Qed.

Lemma validate_promise_reports_by_rejection_witness :
  let c :=
    constructor
      {| props_initialValues := VObject [("name", VString "")];
         validateOnChange := true; validateOnBlur := true;
         validateOnLoad := false; enableReinitialize := false;
         props_validate :=
           Some (λ _, ReturnsPromise
                        (Fulfilled (VObject [("name", VString "required")])));
         validationSchema := None;
         props_onSubmit := λ _, Returns VUndefined |} in
  combinedErrors c (values (state c)) = Some (Fulfilled (VObject [])).
Proof.
  intros c.
  exact (proj2 (validate_promise_reports_by_rejection c (values (state c))
           (λ _, ReturnsPromise
                   (Fulfilled (VObject [("name", VString "required")])))
           (Fulfilled (VObject [("name", VString "required")]))
           eq_refl eq_refl)).
Defined.

(** ** Validations in flight *)

Lemma runValidations_eq v c r :
  combinedErrors c v = Some r →
  runValidations v c
  = Some (with_pending
            (pending c ++ [{| continuation := AfterRunValidations; result := r |}])
            (setState (set_isValidating true) c)).
Proof. apply startValidations_eq. Qed.

(** X11 (the settlement that comes last is the one that stays).  Two
    validations in flight are not ordered by when they were started: when
    the newer one settles first and the older one after it, the errors of
    the older one replace those of the newer, and [isValidating] is already
    [false] while the older is still in flight. *)
Theorem older_validation_settling_last_overwrites
    (c : Formik) (v1 v2 e1 e2 : value) :
  didMount c = true →
  combinedErrors c v1 = Some (Fulfilled e1) →
  combinedErrors c v2 = Some (Fulfilled e2) →
  ∃ c1 c2 c3 c4,
    runValidations v1 c = Some c1
    ∧ runValidations v2 c1 = Some c2
    ∧ settle (length (pending c1)) c2 = Some (c3, Fulfilled e2)
    ∧ errors (state c3) = e2
    ∧ isValidating (state c3) = false
    ∧ pending c3 = pending c1
    ∧ settle (length (pending c)) c3 = Some (c4, Fulfilled e1)
    ∧ errors (state c4) = e1
    ∧ pending c4 = pending c.
Proof.
  intros Hm H1 H2.
  rewrite (runValidations_eq v1 c _ H1).
  eexists _, _, _, _. split; [reflexivity|].
  erewrite runValidations_eq
    by (erewrite combinedErrors_ext; [exact H2|done..]).
  split; [reflexivity|].
  erewrite (settle_middle _ _ _ []) by reflexivity.
  cbn [runTask result continuation]. unfold afterValidations.
  cbn [didMount with_pending setState with_state]. rewrite Hm.
  split; [reflexivity|]. split; [done|]. split; [done|].
  split; [by rewrite app_nil_r|].
  rewrite app_nil_r.
  erewrite (settle_middle _ (pending c) _ []) by reflexivity.
  cbn [runTask result continuation]. unfold afterValidations.
  cbn [didMount with_pending setState with_state]. rewrite Hm.
  split; [reflexivity|]. split; [done|]. simpl. by rewrite app_nil_r.
Qed.

Lemma older_validation_settling_last_overwrites_witness :
  let c :=
    registerField "name"
      {| validate := Some (λ v, if truthy v then Returns VUndefined
                                else Returns (VString "required")) |}
      (with_didMount true
         (constructor
            {| props_initialValues := VObject [("name", VString "")];
               validateOnChange := true; validateOnBlur := true;
               validateOnLoad := false; enableReinitialize := false;
               props_validate := None; validationSchema := None;
               props_onSubmit := λ _, Returns VUndefined |})) in
  ∃ c1 c2 c3 c4,
    runValidations (VObject [("name", VString "")]) c = Some c1
    ∧ runValidations (VObject [("name", VString "jared")]) c1 = Some c2
    ∧ settle 1 c2 = Some (c3, Fulfilled (VObject []))
    ∧ settle 0 c3
      = Some (c4, Fulfilled (VObject [("name", VString "required")]))
    ∧ errors (state c4) = VObject [("name", VString "required")].
Proof.
  intros c.
  destruct (older_validation_settling_last_overwrites c
              (VObject [("name", VString "")])
              (VObject [("name", VString "jared")])
              (VObject [("name", VString "required")]) (VObject [])
              eq_refl eq_refl eq_refl)
    as (c1 & c2 & c3 & c4 & H1 & H2 & H3 & _ & _ & _ & H4 & He & _).
  exists c1, c2, c3, c4. split; [exact H1|]. split; [exact H2|].
  split; [|split; [exact H4|exact He]].
  injection H1 as <-. exact H3.
Defined.

(** X12 (a reset does not cancel a validation in flight).  [resetForm]
    leaves the promises in flight alone: a validation started before the
    reset writes its errors into the reset form when it settles. *)
Theorem resetForm_keeps_validation_in_flight
    (c : Formik) (v e nextValues : value) :
  didMount c = true →
  combinedErrors c v = Some (Fulfilled e) →
  ∃ c1 c2,
    runValidations v c = Some c1
    ∧ pending (resetForm nextValues c1) = pending c1
    ∧ settle (length (pending c)) (resetForm nextValues c1)
      = Some (c2, Fulfilled e)
    ∧ errors (state c2) = e
    ∧ values (state c2) = values (state (resetForm nextValues c))
    ∧ touched (state c2) = VObject []
    ∧ pending c2 = pending c.
Proof.
  intros Hm Hc. rewrite (runValidations_eq v c _ Hc).
  eexists _, _. split; [reflexivity|]. split; [done|].
  erewrite (settle_middle _ (pending c) _ []) by reflexivity.
  cbn [runTask result continuation]. unfold afterValidations.
  cbn [didMount with_pending resetForm setState with_state]. rewrite Hm.
  split; [reflexivity|]. split; [done|]. split; [done|]. split; [done|].
  simpl. by rewrite app_nil_r.
Qed.

Lemma resetForm_keeps_validation_in_flight_witness :
  let c :=
    registerField "name"
      {| validate := Some (λ v, if truthy v then Returns VUndefined
                                else Returns (VString "required")) |}
      (with_didMount true
         (constructor
            {| props_initialValues := VObject [("name", VString "jared")];
               validateOnChange := true; validateOnBlur := true;
               validateOnLoad := false; enableReinitialize := false;
               props_validate := None; validationSchema := None;
               props_onSubmit := λ _, Returns VUndefined |})) in
  ∃ c1 c2,
    runValidations (VObject [("name", VString "")]) c = Some c1
    ∧ settle 0 (resetForm VUndefined c1)
      = Some (c2, Fulfilled (VObject [("name", VString "required")]))
    ∧ errors (state c2) = VObject [("name", VString "required")]
    ∧ values (state c2) = VObject [("name", VString "jared")].
Proof.
  intros c.
  destruct (resetForm_keeps_validation_in_flight c
              (VObject [("name", VString "")])
              (VObject [("name", VString "required")]) VUndefined
              eq_refl eq_refl)
    as (c1 & c2 & H1 & _ & H2 & He & Hv & _).
  exists c1, c2. split; [exact H1|]. split; [exact H2|].
  split; [exact He|exact Hv].
Defined.

Lemma runTask_submit_valid c combined :
  Object_keys combined = Some [] →
  runTask {| continuation := AfterSubmitForm; result := Fulfilled combined |} c
  = Some ({| props := props c;
             state := if didMount c
                      then set_errors combined (set_isValidating false (state c))
                      else state c;
             didMount := didMount c; fields := fields c; pending := pending c;
             trace := trace c ++ [OnSubmit (values (state c))] |},
          callbackResult (props_onSubmit (props c) (values (state c)))).
Proof.
  intros Hk. cbn [runTask result continuation].
  unfold afterSubmitValidations. rewrite Hk. cbn [length Nat.eqb].
  unfold executeSubmit, afterValidations, log.
  by destruct (didMount c) eqn:Hm; simpl; rewrite ?Hm.
Qed.

(** X13 (no guard against a second submission).  [submitForm] does not
    look at [isSubmitting]: called twice before either validation settles,
    it queues two submissions, and a valid form calls [onSubmit] twice; each
    of the two promises settles as its call of [onSubmit] ends. *)
Theorem submitForm_twice_submits_twice (c : Formik) (combined : value) :
  combinedErrors c (values (state c)) = Some (Fulfilled combined) →
  Object_keys combined = Some [] →
  ∃ c1 c2 c3 c4,
    submitForm c = Some c1
    ∧ isSubmitting (state c1) = true
    ∧ submitForm c1 = Some c2
    ∧ settle (length (pending c)) c2
      = Some (c3, callbackResult (props_onSubmit (props c) (values (state c))))
    ∧ settle (length (pending c)) c3
      = Some (c4, callbackResult (props_onSubmit (props c) (values (state c))))
    ∧ trace c4
      = trace c ++ [OnSubmit (values (state c)); OnSubmit (values (state c))]
    ∧ submitCount (state c4) = submitCount (state c) + 2
    ∧ pending c4 = pending c.
Proof.
  intros Hc Hk. unfold submitForm.
  cbn [values state setState with_state set_submitCount set_isSubmitting
       set_touched].
  erewrite startValidations_eq by (rewrite combinedErrors_setState; exact Hc).
  eexists _, _, _, _. split; [reflexivity|]. split; [done|].
  cbn [values state setState with_state with_pending set_submitCount
       set_isSubmitting set_touched set_isValidating].
  erewrite startValidations_eq
    by (erewrite combinedErrors_ext; [exact Hc|done..]).
  split; [reflexivity|].
  cbn [pending with_pending setState with_state]. rewrite <- app_assoc.
  erewrite (settle_middle _ (pending c) _ [_]) by reflexivity.
  rewrite (runTask_submit_valid _ combined Hk). split; [reflexivity|].
  erewrite (settle_middle _ (pending c) _ []) by reflexivity.
  rewrite (runTask_submit_valid _ combined Hk).
  split.
  { refine (f_equal (λ r, Some (_, r)) _). simpl.
    by destruct (didMount c). }
  destruct (didMount c) eqn:Hm; simpl; rewrite ?Hm; simpl;
    rewrite <- ?app_assoc, ?app_nil_r; (split; [done|]); (split; [lia|done]).
Qed.

Lemma submitForm_twice_submits_twice_witness :
  let c :=
    with_didMount true
      (constructor
         {| props_initialValues := VObject [("name", VString "jared")];
            validateOnChange := true; validateOnBlur := true;
            validateOnLoad := false; enableReinitialize := false;
            props_validate := None; validationSchema := None;
            props_onSubmit := λ _, Returns VUndefined |}) in
  ∃ c1 c2 c3 c4,
    submitForm c = Some c1
    ∧ submitForm c1 = Some c2
    ∧ settle 0 c2 = Some (c3, Fulfilled VUndefined)
    ∧ settle 0 c3 = Some (c4, Fulfilled VUndefined)
    ∧ trace c4 = [OnSubmit (VObject [("name", VString "jared")]);
                  OnSubmit (VObject [("name", VString "jared")])].
Proof.
  intros c.
  destruct (submitForm_twice_submits_twice c (VObject []) eq_refl eq_refl)
    as (c1 & c2 & c3 & c4 & H1 & _ & H2 & H3 & H4 & Ht & _).
  exists c1, c2, c3, c4. split; [exact H1|]. split; [exact H2|].
  split; [exact H3|]. split; [exact H4|exact Ht].
Defined.

(** ** Change and blur handlers *)

Lemma warnIfMissing_named production field handlerName c :
  field ≠ "" → warnIfMissing production field handlerName c = c.
Proof.
  intros Hf%String.eqb_neq. unfold warnIfMissing. by rewrite Hf.
Qed.

(** X14 (a change event without an identifier).  When the target of a
    change event has neither a name nor an id, [handleChange] writes
    nothing and starts no validation; it reports the missing identifier on
    the console unless it runs in production. *)
Theorem handleChange_without_identifier
    (parseFloat : value → float) (production : bool)
    (target : Target) (c : Formik) :
  name target = "" → id target = "" →
  ∃ c', handleChange parseFloat production (inr target) c = inr (Some c')
        ∧ state c' = state c
        ∧ pending c' = pending c
        ∧ fields c' = fields c
        ∧ trace c'
          = trace c ++ (if production then [] else [ConsoleError "handleChange"]).
Proof.
  intros Hname Hid. unfold handleChange, executeChange, fieldOf.
  rewrite Hname, Hid. cbn [String.eqb negb]. unfold warnIfMissing.
  cbn [String.eqb andb]. eexists. split; [reflexivity|].
  destruct production; cbn [negb]; [|done].
  by rewrite app_nil_r.
Qed.

Lemma handleChange_without_identifier_witness :
  let c :=
    constructor
      {| props_initialValues := VObject [("name", VString "jared")];
         validateOnChange := true; validateOnBlur := true;
         validateOnLoad := false; enableReinitialize := false;
         props_validate := None; validationSchema := None;
         props_onSubmit := λ _, Returns VUndefined |} in
  let target := {| type := Some "text"; name := ""; id := "";
                   value_ := VString "ian"; checked := VUndefined;
                   outerHTML := "<input />" |} in
  ∃ c', handleChange (λ _, nan) false (inr target) c = inr (Some c')
        ∧ state c' = state c
        ∧ trace c' = [ConsoleError "handleChange"].
Proof.
  intros c target.
  destruct (handleChange_without_identifier (λ _, nan) false target c
              eq_refl eq_refl) as (c' & Hc & Hs & _ & _ & Ht).
  exists c'. split; [exact Hc|]. split; [exact Hs|exact Ht].
Defined.



Lemma executeBlur_eq production target c :
  executeBlur production target None c
  = touched' ← setIn (touched (state c)) (fieldOf None target) (VBool true);
    let c2 := setState (set_touched touched')
                (warnIfMissing production (fieldOf None target) "handleBlur" c) in
    if validateOnBlur (props c)
    then r ← combinedErrors c (values (state c));
         Some (with_pending
                 (pending c ++ [{| continuation := AfterRunValidations;
                                   result := r |}])
                 (setState (set_isValidating true) c2))
    else Some c2.
Proof.
  unfold executeBlur, runValidations, startValidations.
  destruct (setIn _ _ _) as [touched'|]; [|done]. cbn [mbind option_bind].
  destruct (validateOnBlur (props c)); [|done].
  rewrite !combinedErrors_setState.
  erewrite (combinedErrors_ext c) by (unfold warnIfMissing; by destruct (_ && _)).
  destruct (combinedErrors c _); [|done]. cbn [mbind option_bind].
  do 2 f_equal. unfold warnIfMissing. by destruct (_ && _).
Qed.

(** X16 (a blur event).  [handleBlur] marks the field of the event as
    touched and leaves values and errors alone; it starts one validation of
    the current values when [validateOnBlur] is set, and none otherwise.
    Nothing guards the handler against a target without a name and an id:
    the update proceeds at the empty path, the missing identifier is
    reported outside production, and the validation is started all the
    same. *)
Theorem handleBlur_marks_touched
    (production : bool) (target : Target) (c : Formik) :
  let field := if String.eqb (name target) "" then id target else name target in
  (∀ c',
     executeBlur production target None c = Some c' →
     setIn (touched (state c)) field (VBool true) = Some (touched (state c'))
     ∧ values (state c') = values (state c)
     ∧ errors (state c') = errors (state c)
     ∧ trace c'
       = trace c ++ (if String.eqb field "" && negb production
                     then [ConsoleError "handleBlur"] else [])
     ∧ if validateOnBlur (props c)
       then isValidating (state c') = true
            ∧ ∃ r, combinedErrors c (values (state c)) = Some r
                   ∧ pending c'
                     = pending c ++ [{| continuation := AfterRunValidations;
                                        result := r |}]
       else isValidating (state c') = isValidating (state c)
            ∧ pending c' = pending c)
  ∧ (∀ touched',
       setIn (touched (state c)) field (VBool true) = Some touched' →
       (validateOnBlur (props c) = true →
        is_Some (combinedErrors c (values (state c)))) →
       ∃ c', executeBlur production target None c = Some c'
             ∧ touched (state c') = touched')
  ∧ (field = "" →
     (validateOnBlur (props c) = true →
      is_Some (combinedErrors c (values (state c)))) →
     ∃ c', executeBlur production target None c = Some c'
           ∧ values (state c') = values (state c)
           ∧ errors (state c') = errors (state c)
           ∧ trace c'
             = trace c ++ (if production then [] else [ConsoleError "handleBlur"])
           ∧ length (pending c')
             = length (pending c) + (if validateOnBlur (props c) then 1 else 0)).
Proof.
  intros field.
  assert (fieldOf None target = field) as Hfield
    by (unfold fieldOf, field; by destruct (String.eqb (name target) "")).
  pose proof (executeBlur_eq production target c) as Hexec.
  rewrite Hfield in Hexec.
  assert (∀ touched',
            setIn (touched (state c)) field (VBool true) = Some touched' →
            (validateOnBlur (props c) = true →
             is_Some (combinedErrors c (values (state c)))) →
            ∃ c', executeBlur production target None c = Some c'
                  ∧ touched (state c') = touched'
                  ∧ values (state c') = values (state c)
                  ∧ errors (state c') = errors (state c)
                  ∧ trace c'
                    = trace c ++ (if String.eqb field "" && negb production
                                  then [ConsoleError "handleBlur"] else [])
                  ∧ length (pending c')
                    = length (pending c)
                      + (if validateOnBlur (props c) then 1 else 0)) as Hrun.
  { intros touched' Hset Hpipe. rewrite Hexec, Hset. cbn [mbind option_bind].
    cbn zeta. unfold warnIfMissing.
    destruct (validateOnBlur (props c)).
    - destruct Hpipe as [r Hr]; [done|]. rewrite Hr. cbn [mbind option_bind].
      eexists. split; [reflexivity|].
      destruct (_ && _); simpl; rewrite ?app_nil_r, ?length_app; by repeat split.
    - eexists. split; [reflexivity|].
      destruct (_ && _); simpl; rewrite ?app_nil_r, ?Nat.add_0_r;
        by repeat split. }
  split; [|split].
  - intros c' Hc'. rewrite Hexec in Hc'. split_bind Hc'. rewrite Hx.
    cbn zeta in Hc'. unfold warnIfMissing in Hc'.
    destruct (validateOnBlur (props c)).
    + split_bind Hc'. injection Hc' as <-.
      destruct (_ && _); simpl; rewrite ?app_nil_r;
        (repeat split; try done); by exists x0.
    + injection Hc' as <-.
      destruct (_ && _); simpl; rewrite ?app_nil_r; by repeat split.
  - intros touched' Hset Hpipe.
    destruct (Hrun touched' Hset Hpipe) as (c' & Hc' & Ht & _).
    by exists c'.
  - intros Hempty Hpipe.
    destruct (Hrun (touched (state c))) as (c' & Hc' & _ & Hv & He & Ht & Hq);
      [by rewrite Hempty|done|].
    exists c'. split; [exact Hc'|]. split; [exact Hv|]. split; [exact He|].
    split; [|exact Hq]. rewrite Ht, Hempty. by destruct production.
Qed.

Lemma handleBlur_marks_touched_witness :
  let c :=
    constructor
      {| props_initialValues := VObject [("name", VString "jared")];
         validateOnChange := true; validateOnBlur := true;
         validateOnLoad := false; enableReinitialize := false;
         props_validate := None; validationSchema := None;
         props_onSubmit := λ _, Returns VUndefined |} in
  let named := {| type := Some "text"; name := "name"; id := "";
                  value_ := VString "jared"; checked := VUndefined;
                  outerHTML := "" |} in
  let anonymous := {| type := Some "text"; name := ""; id := "";
                      value_ := VString "jared"; checked := VUndefined;
                      outerHTML := "<input />" |} in
  (∃ c', executeBlur false named None c = Some c'
         ∧ touched (state c') = VObject [("name", VBool true)])
  ∧ (∃ c', executeBlur false anonymous None c = Some c'
           ∧ trace c' = [ConsoleError "handleBlur"]
           ∧ length (pending c') = 1).
Proof.
  intros c named anonymous. split.
  - destruct (handleBlur_marks_touched false named c) as (_ & Hnamed & _).
    exact (Hnamed (VObject [("name", VBool true)]) eq_refl
             (λ _, mk_is_Some _ _ eq_refl)).
  - destruct (handleBlur_marks_touched false anonymous c) as (_ & _ & Hanon).
    destruct (Hanon eq_refl (λ _, mk_is_Some _ _ eq_refl))
      as (c' & Hc' & _ & _ & Ht & Hq).
    exists c'. split; [exact Hc'|]. split; [exact Ht|exact Hq].
Defined.

(** X17 (the handlers are the setters at the field of the event).  For an
    event whose target has a name or an id, [handleChange] is
    [setFieldValue] and [handleBlur] is [setFieldTouched], at that field,
    with the coerced value and with validation requested. *)
Theorem handlers_are_setters
    (parseFloat : value → float) (production : bool)
    (target : Target) (c : Formik) :
  fieldOf None target ≠ "" →
  handleChange parseFloat production (inr target) c
  = inr (setFieldValue (fieldOf None target) (coerce parseFloat target) true c)
  ∧ executeBlur production target None c
    = setFieldTouched (fieldOf None target) true true c.
Proof.
  intros Hfield. pose proof Hfield as Hf%String.eqb_neq. split.
  - unfold handleChange, executeChange, setFieldValue. f_equal.
    rewrite Hf, warnIfMissing_named by done. cbn [negb].
    destruct (setIn (values (state c)) (fieldOf None target)
                (coerce parseFloat target)) as [values'|] eqn:Hset; [|done].
    cbn [mbind option_bind]. cbn [props setState with_state].
    rewrite andb_true_r. by destruct (validateOnChange (props c)).
  - unfold executeBlur, setFieldTouched.
    rewrite warnIfMissing_named by done.
    destruct (setIn _ _ _) as [touched'|]; [|done].
    cbn [mbind option_bind]. cbn [props setState with_state].
    by rewrite andb_true_r.
Qed.

Lemma handlers_are_setters_witness :
  let c :=
    constructor
      {| props_initialValues := VObject [("accept", VBool false)];
         validateOnChange := true; validateOnBlur := true;
         validateOnLoad := false; enableReinitialize := false;
         props_validate := None; validationSchema := None;
         props_onSubmit := λ _, Returns VUndefined |} in
  let target := {| type := Some "checkbox"; name := ""; id := "accept";
                   value_ := VString "on"; checked := VBool true;
                   outerHTML := "" |} in
  handleChange (λ _, nan) false (inr target) c
  = inr (setFieldValue "accept" (VBool true) true c).
Proof.
  intros c target.
  exact (proj1 (handlers_are_setters (λ _, nan) false target c
                  ltac:(discriminate))).
Defined.

(** ** Validation of one field *)

(** X18 (how [validateField] settles).  For a registered validator,
    [validateField] settles as the call of the validator does.  What the
    validator returns, or what its promise resolves with, is written at the
    field's path and [isValidating] is cleared; what it throws, or the
    reason of its rejected promise, is not turned into an error as the
    batch of field-level validations does: the errors stay as they are,
    [isValidating] stays [true], and the rejection is passed on. *)
Theorem validateField_settles_as_validator
    (c : Formik) (field : string) (fns : FieldFns) (f : value → outcome) :
  didMount c = true →
  obj_get field (fields c) = Some fns → validate fns = Some f →
  match promise_of_call (f (getIn (values (state c)) field)) with
  | Fulfilled error =>
      ∀ errors',
        setIn (errors (state c)) field error = Some errors' →
        ∃ c2, settle (length (pending c)) (validateField field c)
              = Some (c2, Fulfilled VUndefined)
              ∧ errors (state c2) = errors'
              ∧ isValidating (state c2) = false
              ∧ pending c2 = pending c
  | Rejected e =>
      ∃ c2, settle (length (pending c)) (validateField field c)
            = Some (c2, Rejected e)
            ∧ errors (state c2) = errors (state c)
            ∧ isValidating (state c2) = true
            ∧ pending c2 = pending c
  end.
Proof.
  intros Hm Hget Hval.
  assert (∀ r, promise_of_call (f (getIn (values (state c)) field)) = r →
            settle (length (pending c)) (validateField field c)
            = runTask {| continuation := AfterValidateField field; result := r |}
                (with_pending (pending c) (setState (set_isValidating true) c)))
    as Hsettle.
  { intros r Hr.
    rewrite (settle_middle _ (pending c)
               {| continuation := AfterValidateField field; result := r |} []).
    - by rewrite app_nil_r.
    - unfold validateField. cbn [pending with_pending fields state values
                                   setState with_state set_isValidating].
      unfold runSingleFieldLevelValidation. by rewrite Hget, Hval, Hr. }
  destruct (promise_of_call _) as [error|e] eqn:Hp.
  - intros errors' Hset. rewrite (Hsettle _ eq_refl).
    cbn [runTask result continuation]. unfold afterValidateField.
    cbn [didMount with_pending setState with_state state errors
         set_isValidating]. rewrite Hm, Hset. cbn [mbind option_bind].
    eexists. split; [reflexivity|]. done.
  - rewrite (Hsettle _ eq_refl). cbn [runTask result].
    eexists. split; [reflexivity|]. done.
Qed.

Lemma validateField_settles_as_validator_witness :
  let c :=
    registerField "email"
      {| validate := Some (λ _, Throws (VString "required")) |}
      (with_didMount true
         (constructor
            {| props_initialValues := VObject [("email", VString "")];
               validateOnChange := true; validateOnBlur := true;
               validateOnLoad := false; enableReinitialize := false;
               props_validate := None; validationSchema := None;
               props_onSubmit := λ _, Returns VUndefined |})) in
  (∃ c2, settle 0 (validateField "email" c)
         = Some (c2, Rejected (VString "required"))
         ∧ errors (state c2) = VObject []
         ∧ isValidating (state c2) = true)
  ∧ runFieldLevelValidations (fields c) (values (state c))
    = Some (Fulfilled (VObject [("email", VString "required")])).
Proof.
  intros c. split; [|reflexivity].
  destruct (validateField_settles_as_validator c "email"
              {| validate := Some (λ _, Throws (VString "required")) |}
              (λ _, Throws (VString "required")) eq_refl eq_refl eq_refl)
    as (c2 & Hs & He & Hv & _).
  exists c2. split; [exact Hs|]. split; [exact He|exact Hv].
Defined.

(** ** Reinitialisation and computed properties *)

(** X19 (reinitialisation).  [getDerivedStateFromProps] answers only when
    [enableReinitialize] is set and the initial values of the props differ
    from those of the state; its answer replaces both [values] and
    [initialValues] by the new initial values and clears everything else,
    and the same props do not reinitialise the answer again. *)
Theorem getDerivedStateFromProps_reinitialises
    (nextProps : Config) (prevState : State) :
  well_formed (props_initialValues nextProps) →
  match getDerivedStateFromProps nextProps prevState with
  | Some s =>
      enableReinitialize nextProps = true
      ∧ isEqual (initialValues prevState) (props_initialValues nextProps) = false
      ∧ s = {| values := props_initialValues nextProps;
               initialValues := props_initialValues nextProps;
               errors := VObject []; touched := VObject [];
               isValidating := false; isSubmitting := false;
               status := VUndefined; submitCount := 0 |}
      ∧ getDerivedStateFromProps nextProps s = None
  | None =>
      enableReinitialize nextProps = false
      ∨ isEqual (initialValues prevState) (props_initialValues nextProps) = true
  end.
Proof.
  intros Hwf. unfold getDerivedStateFromProps.
  destruct (enableReinitialize nextProps) eqn:He; [|by left].
  destruct (isEqual (initialValues prevState) (props_initialValues nextProps))
    eqn:Heq; cbn [andb negb]; [by right|].
  split; [done|]. split; [done|]. split; [done|].
  cbn [initialValues resetFormState set_initialValues].
  by rewrite (isEqual_refl _ Hwf).
Qed.

Lemma getDerivedStateFromProps_reinitialises_witness :
  let nextProps :=
    {| props_initialValues := VObject [("name", VString "ian")];
       validateOnChange := true; validateOnBlur := true;
       validateOnLoad := false; enableReinitialize := true;
       props_validate := None; validationSchema := None;
       props_onSubmit := λ _, Returns VUndefined |} in
  let prevState :=
    {| values := VObject [("name", VString "jared!")];
       initialValues := VObject [("name", VString "jared")];
       errors := VObject [("name", VString "no bangs")];
       touched := VObject [("name", VBool true)];
       isValidating := false; isSubmitting := true;
       status := VString "sent"; submitCount := 2 |} in
  ∃ s, getDerivedStateFromProps nextProps prevState = Some s
       ∧ values s = VObject [("name", VString "ian")]
       ∧ submitCount s = 0
       ∧ getDerivedStateFromProps nextProps s = None.
Proof.
  intros nextProps prevState.
  assert (well_formed (props_initialValues nextProps)) as Hwf.
  { split; [|done]. apply (bool_decide_unpack _). reflexivity. }
  pose proof (getDerivedStateFromProps_reinitialises nextProps prevState Hwf)
    as H.
  pose_some (getDerivedStateFromProps nextProps prevState) s.
  change (getDerivedStateFromProps nextProps prevState) with (Some s) in H.
  destruct H as (_ & _ & Hs & Hagain).
  exists s. split; [reflexivity|]. split; [reflexivity|].
  split; [reflexivity|exact Hagain].
Defined.

(** X20 (validity of a pristine form).  After a reset to the initial
    values the form is not dirty, and [isValid] is the configured initial
    validity whatever errors are written afterwards. *)
Theorem isValid_after_reset_is_initial
    (isInitialValid : InitialValid) (c : Formik) (e : value) :
  well_formed (initialValues (state c)) →
  dirty (setErrors e (resetForm VUndefined c)) = false
  ∧ isValid isInitialValid (setErrors e (resetForm VUndefined c))
    = Some (match isInitialValid with
            | InitialValidFlag b => VBool b
            | InitialValidFunction f => f (props c)
            end).
Proof.
  intros Hwf.
  assert (dirty (setErrors e (resetForm VUndefined c)) = false) as Hd.
  { rewrite <- (resetForm_not_dirty c Hwf). done. }
  split; [exact Hd|]. unfold isValid. rewrite Hd.
  by destruct isInitialValid.
Qed.

Lemma isValid_after_reset_is_initial_witness :
  let c :=
    constructor
      {| props_initialValues := VObject [("name", VString "jared")];
         validateOnChange := true; validateOnBlur := true;
         validateOnLoad := false; enableReinitialize := false;
         props_validate := None; validationSchema := None;
         props_onSubmit := λ _, Returns VUndefined |} in
  isValid (InitialValidFlag true)
    (setErrors (VObject [("name", VString "required")])
       (resetForm VUndefined c))
  = Some (VBool true).
Proof.
  intros c.
  assert (well_formed (initialValues (state c))) as Hwf.
  { split; [|done]. apply (bool_decide_unpack _). reflexivity. }
  exact (proj2 (isValid_after_reset_is_initial (InitialValidFlag true) c
                  (VObject [("name", VString "required")]) Hwf)).
Defined.

(** ** Reset handler *)

(** X21 (a promise returned by [onReset]).  When [onReset] returns a
    promise, [handleReset] resets nothing by itself.  Once the promise is
    fulfilled, [resetForm] receives its value: a truthy value becomes the
    values of the form, any other value resets to the initial values.  A
    rejected promise leaves the form as it is. *)
Theorem handleReset_waits_for_promise
    (onReset : value → outcome) (c : Formik) (p : settled value) :
  onReset (values (state c)) = ReturnsPromise p →
  handleReset (Some onReset) c = Completes (c, Some p)
  ∧ match p with
    | Fulfilled v =>
        values (state (afterOnReset p c))
        = (if truthy v then v else initialValues (state c))
        ∧ errors (state (afterOnReset p c)) = VObject []
        ∧ initialValues (state (afterOnReset p c)) = initialValues (state c)
    | Rejected _ => afterOnReset p c = c
    end.
Proof.
  intros Hp. unfold handleReset. rewrite Hp. split; [done|].
  destruct p as [v|e]; [|done].
  cbn [afterOnReset]. rewrite resetForm_state. done.
Qed.

Lemma handleReset_waits_for_promise_witness :
  let c :=
    constructor
      {| props_initialValues := VObject [("name", VString "jared")];
         validateOnChange := true; validateOnBlur := true;
         validateOnLoad := false; enableReinitialize := false;
         props_validate := None; validationSchema := None;
         props_onSubmit := λ _, Returns VUndefined |} in
  let saved := Fulfilled (VObject [("saved", VBool true)]) in
  handleReset (Some (λ _, ReturnsPromise saved)) c = Completes (c, Some saved)
  ∧ values (state (afterOnReset saved c)) = VObject [("saved", VBool true)].
Proof.
  intros c saved.
  destruct (handleReset_waits_for_promise (λ _, ReturnsPromise saved) c saved
              eq_refl) as (Hcall & Hv & _).
  split; [exact Hcall|exact Hv].
Defined.

(** ** Schema validation *)

Lemma is_string_empty v : is_string "" v = true ↔ v = VString "".
Proof.
  destruct v; simpl; try (split; [done|discriminate]).
  rewrite String.eqb_eq. split; [by intros ->|by intros [= ->]].
Qed.

(** X22 (the data handed to the schema).  [validateYupSchema] hands the
    schema a copy of the values with the same keys in which exactly the
    top-level empty strings are replaced by [undefined]; every other
    value, an empty string further down included, is passed as it is, and
    preparing the copy again changes nothing. *)
Theorem validateData_blanks_top_level_strings (ps : list (string * value)) :
  ∃ ps', validateData (VObject ps) = VObject ps'
         ∧ keys ps' = keys ps
         ∧ (∀ k, obj_get k ps'
                 = (λ v, if is_string "" v then VUndefined else v)
                     <$> obj_get k ps)
         ∧ (∀ k v, In (k, v) ps' → v ≠ VString "")
         ∧ (∀ schema, validateYupSchema (VObject ps') schema
                      = validateYupSchema (VObject ps) schema).
Proof.
  eexists. split; [reflexivity|].
  set (blank := λ kv : string * value,
                  (kv.1, if is_string "" kv.2 then VUndefined else kv.2)).
  split; [|split; [|split]].
  - unfold keys. induction ps as [|[k v] ps IH]; [done|].
    cbn [map]. rewrite !fmap_cons, IH. done.
  - intros k. induction ps as [|[k' v] ps IH]; [done|].
    cbn [map obj_get blank fst snd]. by destruct (String.eqb k k').
  - intros k v Hin. apply in_map_iff in Hin as ([k' v'] & [= <- <-] & _).
    cbn [snd]. destruct (is_string "" v') eqn:E; [done|].
    intros Heq%is_string_empty. congruence.
  - intros schema. unfold validateYupSchema. f_equal.
    cbn [validateData]. f_equal. rewrite map_map. apply map_ext.
    intros [k v]. cbn [fst snd blank].
    by destruct (is_string "" v) eqn:E; [|rewrite E].
Qed.

Lemma keptMessage_other k err rest :
  path err ≠ k → keptMessage k (err :: rest) = keptMessage k rest.
Proof.
  intros Hne%String.eqb_neq. unfold keptMessage.
  cbn [first_truthy_message last_message]. rewrite Hne. cbn [andb].
  destruct (first_truthy_message k rest); [done|].
  by destruct (last_message k rest).
Qed.

Lemma keptMessage_here err rest :
  keptMessage (path err) (err :: rest)
  = if truthy (message err) then Some (message err)
    else Some (default (message err) (keptMessage (path err) rest)).
Proof.
  unfold keptMessage. cbn [first_truthy_message last_message].
  rewrite String.eqb_refl. cbn [andb].
  destruct (truthy (message err)); [done|].
  destruct (first_truthy_message (path err) rest); [done|].
  by destruct (last_message (path err) rest).
Qed.

Lemma yupToFormErrors_loop_keptMessage (inner : list ValidationFailure) : ∀ ps,
  (∀ err, In err inner → toPath (path err) = [Key (path err)]) →
  ∃ ps', yupToFormErrors_loop inner (VObject ps) = Some (VObject ps')
         ∧ ∀ k, obj_get k ps'
                = match obj_get k ps with
                  | Some v =>
                      if truthy v then Some v
                      else Some (default v (keptMessage k inner))
                  | None =>
                      if inherited Object_prototype k then None
                      else keptMessage k inner
                  end.
Proof.
  induction inner as [|err rest IH]; intros ps Hin.
  - exists ps. split; [done|]. intros k.
    destruct (obj_get k ps) as [v|]; [by destruct (truthy v)|].
    by destruct (inherited _ _).
  - pose proof (Hin err ltac:(by left)) as Hpath.
    assert (∀ e, In e rest → toPath (path e) = [Key (path e)]) as Hrest
      by (intros e He; apply Hin; by right).
    cbn [yupToFormErrors_loop].
    destruct (truthy (prop (VObject ps) (path err))) eqn:Ht; cbn [negb].
    + destruct (IH ps Hrest) as (ps' & Hloop & Hlook).
      exists ps'. split; [done|]. intros k. rewrite Hlook.
      destruct (decide (path err = k)) as [<-|Hne].
      * cbn [prop] in Ht. destruct (obj_get (path err) ps) as [v|].
        -- by rewrite Ht.
        -- by destruct (inherited Object_prototype (path err)).
      * by rewrite keptMessage_other.
    + rewrite (setIn_tokens _ _ _ ltac:(by rewrite Hpath)), Hpath.
      cbn [set_path put_child]. cbn [mbind option_bind].
      destruct (IH (obj_set (path err) (message err) ps) Hrest)
        as (ps' & Hloop & Hlook).
      exists ps'. split; [done|]. intros k. rewrite Hlook.
      destruct (decide (path err = k)) as [<-|Hne].
      * rewrite obj_get_set_eq, keptMessage_here. cbn [prop] in Ht.
        destruct (obj_get (path err) ps) as [v|].
        -- rewrite Ht. by destruct (truthy (message err)).
        -- destruct (inherited Object_prototype (path err)); [done|].
           by destruct (truthy (message err)).
      * rewrite obj_get_set_ne, keptMessage_other by done. done.
Qed.

(** X23 (the message kept for a top-level key).  Where every failure is
    addressed by a single mapping key, [yupToFormErrors] keeps for each key
    its first truthy message; a falsy message, such as the empty string,
    does not close the key, so that with falsy messages only the last one
    is kept.  The guard reads [errors[err.path]] through the prototype
    chain: a failure whose key names a property that every object inherits,
    such as [constructor] or [toString], is dropped. *)
Theorem yupToFormErrors_keeps_first_truthy_message
    (inner : list ValidationFailure) :
  (∀ err, In err inner → toPath (path err) = [Key (path err)]) →
  ∃ ps, yupToFormErrors inner = Some (VObject ps)
        ∧ ∀ k, obj_get k ps
               = if inherited Object_prototype k then None
                 else match first_truthy_message k inner with
                      | Some m => Some m
                      | None => last_message k inner
                      end.
Proof.
  intros Hin.
  destruct (yupToFormErrors_loop_keptMessage inner [] Hin)
    as (ps & Hloop & Hlook).
  exists ps. split; [exact Hloop|]. intros k. rewrite Hlook. done.
Qed.

Lemma yupToFormErrors_keeps_first_truthy_message_witness :
  let inner :=
    [{| path := "name"; message := VString "" |};
     {| path := "email"; message := VString "" |};
     {| path := "constructor"; message := VString "unknown" |};
     {| path := "name"; message := VString "too short" |};
     {| path := "email"; message := VNull |};
     {| path := "name"; message := VString "also bad" |}] in
  ∃ ps, yupToFormErrors inner = Some (VObject ps)
        ∧ obj_get "name" ps = Some (VString "too short")
        ∧ obj_get "email" ps = Some VNull
        ∧ obj_get "constructor" ps = None.
Proof.
  intros inner.
  destruct (yupToFormErrors_keeps_first_truthy_message inner)
    as (ps & Hps & Hlook).
  { intros err Hin. repeat (destruct Hin as [<-|Hin]; [reflexivity|]).
    destruct Hin. }
  exists ps. split; [exact Hps|].
  split; [exact (Hlook "name")|].
  split; [exact (Hlook "email")|exact (Hlook "constructor")].
Defined.

(** ** Field bindings *)

Lemma executeChange_errors parseFloat production e maybePath c c' :
  executeChange parseFloat production e maybePath c = Some c' →
  errors (state c') = errors (state c).
Proof.
  unfold executeChange, runValidations. intros H.
  assert (∀ f h, errors (state (match e with
                                | inl _ => c
                                | inr _ => warnIfMissing production f h c
                                end)) = errors (state c)) as Hwarn.
  { intros f h. destruct e; [done|]. unfold warnIfMissing.
    by destruct (_ && _). }
  destruct (negb _); [|injection H as <-; apply Hwarn].
  split_bind H. destruct (validateOnChange (props c)).
  - split_bind H. apply startValidations_state in H as (-> & _).
    cbn [state setState with_state errors set_isValidating set_values].
    apply Hwarn.
  - injection H as <-.
    cbn [state setState with_state errors set_values]. apply Hwarn.
Qed.

Lemma executeChange_event_named parseFloat production target c :
  fieldOf None target ≠ "" →
  executeChange parseFloat production (inr target) None c
  = values' ← setIn (values (state c)) (fieldOf None target)
                (coerce parseFloat target);
    if validateOnChange (props c)
    then runValidations values' (setState (set_values values') c)
    else Some (setState (set_values values') c).
Proof.
  intros Hfield. pose proof Hfield as Hf%String.eqb_neq.
  unfold executeChange. rewrite Hf, warnIfMissing_named by done. cbn [negb].
  destruct (setIn _ _ _) as [values'|] eqn:Hset; [|done].
  cbn [mbind option_bind]. by destruct (validateOnChange (props c)).
Qed.

(** X24 (what the validator of a [Field] sees on a change).  On a change
    event a [Field] with a validator, under [validateOnChange], hands the
    validator the raw value of the target, not the coerced value that is
    written into the form, and writes the plain result as the error at the
    name of the [Field]; the validation of the whole form that
    [handleChange] started is in flight besides. *)
Theorem Field_handleChange_validates_raw_value
    (parseFloat : value → float) (production : bool) (fieldName : string)
    (validator : value → outcome) (target : Target) (c c' : Formik)
    (error : value) :
  validateOnChange (props c) = true →
  fieldOf None target ≠ "" →
  validator (value_ target) = Returns error →
  Field_handleChange parseFloat production fieldName (Some validator) target c
  = Some (Completes (c', None)) →
  setIn (errors (state c)) fieldName error = Some (errors (state c'))
  ∧ setIn (values (state c)) (fieldOf None target) (coerce parseFloat target)
    = Some (values (state c'))
  ∧ ∃ r, pending c'
         = pending c ++ [{| continuation := AfterRunValidations; result := r |}].
Proof.
  intros Hon Hfield Hret. unfold Field_handleChange, runFieldValidations.
  rewrite Hon, Hret. intros H. split_bind H. split_bind H.
  injection H as <-.
  pose proof (executeChange_errors _ _ _ _ _ _ Hx) as Herr.
  rewrite executeChange_event_named, Hon in Hx by done.
  split_bind Hx. unfold runValidations in Hx.
  apply startValidations_state in Hx as (Hs & _ & _ & _ & r & _ & Hq).
  unfold setFieldError in Hx0. split_bind Hx0. injection Hx0 as <-.
  cbn [state setState with_state errors values pending set_errors].
  rewrite <- Herr. split; [done|]. rewrite Hs. split; [done|].
  by exists r.
Qed.

Lemma Field_handleChange_validates_raw_value_witness :
  let parse := λ v, match v with
                    | VString "42" => 42%float
                    | _ => nan
                    end in
  let validator := λ v, match v with
                        | VNumber _ => Returns VUndefined
                        | _ => Returns (VString "not a number")
                        end in
  let c :=
    with_didMount true
      (constructor
         {| props_initialValues := VObject [("age", VString "")];
            validateOnChange := true; validateOnBlur := true;
            validateOnLoad := false; enableReinitialize := false;
            props_validate := None; validationSchema := None;
            props_onSubmit := λ _, Returns VUndefined |}) in
  let target := {| type := Some "number"; name := "age"; id := "";
                   value_ := VString "42"; checked := VUndefined;
                   outerHTML := "" |} in
  ∃ c', Field_handleChange parse false "age" (Some validator) target c
        = Some (Completes (c', None))
        ∧ Some (VObject [("age", VString "not a number")])
          = Some (errors (state c'))
        ∧ Some (VObject [("age", VNumber 42%float)]) = Some (values (state c')).
Proof.
  intros parse validator c target.
  assert (∃ c', Field_handleChange parse false "age" (Some validator) target c
                = Some (Completes (c', None))) as [c' Hc'].
  { eexists. reflexivity. }
  exists c'. split; [exact Hc'|].
  destruct (Field_handleChange_validates_raw_value parse false "age" validator
              target c c' (VString "not a number") eq_refl
              ltac:(discriminate) eq_refl Hc') as (He & Hv & _).
  split; [exact He|exact Hv].
Defined.

Lemma setFormikState_liftFastField fieldName v error c c' :
  setFormikState (liftFastField fieldName v error) c = Some c' →
  pending c' = pending c ∧ trace c' = trace c ∧ fields c' = fields c
  ∧ didMount c' = didMount c
  ∧ isValidating (state c') = isValidating (state c)
  ∧ isSubmitting (state c') = isSubmitting (state c)
  ∧ setIn (values (state c)) fieldName v = Some (values (state c'))
  ∧ setIn (errors (state c)) fieldName error = Some (errors (state c'))
  ∧ setIn (touched (state c)) fieldName (VBool true) = Some (touched (state c')).
Proof.
  unfold setFormikState, liftFastField. intros H. split_bind H.
  injection H as <-. split_bind Hx. split_bind Hx. split_bind Hx.
  injection Hx as <-. by repeat split.
Qed.

(** X25 (a blur of a [FastField]).  [handleBlur] of a [FastField] lifts the
    local value, the error and the touched flag of the field into the form;
    it goes through [setFormikState] and so never starts the validation of
    the whole form, whatever [validateOnBlur] says.  With a validator that
    returns a promise nothing is written before the promise settles. *)
Theorem FastField_handleBlur_starts_no_validation
    (fieldName : string) (validator : option (value → outcome))
    (local : FastFieldState) (c c' : Formik) (p : option (settled value)) :
  FastField_handleBlur fieldName validator local c = Some (Completes (c', p)) →
  pending c' = pending c
  ∧ trace c' = trace c
  ∧ isValidating (state c') = isValidating (state c)
  ∧ match p with
    | Some _ => c' = c
    | None =>
        setIn (values (state c)) fieldName (fast_value local)
        = Some (values (state c'))
        ∧ setIn (touched (state c)) fieldName (VBool true)
          = Some (touched (state c'))
        ∧ ∃ error, setIn (errors (state c)) fieldName error
                   = Some (errors (state c'))
                   ∧ (error = fast_error local
                      ∨ ∃ f, validator = Some f
                             ∧ f (fast_value local) = Returns error)
    end.
Proof.
  unfold FastField_handleBlur. intros H.
  assert (∀ error,
            (error = fast_error local
             ∨ ∃ f, validator = Some f ∧ f (fast_value local) = Returns error) →
            setFormikState (liftFastField fieldName (fast_value local) error) c
            ≫= (λ c', Some (Completes (c', None)))
            = Some (Completes (c', p)) →
            pending c' = pending c
            ∧ trace c' = trace c
            ∧ isValidating (state c') = isValidating (state c)
            ∧ match p with
              | Some _ => c' = c
              | None =>
                  setIn (values (state c)) fieldName (fast_value local)
                  = Some (values (state c'))
                  ∧ setIn (touched (state c)) fieldName (VBool true)
                    = Some (touched (state c'))
                  ∧ ∃ error, setIn (errors (state c)) fieldName error
                             = Some (errors (state c'))
                             ∧ (error = fast_error local
                                ∨ ∃ f, validator = Some f
                                       ∧ f (fast_value local) = Returns error)
              end) as Hlift.
  { intros error Herror Hb. split_bind Hb. injection Hb as <- <-.
    apply setFormikState_liftFastField in Hx
      as (Hq & Ht & _ & _ & Hv & _ & Hvals & Herrs & Htouched).
    split; [exact Hq|]. split; [exact Ht|]. split; [exact Hv|].
    split; [exact Hvals|]. split; [exact Htouched|]. by exists error. }
  destruct validator as [f|]; [|by apply (Hlift (fast_error local)); [left|]].
  destruct (validateOnBlur (props c));
    [|by apply (Hlift (fast_error local)); [left|]].
  destruct (f (fast_value local)) as [error|e|q] eqn:Hf.
  - apply (Hlift error); [|done]. right. by exists f.
  - done.
  - by injection H as <- <-.
Qed.

Lemma FastField_handleBlur_starts_no_validation_witness :
  let c :=
    with_didMount true
      (constructor
         {| props_initialValues := VObject [("name", VString "")];
            validateOnChange := true; validateOnBlur := true;
            validateOnLoad := false; enableReinitialize := false;
            props_validate := Some (λ _, Returns (VObject [("name", VString "x")]));
            validationSchema := None;
            props_onSubmit := λ _, Returns VUndefined |}) in
  let local := {| fast_value := VString "jared"; fast_error := VUndefined |} in
  ∃ c', FastField_handleBlur "name" None local c = Some (Completes (c', None))
        ∧ pending c' = []
        ∧ Some (VObject [("name", VString "jared")]) = Some (values (state c'))
        ∧ Some (VObject [("name", VBool true)]) = Some (touched (state c')).
Proof.
  intros c local.
  assert (∃ c', FastField_handleBlur "name" None local c
                = Some (Completes (c', None))) as [c' Hc'].
  { eexists. reflexivity. }
  exists c'. split; [exact Hc'|].
  destruct (FastField_handleBlur_starts_no_validation "name" None local c c'
              None Hc') as (Hq & _ & _ & Hv & Ht & _).
  split; [exact Hq|]. split; [exact Hv|exact Ht].
Defined.

(** ** The submission counter *)

(** X26 (what [submitCount] counts).  Over an execution made of the life
    cycle, the registrations, the two event handlers, the setters,
    validation, submission, settlements and renders under props that do not
    enable reinitialisation, [submitCount] grows by exactly the number of
    [submitForm] calls, whether or not their validations have settled and
    whatever they decided.  (A caller's own update through
    [setFormikState], a render under props that enable reinitialisation and
    a reset, which puts the counter back to zero, are not among them.) *)
Theorem run_submitCount_counts_submitForm
    (parseFloat : value → float) (production : bool)
    (actions : list Action) (c c' : Formik) :
  forallb keepsBaseline actions = true →
  run parseFloat production actions c = Some c' →
  submitCount (state c')
  = submitCount (state c) + length (List.filter is_SubmitForm actions).
Proof.
  revert c. induction actions as [|a actions IH]; intros c Hkeep Hrun.
  - injection Hrun as <-. simpl. lia.
  - cbn [run] in Hrun. split_bind Hrun.
    cbn [forallb] in Hkeep. apply andb_prop in Hkeep as [Ha Hkeep].
    apply step_baseline in Hx as (_ & Hn); [|exact Ha].
    rewrite (IH _ Hkeep Hrun), Hn. cbn [List.filter].
    destruct (is_SubmitForm a); cbn [length]; lia.
Qed.

Lemma run_submitCount_counts_submitForm_witness :
  let c :=
    registerField "name"
      {| validate := Some (λ _, Returns (VString "taken")) |}
      (constructor
         {| props_initialValues := VObject [("name", VString "jared")];
            validateOnChange := true; validateOnBlur := true;
            validateOnLoad := false; enableReinitialize := false;
            props_validate := None; validationSchema := None;
            props_onSubmit := λ _, Returns VUndefined |}) in
  ∃ c',
    run (λ _, nan) false [Mount; SubmitForm; Settle 0; SubmitForm] c = Some c'
    ∧ submitCount (state c') = 2
    ∧ submitCalls c' = 0.
Proof.
  intros c.
  pose_some (run (λ _, nan) false [Mount; SubmitForm; Settle 0; SubmitForm] c) c'.
  exists c'. split; [reflexivity|]. split; [|reflexivity].
  exact (run_submitCount_counts_submitForm (λ _, nan) false
           [Mount; SubmitForm; Settle 0; SubmitForm] c c' eq_refl eq_refl).
Defined.
